(** * textrek: the song compiler of [tt.go]

    A shallow embedding of the line-oriented song builder and of the
    timing and mixing code of [tt.go], with the properties of the design
    document checked against it.

    Conventions of the embedding:
    - Go's [int] and [int64] are 64-bit two's-complement integers: values
      live in [Z] and every arithmetic result is wrapped by [wrap64].
    - Go's [float64] is IEEE 754 binary64, round to nearest even: values
      are [spec_float] and the operations are those of [SpecFloat] at
      precision 53 and maximal exponent 1024.
    - [*Track] values are addresses into an explicit store ([heap]), so
      that two slots of a pattern holding the same pointer share one
      record, as they do in the program.
    - [strconv.ParseFloat] and [strconv.ParseInt] belong to the Go
      library; the builder takes them as a parameter ([Strconv]).  A
      decimal instance is supplied for running the builder on concrete
      files. *)

From Stdlib Require Import ZArith List String Ascii Bool Lia.
From Stdlib Require Import Floats.SpecFloat.
From stdpp Require Import base option list gmap strings.

Local Open Scope Z_scope.

(** ** Machine integers *)

Module Int.

Definition min_int : Z := - 2 ^ 63.
Definition max_int : Z := 2 ^ 63 - 1.

(** Two's-complement wrap-around of a 64-bit signed result. *)
Definition wrap64 (z : Z) : Z := (z + 2 ^ 63) mod 2 ^ 64 - 2 ^ 63.

Definition in_range (z : Z) : Prop := min_int <= z <= max_int.

Definition in_rangeb (z : Z) : bool := (min_int <=? z) && (z <=? max_int).

Definition add (a b : Z) : Z := wrap64 (a + b).
Definition mul (a b : Z) : Z := wrap64 (a * b).

End Int.

(** ** float64 *)

Module F64.

Definition prec : Z := 53.
Definition emax : Z := 1024.

Definition float64 : Type := spec_float.

Definition mul : float64 -> float64 -> float64 := SFmul prec emax.
Definition div : float64 -> float64 -> float64 := SFdiv prec emax.
Definition add : float64 -> float64 -> float64 := SFadd prec emax.
Definition ltb : float64 -> float64 -> bool := SFltb.
Definition eqb : float64 -> float64 -> bool := SFeqb.

(** Conversion of an integer (constant or [int64] value) to float64. *)
Definition of_Z (z : Z) : float64 := binary_normalize prec emax z 0 false.

Definition zero : float64 := S754_zero false.

Definition is_finite (f : float64) : bool :=
  match f with
  | S754_zero _ | S754_finite _ _ _ => true
  | S754_infinity _ | S754_nan => false
  end.

Definition sign (f : float64) : bool :=
  match f with
  | S754_zero s | S754_infinity s | S754_finite s _ _ => s
  | S754_nan => false
  end.

(** The integer part of a finite value, rounded toward zero. *)
Definition trunc (f : float64) : option Z :=
  match f with
  | S754_zero _ => Some 0
  | S754_finite s m e => Some (cond_Zopp s (Z.shiftl (Z.pos m) e))
  | S754_infinity _ | S754_nan => None
  end.

(** The integer part rounded toward minus infinity (the [floor] of the
    design document). *)
Definition floor (f : float64) : option Z :=
  match f with
  | S754_zero _ => Some 0
  | S754_finite s m e => Some (Z.shiftl (cond_Zopp s (Z.pos m)) e)
  | S754_infinity _ | S754_nan => None
  end.

(** What a float64-to-int conversion yields when the value is NaN,
    infinite or outside the range of [int]: the Go specification leaves
    the result to the implementation; on amd64 the conversion
    instruction returns the "integer indefinite" value [-2^63]. *)
Definition int_indefinite : Z := Int.min_int.

(** Go's conversion [int(f)] (amd64). *)
Definition to_int (f : float64) : Z :=
  match trunc f with
  | Some z => if Int.in_rangeb z then z else int_indefinite
  | None => int_indefinite
  end.

End F64.

Abbreviation float64 := F64.float64.

(** ** Outcomes of fallible code *)

(** The errors [processFile] returns while it reads the lines. *)
Inductive error : Type :=
| ErrParseBpm (tok : string)
| ErrParseSr (tok : string)
| ErrParseSteps (tok : string)
| ErrParseStep (tok : string)
| ErrReuseUndefined
| ErrInstantiate (name : string) (cause : string)
| ErrUnknownProcessor (name : string)
| ErrDataWithoutTrack.

(** A run-time panic of the Go program. *)
Inductive panic : Type :=
| NilDereference
| IndexOutOfRange (index : Z) (len : nat).

(** ** Data model *)

(** [type SampleBuffer []float64], seen through its elements. *)
Abbreviation SampleBuffer := (list float64).

Definition NewSampleBuffer : SampleBuffer := [].

(** [func (buf SampleBuffer) Clear()]. *)
Definition Clear (buf : SampleBuffer) : SampleBuffer :=
  map (fun _ => F64.zero) buf.

(** [type DataLines map[byte]string]. *)
Abbreviation DataLines := (gmap ascii string).

(** What a processor can read of the track it is run for: the data lines
    and the clear flag and tempo snapshot. *)
Record TrackView : Type := mkView {
  v_clear : bool;
  v_data : DataLines;
  v_bpm : float64;
  v_step : float64;
  v_steps : Z
}.

(** A store [buf[i] = v] performed by a processor on the buffer it was
    handed. *)
Definition store : Type := (Z * float64)%type.

(** [type Processor interface { Process(t *Track, buf SampleBuffer) }].

    [buf] is a slice passed by value: the callee can store into the
    elements [buf[0] .. buf[len(buf)-1]] and cannot change the length the
    caller sees.  A processor is therefore given by the stores it performs,
    as a function of the track and of the buffer contents; [None] is the
    nil interface value. *)
Record processor : Type := mkProcessor {
  Process : TrackView -> SampleBuffer -> list store
}.

Definition Processor : Type := option processor.

(** [type ProcessorFactory func(args string) (Processor, error)]. *)
Definition ProcessorFactory : Type := string -> string + Processor.

Module Track.

(** [type Track struct]. *)
Record t : Type := mk {
  factory : ProcessorFactory;
  proc : Processor;
  clear : bool;
  data : DataLines;
  bpm : float64;
  step : float64;
  steps : Z
}.

Definition view (tr : t) : TrackView :=
  mkView (clear tr) (data tr) (bpm tr) (step tr) (steps tr).

End Track.

Abbreviation Track := Track.t.

(** A [*Track]: an address in the track store. *)
Abbreviation ptr := nat.

(** [type Pattern []*Track]; the nil slice is the empty list. *)
Abbreviation Pattern := (list ptr).

(** [type Song []Pattern]. *)
Abbreviation Song := (list Pattern).

(** The package-level variables [bpm], [sr], [steps] and [step]. *)
Record Defaults : Type := mkDefaults {
  bpm : float64;
  sr : Z;
  steps : Z;
  step : float64
}.

(** [var nchannels int = 2]; never assigned. *)
Definition nchannels : Z := 2.

(** The initial values of the package-level variables.  The initialiser of
    [step] is the constant expression [1 / 4] over untyped integer
    constants, an integer division, converted to float64 afterwards. *)
Definition step_init : float64 := F64.of_Z (1 / 4).

Definition defaults_init : Defaults :=
  {| bpm := F64.of_Z 120; sr := 48000; steps := 16; step := step_init |}.

(** ** Timing model *)

Section Timing.

(** The package-level [sr] at the time of the call. *)
Variable sr_now : Z.

(** [func (t *Track) BeatsPerSecond() float64]. *)
Definition BeatsPerSecond (t : Track) : float64 :=
  F64.div (Track.bpm t) (F64.of_Z 60).

(** [func (t *Track) SamplesPerBeat() float64]. *)
Definition SamplesPerBeat (t : Track) : float64 :=
  F64.div (F64.of_Z sr_now) (BeatsPerSecond t).

(** [func (t *Track) SamplesPerStep() int]. *)
Definition SamplesPerStep (t : Track) : Z :=
  F64.to_int (F64.mul (SamplesPerBeat t) (Track.step t)).

(** [func (t *Track) Frames() int]. *)
Definition Frames (t : Track) : Z :=
  Int.mul (SamplesPerStep t) (Track.steps t).

End Timing.

(** The frame count as the design document writes it:
    [floor(sr / (bpm / 60) * step) * steps], the quotient and products of
    the argument of [floor] taken in float64, [floor] and the product by
    [steps] taken over the integers.  [None] when [floor] has no value
    (NaN or an infinity). *)
Definition frameCount_spec (bpm0 : float64) (sr0 : Z) (steps0 : Z) (step0 : float64)
  : option Z :=
  z ← F64.floor (F64.mul (F64.div (F64.of_Z sr0) (F64.div bpm0 (F64.of_Z 60))) step0);
  Some (z * steps0).

(** ** Lines and regular expressions *)

(** A line is a Go string: a sequence of bytes. *)
Definition bytes : Type := list ascii.

Definition byte_val (c : ascii) : Z := Z.of_N (N_of_ascii c).

Definition between (lo hi : Z) (c : ascii) : bool :=
  (lo <=? byte_val c) && (byte_val c <=? hi).

(** Continuation byte of a UTF-8 sequence ([locb] to [hicb]). *)
Definition is_cont : ascii -> bool := between 128 191.

(** The width of the first rune of [s], as [utf8.DecodeRuneInString]
    reports it: the length of a well-formed UTF-8 sequence, and 1 for a
    byte that starts none (decoded as [RuneError]).  0 for the empty
    string. *)
Definition rune_width (s : bytes) : nat :=
  match s with
  | [] => 0%nat
  | b0 :: rest =>
      let two (lo hi : Z) : nat :=
        match rest with
        | b1 :: _ => if between lo hi b1 then 2%nat else 1%nat
        | _ => 1%nat
        end in
      let three (lo hi : Z) : nat :=
        match rest with
        | b1 :: b2 :: _ =>
            if between lo hi b1 && is_cont b2 then 3%nat else 1%nat
        | _ => 1%nat
        end in
      let four (lo hi : Z) : nat :=
        match rest with
        | b1 :: b2 :: b3 :: _ =>
            if between lo hi b1 && is_cont b2 && is_cont b3 then 4%nat else 1%nat
        | _ => 1%nat
        end in
      let x := byte_val b0 in
      if x <? 194 then 1%nat                 (* ASCII, or no leading byte *)
      else if x <? 224 then two 128 191      (* C2..DF *)
      else if x =? 224 then three 160 191    (* E0 *)
      else if x =? 237 then three 128 159    (* ED *)
      else if x <? 240 then three 128 191    (* E1..EC, EE, EF *)
      else if x =? 240 then four 144 191     (* F0 *)
      else if x <? 244 then four 128 191     (* F1..F3 *)
      else if x =? 244 then four 128 143     (* F4 *)
      else 1%nat
  end.

(** The fragment of Go's regular expressions the program uses.  A
    character class is a set of ASCII characters, possibly negated; it is
    matched against one rune. *)
Inductive regex : Type :=
| Eps
| Class (negated : bool) (members : list ascii)
| Cat (r1 r2 : regex)
| Alt (r1 r2 : regex)
| Plus (r : regex)
| Opt (r : regex)
| Group (i : nat) (r : regex).

(** Submatches: group index to captured text; a group that took no part
    in the match reads as the empty string. *)
Definition captures : Type := list (nat * bytes).

Definition submatch (cs : captures) (i : nat) : bytes :=
  match find (fun p => Nat.eqb (fst p) i) cs with
  | Some p => snd p
  | None => []
  end.

Definition class_matches (negated : bool) (members : list ascii) (rn : bytes) : bool :=
  match rn with
  | [c] => xorb negated (existsb (Ascii.eqb c) members)
  | _ => negated
  end.

(** Backtracking matcher with the preferences of Go's leftmost-first
    semantics: alternatives left to right, [+] and [?] greedy.  [k] is the
    continuation that matches the rest of the expression.  An iteration
    of [+] goes round again only after it has consumed input, so the
    bound [S (length s)] on the number of rounds is never reached. *)
Fixpoint rmatch (r : regex) (s : bytes) (cs : captures)
    (k : bytes -> captures -> option captures) {struct r} : option captures :=
  match r with
  | Eps => k s cs
  | Class negated members =>
      match rune_width s with
      | O => None
      | w => if class_matches negated members (take w s)
             then k (drop w s) cs else None
      end
  | Cat r1 r2 => rmatch r1 s cs (fun s' cs' => rmatch r2 s' cs' k)
  | Alt r1 r2 =>
      match rmatch r1 s cs k with
      | Some res => Some res
      | None => rmatch r2 s cs k
      end
  | Opt r1 =>
      match rmatch r1 s cs k with
      | Some res => Some res
      | None => k s cs
      end
  | Plus r1 =>
      (fix loop (fuel : nat) (s : bytes) (cs : captures) {struct fuel} :=
         match fuel with
         | O => None
         | S fuel' =>
             rmatch r1 s cs (fun s' cs' =>
               if (length s' <? length s)%nat then
                 match loop fuel' s' cs' with
                 | Some res => Some res
                 | None => k s' cs'
                 end
               else k s' cs')
         end) (S (length s)) s cs
  | Group i r1 =>
      rmatch r1 s cs (fun s' cs' =>
        k s' ((i, take (length s - length s') s) :: cs'))
  end.

(** [re.FindStringSubmatch(line)] for an expression anchored by [^] and
    [$] (without the multi-line flag, [$] is the end of the text). *)
Definition FindStringSubmatch (r : regex) (line : string) : option captures :=
  rmatch r (list_ascii_of_string line) []
    (fun s' cs' => match s' with [] => Some cs' | _ => None end).

Definition MatchString (r : regex) (line : string) : bool :=
  bool_decide (is_Some (FindStringSubmatch r line)).

Definition group (cs : captures) (i : nat) : string :=
  string_of_list_ascii (submatch cs i).

Definition lit (s : string) : regex :=
  fold_right (fun c r => Cat (Class false [c]) r) Eps (list_ascii_of_string s).

(** [\s]: tab, newline, form feed, carriage return, space. *)
Definition space : regex :=
  Class false [ascii_of_nat 9; ascii_of_nat 10; ascii_of_nat 12; ascii_of_nat 13; " "%char].

(** [.]: any rune but newline. *)
Definition dot : regex := Class true [ascii_of_nat 10].

(** [^(bpm|sr|steps|step)\s+(.+)$] *)
Definition setGlobalPattern : regex :=
  Cat (Group 1 (Alt (lit "bpm") (Alt (lit "sr") (Alt (lit "steps") (lit "step")))))
      (Cat (Plus space) (Group 2 (Plus dot))).

(** [^([:+])([^:]+)?(?::(.+))?$] *)
Definition setProcessorPattern : regex :=
  Cat (Group 1 (Class false [":"%char; "+"%char]))
      (Cat (Opt (Group 2 (Plus (Class true [":"%char]))))
           (Opt (Cat (lit ":") (Group 3 (Plus dot))))).

(** [^(.)(.+)$] *)
Definition setDataPattern : regex :=
  Cat (Group 1 dot) (Group 2 (Plus dot)).

(** [^\s+$] *)
Definition emptyLinePattern : regex := Plus space.

(** ** The Go library's number parsers *)

(** [strconv.ParseFloat(s, 64)] and [strconv.ParseInt(s, 10, 64)]; [None]
    is a non-nil error.  The result of [ParseInt] is an [int64]. *)
Record Strconv : Type := mkStrconv {
  ParseFloat : string -> option float64;
  ParseInt : string -> option Z;
  ParseInt_range : forall s z, ParseInt s = Some z -> Int.in_range z
}.

Module Decimal.

Definition digit (c : ascii) : option Z :=
  if between 48 57 c then Some (byte_val c - 48) else None.

(** The value of a non-empty string of decimal digits. *)
Fixpoint digits_from (acc : Z) (s : bytes) : option Z :=
  match s with
  | [] => Some acc
  | c :: s' => d ← digit c; digits_from (10 * acc + d) s'
  end.

Definition digits (s : bytes) : option Z :=
  match s with
  | [] => None
  | _ => digits_from 0 s
  end.

(** The longest prefix of decimal digits, and what follows it. *)
Fixpoint span_digits (s : bytes) : bytes * bytes :=
  match s with
  | c :: s' =>
      if between 48 57 c
      then let '(ds, rest) := span_digits s' in (c :: ds, rest)
      else ([], s)
  | [] => ([], [])
  end.

(** An optional sign, returned as "is negative", and what follows it. *)
Definition split_sign (s : bytes) : bool * bytes :=
  match s with
  | "-"%char :: s' => (true, s')
  | "+"%char :: s' => (false, s')
  | _ => (false, s)
  end.

(** [strconv.ParseInt(s, 10, 64)]: an optional sign and decimal digits;
    a value outside [int64] is a range error. *)
Definition ParseInt (s : string) : option Z :=
  let '(neg, body) := split_sign (list_ascii_of_string s) in
  n ← digits body;
  let z := if neg then - n else n in
  if Int.in_rangeb z then Some z else None.

(** The float64 nearest to [m / 10^k], for [m > 0]; ties to even. *)
Definition round_ratio (neg : bool) (m : Z) (k : nat) : float64 :=
  let '(q, e, l) := SFdiv_core_binary F64.prec F64.emax m 0 (10 ^ Z.of_nat k) 0 in
  binary_round_aux F64.prec F64.emax neg q e l.

(** [strconv.ParseFloat(s, 64)] on decimal literals without exponent: an
    optional sign, digits, and an optional fraction ([12], [12.5], [.5],
    [12.]).  A value that rounds to an infinity is a range error.  The
    other forms the Go function accepts (exponents, hexadecimal, [inf],
    [nan]) are outside this instance, which answers [None] for them. *)
Definition ParseFloat (s : string) : option float64 :=
  let '(neg, body) := split_sign (list_ascii_of_string s) in
  let '(ip, rest) := span_digits body in
  fp ← match rest with
       | [] => Some []
       | "."%char :: fp => Some fp
       | _ => None
       end;
  m ← digits (ip ++ fp);
  if m =? 0 then Some (S754_zero neg)
  else match round_ratio neg m (length fp) with
       | S754_infinity _ => None
       | f => Some f
       end.

End Decimal.

(** ** Results of [processFile]'s phases *)

Inductive result (A : Type) : Type :=
| Done (a : A)
| Failed (e : error)
| Panicked (p : panic).

Arguments Done {A} a.
Arguments Failed {A} e.
Arguments Panicked {A} p.

#[global] Instance result_ret : MRet result := fun A a => Done a.

#[global] Instance result_bind : MBind result := fun A B f m =>
  match m with
  | Done a => f a
  | Failed e => Failed e
  | Panicked p => Panicked p
  end.

(** ** Song builder: the line loop of [processFile] *)

(** The local variables [song], [pattern] and [track], the tracks
    allocated so far, and the package-level defaults. *)
Record State : Type := mkState {
  song : Song;
  pattern : Pattern;
  track : option ptr;
  heap : list Track;
  defaults : Defaults
}.

Definition state_init (d : Defaults) : State :=
  {| song := []; pattern := []; track := None; heap := []; defaults := d |}.

Definition set_defaults (d : Defaults) (s : State) : State :=
  {| song := song s; pattern := pattern s; track := track s; heap := heap s;
     defaults := d |}.

(** [song = nil; pattern = nil; track = nil]. *)
Definition reset (s : State) : State :=
  {| song := []; pattern := []; track := None; heap := heap s;
     defaults := defaults s |}.

(** [if pattern != nil { song = append(song, pattern); pattern = nil;
    track = nil }]. *)
Definition closePattern (s : State) : State :=
  match pattern s with
  | [] => s
  | _ :: _ =>
      {| song := song s ++ [pattern s]; pattern := []; track := None;
         heap := heap s; defaults := defaults s |}
  end.

(** Whether the line loop goes on to the next line or leaves ([break]). *)
Inductive flow : Type := Next | Break.

Section Builder.

Variable sc : Strconv.

(** [var processorFactories map[string]ProcessorFactory]. *)
Variable processorFactories : gmap string ProcessorFactory.

(** [func parseFloat(s string) (float64, error)]. *)
Definition parseFloat (s : string) : option float64 :=
  match index 0 "/" s with
  | None => ParseFloat sc s
  | Some slashIndex =>
      nom ← ParseFloat sc (substring 0 slashIndex s);
      denom ← ParseFloat sc
        (substring (S slashIndex) (String.length s - S slashIndex) s);
      Some (F64.div nom denom)
  end.

(** The branch of a line matched by [setGlobalPattern]. *)
Definition setGlobal (option value : string) (d : Defaults) : result Defaults :=
  if String.eqb option "bpm" then
    match parseFloat value with
    | None => Failed (ErrParseBpm value)
    | Some v => Done {| bpm := v; sr := sr d; steps := steps d; step := step d |}
    end
  else if String.eqb option "sr" then
    match ParseInt sc value with
    | None => Failed (ErrParseSr value)
    | Some v => Done {| bpm := bpm d; sr := v; steps := steps d; step := step d |}
    end
  else if String.eqb option "steps" then
    match ParseInt sc value with
    | None => Failed (ErrParseSteps value)
    | Some v => Done {| bpm := bpm d; sr := sr d; steps := v; step := step d |}
    end
  else if String.eqb option "step" then
    match parseFloat value with
    | None => Failed (ErrParseStep value)
    | Some v => Done {| bpm := bpm d; sr := sr d; steps := steps d; step := v |}
    end
  else Done d.

(** The branch of a line matched by [setProcessorPattern]. *)
Definition setProcessor (clear : bool) (name args : string) (s : State)
  : result State :=
  let d := defaults s in
  if String.eqb name "" then
    match track s with
    | None => Failed ErrReuseUndefined
    | Some p =>
        match heap s !! p with
        | None => Panicked NilDereference
        | Some t =>
            match Track.factory t args with
            | inl cause => Failed (ErrInstantiate name cause)
            | inr proc =>
                Done {| song := song s;
                        pattern := pattern s ++ [p];
                        track := Some p;
                        heap := <[p := Track.mk (Track.factory t) proc
                                         (Track.clear t) ∅
                                         (bpm d) (step d) (steps d)]> (heap s);
                        defaults := d |}
            end
        end
    end
  else
    match processorFactories !! name with
    | Some factory =>
        match factory args with
        | inl cause => Failed (ErrInstantiate name cause)
        | inr proc =>
            Done {| song := song s;
                    pattern := match track s with
                               | Some p => pattern s ++ [p]
                               | None => pattern s
                               end;
                    track := Some (length (heap s));
                    heap := heap s ++ [Track.mk factory proc clear ∅
                                          (bpm d) (step d) (steps d)];
                    defaults := d |}
        end
    | None => Failed (ErrUnknownProcessor name)
    end.

(** The branch of a line matched by [setDataPattern]. *)
Definition setData (code : ascii) (data : string) (s : State) : result State :=
  match track s with
  | None => Failed ErrDataWithoutTrack
  | Some p =>
      match heap s !! p with
      | None => Panicked NilDereference
      | Some t =>
          Done {| song := song s; pattern := pattern s; track := track s;
                  heap := <[p := Track.mk (Track.factory t) (Track.proc t)
                                   (Track.clear t) (<[code := data]> (Track.data t))
                                   (Track.bpm t) (Track.step t) (Track.steps t)]>
                            (heap s);
                  defaults := defaults s |}
      end
  end.

(** The body of the loop [for scanner.Scan()], for one line. *)
Definition processLine (line : string) (s : State) : result (flow * State) :=
  if String.eqb line ">>" then Done (Next, reset s)
  else if String.eqb line "<<" then Done (Break, s)
  else match FindStringSubmatch setGlobalPattern line with
  | Some matches =>
      d ← setGlobal (group matches 1) (group matches 2) (defaults s);
      Done (Next, set_defaults d s)
  | None =>
  match FindStringSubmatch setProcessorPattern line with
  | Some matches =>
      let clear := negb (String.eqb (group matches 1) "+") in
      s' ← setProcessor clear (group matches 2) (group matches 3) s;
      Done (Next, s')
  | None =>
  match FindStringSubmatch setDataPattern line with
  | Some matches =>
      (* [code := matches[1][0]]: indexing an empty string panics *)
      match submatch matches 1 with
      | [] => Panicked (IndexOutOfRange 0 0)
      | code :: _ =>
          s' ← setData code (group matches 2) s;
          Done (Next, s')
      end
  | None =>
      if MatchString emptyLinePattern line
      then Done (Next, closePattern s)
      else Done (Next, s)
  end end end.

(** The loop over the lines the scanner delivers. *)
Fixpoint scanLines (lines : list string) (s : State) : result State :=
  match lines with
  | [] => Done s
  | line :: rest =>
      match processLine line s with
      | Done (Next, s') => scanLines rest s'
      | Done (Break, s') => Done s'
      | Failed e => Failed e
      | Panicked p => Panicked p
      end
  end.

(** The song [processFile] has built when it starts to render: the line
    loop followed by the closing of a pattern left open. *)
Definition buildSong (lines : list string) (d : Defaults) : result State :=
  s ← scanLines lines (state_init d);
  Done (closePattern s).

End Builder.

(** [func basicSynthFactory(args string) (Processor, error)]: returns
    [nil, nil]. *)
Definition basicSynthFactory : ProcessorFactory := fun _ => inr None.

(** The table [processorFactories] of the source. *)
Definition processorFactories : gmap string ProcessorFactory :=
  {[ "basic"%string := basicSynthFactory ]}.

(** The decimal instance of the Go parsers. *)
Program Definition strconv : Strconv :=
  {| ParseFloat := Decimal.ParseFloat; ParseInt := Decimal.ParseInt |}.
Next Obligation.
  intros s z. unfold Decimal.ParseInt.
  destruct (Decimal.split_sign _) as [neg body].
  destruct (Decimal.digits body) as [n|]; simpl; [|discriminate].
  destruct (Int.in_rangeb _) eqn:E; [|discriminate].
  intros [= <-]. unfold Int.in_rangeb in E. unfold Int.in_range.
  apply andb_true_iff in E as [E1 E2].
  apply Z.leb_le in E1. apply Z.leb_le in E2. split; assumption.
Qed.

(** ** Mixing engine: the render loop of [processFile] *)

(** The slice [songSamples]: its elements, and its capacity. *)
Record slice : Type := mkSlice {
  elems : list float64;
  cap : nat
}.

(** [NewSampleBuffer()] as a slice: [make([]float64, 0)]. *)
Definition NewSlice : slice := {| elems := []; cap := 0 |}.

(** [slices.Grow(s, n)]: the capacity becomes at least [len(s) + n]; the
    length and the elements are unchanged. *)
Definition Grow (s : slice) (n : nat) : slice :=
  {| elems := elems s; cap := Nat.max (cap s) (length (elems s) + n) |}.

Definition in_bounds (i : Z) (buf : list float64) : bool :=
  (0 <=? i) && (i <? Z.of_nat (length buf)).

(** The stores of a processor, performed in order on the caller's
    buffer; a store outside [0, len(buf)) panics. *)
Fixpoint applyStores (buf : SampleBuffer) (ws : list store) : result SampleBuffer :=
  match ws with
  | [] => Done buf
  | (i, v) :: ws' =>
      if in_bounds i buf
      then applyStores (<[Z.to_nat i := v]> buf) ws'
      else Panicked (IndexOutOfRange i (length buf))
  end.

(** [func (t *Track) Process(buf SampleBuffer)]: [t.proc.Process(t, buf)];
    a method call on the nil interface value panics. *)
Definition TrackProcess (t : Track) (buf : SampleBuffer) : result SampleBuffer :=
  match Track.proc t with
  | None => Panicked NilDereference
  | Some p => applyStores buf (Process p (Track.view t) buf)
  end.

Section Render.

(** The track store and the package-level [sr] while rendering. *)
Variable h : list Track.
Variable sr_now : Z.

(** The loop [for _, track := range pattern], from the scratch buffer
    [samples] and the running maximum [patternFrames]. *)
Fixpoint renderTracks (tracks : Pattern) (samples : SampleBuffer) (patternFrames : Z)
  : result (SampleBuffer * Z) :=
  match tracks with
  | [] => Done (samples, patternFrames)
  | p :: rest =>
      match h !! p with
      | None => Panicked NilDereference
      | Some t =>
          let samples := if Track.clear t then Clear samples else samples in
          samples ← TrackProcess t samples;
          let trackFrames := Frames sr_now t in
          let patternFrames :=
            if patternFrames <? trackFrames then trackFrames else patternFrames in
          renderTracks rest samples patternFrames
      end
  end.

(** The loop [for i := 0; i < len(samples); i++ { songSamples[writePos+i]
    += samples[i] }], from index [i]; [samples] is what is left of the
    scratch buffer from [i] on. *)
Fixpoint addSamples (songSamples : list float64) (writePos i : Z)
    (samples : list float64) : result (list float64) :=
  match samples with
  | [] => Done songSamples
  | x :: samples' =>
      let j := Int.add writePos i in
      match (if in_bounds j songSamples then songSamples !! Z.to_nat j else None) with
      | Some y =>
          addSamples (<[Z.to_nat j := F64.add y x]> songSamples) writePos
            (Int.add i 1) samples'
      | None => Panicked (IndexOutOfRange j (length songSamples))
      end
  end.

(** Lines 231 to 235: the scratch buffer [samples] of a pattern that
    realized [patternFrames] frames is mixed into the song buffer. *)
Definition mixSamples (songSamples : slice) (writePos : Z)
    (samples : SampleBuffer) (patternFrames : Z) : result (slice * Z) :=
  let songSamples := Grow songSamples (length samples) in
  es ← addSamples (elems songSamples) writePos 0 samples;
  Done ({| elems := es; cap := cap songSamples |},
        Int.add writePos (Int.mul patternFrames nchannels)).

(** The body of the loop [for _, pattern := range song]. *)
Definition renderPattern (songSamples : slice) (writePos : Z) (pat : Pattern)
  : result (slice * Z) :=
  '(samples, patternFrames) ← renderTracks pat NewSampleBuffer 0;
  mixSamples songSamples writePos samples patternFrames.

Fixpoint renderPatterns (pats : Song) (songSamples : slice) (writePos : Z)
  : result (slice * Z) :=
  match pats with
  | [] => Done (songSamples, writePos)
  | pat :: rest =>
      '(songSamples, writePos) ← renderPattern songSamples writePos pat;
      renderPatterns rest songSamples writePos
  end.

(** The render loop, from [songSamples := NewSampleBuffer()] and
    [writePos := 0]. *)
Definition renderSong (s : Song) : result (slice * Z) :=
  renderPatterns s NewSlice 0.

End Render.

(** The scratch buffer and realized frame count of one pattern. *)
Definition renderScratch (h : list Track) (sr_now : Z) (pat : Pattern)
  : result (SampleBuffer * Z) :=
  renderTracks h sr_now pat NewSampleBuffer 0.

(** [func processFile(filename string) error], from the lines of the file
    to the samples handed to [writeWav]; the defaults it leaves behind are
    those of the built state. *)
Definition processFile (sc : Strconv) (reg : gmap string ProcessorFactory)
    (lines : list string) (d : Defaults) : result (list float64) :=
  s ← buildSong sc reg lines d;
  '(songSamples, _) ← renderSong (heap s) (sr (defaults s)) (song s);
  Done (elems songSamples).

(** ** Vocabulary of the statements *)

(** The branch of [processLine] a line takes, in the order the program
    tests them. *)
Inductive kind : Type :=
| SongReset | SongEnd | GlobalSetting | ProcessorDirective | DataLine
| Separator | Ignored.

Definition classify (line : string) : kind :=
  if String.eqb line ">>" then SongReset
  else if String.eqb line "<<" then SongEnd
  else if bool_decide (is_Some (FindStringSubmatch setGlobalPattern line))
  then GlobalSetting
  else if bool_decide (is_Some (FindStringSubmatch setProcessorPattern line))
  then ProcessorDirective
  else if bool_decide (is_Some (FindStringSubmatch setDataPattern line))
  then DataLine
  else if MatchString emptyLinePattern line then Separator
  else Ignored.

#[global] Instance kind_eq_dec : EqDecision kind.
Proof. solve_decision. Defined.

(** A global-setting directive for the step length. *)
Definition is_step_directive (line : string) : bool :=
  match FindStringSubmatch setGlobalPattern line with
  | Some matches => String.eqb (group matches 1) "step"
  | None => false
  end.

(** The number of processor directives among the lines. *)
Definition count_processor_directives (lines : list string) : nat :=
  length (filter (fun l => classify l = ProcessorDirective) lines).

(** The frame counts of the tracks of a pattern, in order. *)
Definition trackFrames (h : list Track) (sr_now : Z) (pat : Pattern) : list Z :=
  omap (fun p => Frames sr_now <$> h !! p) pat.

(** The value of [patternFrames] the track loop computes from the frame
    counts: it starts at 0 and is raised by each larger count. *)
Definition patternFrames (frames : list Z) : Z :=
  fold_left (fun acc f => if acc <? f then f else acc) frames 0.

(** The realized frame count as the design document defines it: the
    maximum of the tracks' frame counts, and zero for a pattern without
    tracks. *)
Definition maxFrames_spec (frames : list Z) : Z :=
  match frames with
  | [] => 0
  | f :: fs => fold_left Z.max fs f
  end.

(** The tracks a song points to, pattern by pattern. *)
Definition deref (h : list Track) (s : Song) : list (list (option Track)) :=
  map (map (fun p => h !! p)) s.

(** [s'] is [s] with [k] more tracks allocated before its own: the
    same song, pattern and cursor up to the displacement of addresses. *)
Record shifted (pre : list Track) (s s' : State) : Prop := mkShifted {
  sh_song : song s' = map (map (Nat.add (length pre))) (song s);
  sh_pattern : pattern s' = map (Nat.add (length pre)) (pattern s);
  sh_track : track s' = Nat.add (length pre) <$> track s;
  sh_heap : heap s' = pre ++ heap s;
  sh_defaults : defaults s' = defaults s
}.

(** ** Processors and tracks for the examples *)

(** A processor that stores nothing. *)
Definition silent : processor := {| Process := fun _ _ => [] |}.

(** A processor that adds the samples [xs] onto the buffer it is handed:
    [buf[i] += xs[i]] for each [i]. *)
Definition adding (xs : list float64) : processor :=
  {| Process := fun _ buf =>
       imap (fun i x => (Z.of_nat i, F64.add (nth i buf F64.zero) x)) xs |}.

Definition factoryOf (p : processor) : ProcessorFactory := fun _ => inr (Some p).

(** A track as the builder makes it for factory [f], with no data
    lines. *)
Definition trackOf (f : ProcessorFactory) (p : Processor) (clear : bool)
    (d : Defaults) : Track :=
  Track.mk f p clear ∅ (bpm d) (step d) (steps d).

Definition f64_ratio (a b : Z) : float64 := F64.div (F64.of_Z a) (F64.of_Z b).

(** A file whose single track overflows the frame count: one beat per
    second, [2^40] samples per second, [2^23] steps of one beat. *)
Definition overflow_lines : list string :=
  ["bpm 60"; "sr 1099511627776"; "steps 8388608"; "step 1"; ":basic"]%string.

Definition overflow_track : Track :=
  trackOf basicSynthFactory None true
    {| bpm := F64.of_Z 60; sr := 2 ^ 40; steps := 2 ^ 23; step := F64.of_Z 1 |}.

(** A file that binds a track at tempo zero, before any step directive. *)
Definition zero_tempo_lines : list string :=
  ["bpm 0"; "steps 1"; ":basic"]%string.

Definition zero_tempo_track : Track :=
  trackOf basicSynthFactory None true
    {| bpm := F64.zero; sr := 48000; steps := 1; step := step_init |}.

(** The step length of the defaults and of every track allocated so far
    is the initial one. *)
Definition initial_step (s : State) : Prop :=
  step (defaults s) = step_init
  /\ Forall (fun t => Track.step t = step_init) (heap s).

(** The scenario of the design document: tempo 120, a track, tempo 140,
    another track. *)
Definition two_tempo_lines : list string :=
  ["bpm 120"; ":basic"; "bpm 140"; ":basic"]%string.

(** A file with a single processor directive, a data line and a
    separator. *)
Definition single_track_lines : list string :=
  [":basic"; "a1"; " "]%string.

(** Two results agree: the same error, the same panic, or values related
    by [R]. *)
Definition result_rel {A B : Type} (R : A -> B -> Prop)
    (x : result A) (y : result B) : Prop :=
  match x, y with
  | Done a, Done b => R a b
  | Failed e, Failed e' => e = e'
  | Panicked p, Panicked p' => p = p'
  | _, _ => False
  end.

(** A file of the form pattern, [>>], other pattern. *)
Definition first_part : list string := [":basic"; "a1"; "bpm 90"; "+basic"; " "]%string.
Definition second_part : list string := [":basic"; "b2"; ":"; " "]%string.

(** A registry with a processor that stores nothing. *)
Definition silent_registry : gmap string ProcessorFactory :=
  {[ "silent"%string := factoryOf silent ]}.

(** A file whose pattern holds one track with a negative step count. *)
Definition negative_steps_lines : list string :=
  ["steps -1"; "step 1"; ":silent"; ":silent"; " "]%string.

(** Two tracks of 4 and of 6 frames at 2 samples per second: one beat per
    second, one beat per step, 2 and 3 steps. *)
Definition four_frames : Track :=
  trackOf (factoryOf silent) (Some silent) true
    {| bpm := F64.of_Z 60; sr := 2; steps := 2; step := F64.of_Z 1 |}.

Definition six_frames : Track :=
  trackOf (factoryOf silent) (Some silent) true
    {| bpm := F64.of_Z 60; sr := 2; steps := 3; step := F64.of_Z 1 |}.

(** A registry with the two processors of the clear-and-accumulate
    scenario: one contributes [0.1, 0.2], the other [0.05, 0.05]. *)
Definition adding_registry : gmap string ProcessorFactory :=
  {[ "first"%string := factoryOf (adding [f64_ratio 1 10; f64_ratio 2 10]);
     "second"%string := factoryOf (adding [f64_ratio 5 100; f64_ratio 5 100]) ]}.

(** The scenario: a clearing track, an accumulating track, and a third
    directive that closes the second track into the pattern. *)
Definition clear_accumulate_lines : list string :=
  [":first"; "+second"; ":first"; " "]%string.

(** A file that reuses the processor twice, with a data line and a tempo
    change in between. *)
Definition reuse_prefix : list string :=
  [":basic"; "a1"; ":"; "b2"; "bpm 140"]%string.

(** A file that has opened a pattern. *)
Definition open_pattern_lines : list string := [":basic"; ":basic"]%string.

(** Every address the state holds points into the track store. *)
Definition allocated (s : State) : Prop :=
  Forall (Forall (fun p => (p < length (heap s))%nat)) (song s)
  /\ Forall (fun p => (p < length (heap s))%nat) (pattern s)
  /\ (forall p, track s = Some p -> (p < length (heap s))%nat).

(** ** Further vocabulary *)

(** The name a processor directive carries: the second submatch of
    [setProcessorPattern], empty for a reuse. *)
Definition directive_name (line : string) : string :=
  match FindStringSubmatch setProcessorPattern line with
  | Some matches => group matches 2
  | None => ""
  end.

(** A processor directive without a name: the reuse of the current
    track's processor. *)
Definition is_reuse (line : string) : Prop :=
  classify line = ProcessorDirective /\ directive_name line = ""%string.

(** A file with a data line before any processor directive, and one with
    a reuse before any processor directive. *)
Definition orphan_data_lines : list string :=
  ["bpm 90"; " "; "a1"; ":basic"]%string.

Definition orphan_reuse_lines : list string :=
  ["bpm 90"; " "; "+:x"; ":basic"]%string.

(** A file whose third line cannot be parsed, and lines after it. *)
Definition bad_tempo_lines : list string := [":basic"; "a1"; "bpm fast"]%string.

(** Every track carries the factory of the source's table and the nil
    processor it returns. *)
Definition all_basic (h : list Track) : Prop :=
  Forall (fun t => Track.factory t = basicSynthFactory /\ Track.proc t = None) h.

(** The samples by which a pattern moves the write offset on:
    [patternFrames * nchannels], in int arithmetic. *)
Definition advance (h : list Track) (sr_now : Z) (pat : Pattern) : Z :=
  Int.mul (patternFrames (trackFrames h sr_now pat)) nchannels.

(** What the mixing loop leaves at index [j] of the song buffer: the sum
    with the scratch sample inside the window that starts at [start], the
    old sample outside. *)
Definition mixed_at (songSamples samples : list float64) (start : Z) (j : nat)
  : option float64 :=
  if bool_decide (start <= Z.of_nat j < start + Z.of_nat (length samples))
  then y ← songSamples !! j;
       x ← samples !! Z.to_nat (Z.of_nat j - start);
       Some (F64.add y x)
  else songSamples !! j.

(** ** What the matcher accepts *)

Section PlusLoop.

Variable step : bytes -> captures -> (bytes -> captures -> option captures)
                -> option captures.
Variable k : bytes -> captures -> option captures.

(** The iteration of [rmatch] for [Plus], under a name: [step] matches
    the body once. *)
Fixpoint plus_loop (fuel : nat) (s : bytes) (cs : captures) {struct fuel}
  : option captures :=
  match fuel with
  | O => None
  | S fuel' =>
      step s cs (fun s' cs' =>
        if (length s' <? length s)%nat then
          match plus_loop fuel' s' cs' with
          | Some res => Some res
          | None => k s' cs'
          end
        else k s' cs')
  end.

End PlusLoop.

(** [consumes r s cs s' cs']: the expression [r] can match a prefix of
    [s] and leave [s'], taking the submatches from [cs] to [cs']. *)
Inductive consumes : regex -> bytes -> captures -> bytes -> captures -> Prop :=
| consumes_eps s cs : consumes Eps s cs s cs
| consumes_class negated members s cs :
    rune_width s <> 0%nat ->
    class_matches negated members (take (rune_width s) s) = true ->
    consumes (Class negated members) s cs (drop (rune_width s) s) cs
| consumes_cat r1 r2 s cs s1 cs1 s2 cs2 :
    consumes r1 s cs s1 cs1 -> consumes r2 s1 cs1 s2 cs2 ->
    consumes (Cat r1 r2) s cs s2 cs2
| consumes_alt_l r1 r2 s cs s' cs' :
    consumes r1 s cs s' cs' -> consumes (Alt r1 r2) s cs s' cs'
| consumes_alt_r r1 r2 s cs s' cs' :
    consumes r2 s cs s' cs' -> consumes (Alt r1 r2) s cs s' cs'
| consumes_opt_some r s cs s' cs' :
    consumes r s cs s' cs' -> consumes (Opt r) s cs s' cs'
| consumes_opt_none r s cs : consumes (Opt r) s cs s cs
| consumes_plus_once r s cs s' cs' :
    consumes r s cs s' cs' -> consumes (Plus r) s cs s' cs'
| consumes_plus_more r s cs s1 cs1 s' cs' :
    consumes r s cs s1 cs1 -> (length s1 < length s)%nat ->
    consumes (Plus r) s1 cs1 s' cs' ->
    consumes (Plus r) s cs s' cs'
| consumes_group i r s cs s' cs' :
    consumes r s cs s' cs' ->
    consumes (Group i r) s cs s' ((i, take (length s - length s') s) :: cs').

(** The statement of completeness for an expression: for [Plus] it
    speaks of every sufficient bound on the rounds. *)
Definition finds (r : regex) (s : bytes) (cs : captures)
    (k : bytes -> captures -> option captures) : Prop :=
  match r with
  | Plus r1 =>
      forall fuel, (length s < fuel)%nat ->
        is_Some (plus_loop (rmatch r1) k fuel s cs)
  | _ => is_Some (rmatch r s cs k)
  end.

(** The continuation of [FindStringSubmatch]: the end of the text. *)
Definition at_end (s : bytes) (cs : captures) : option captures :=
  match s with [] => Some cs | _ => None end.

(** The bytes of [\s]. *)
Definition space_bytes : list ascii :=
  [ascii_of_nat 9; ascii_of_nat 10; ascii_of_nat 12; ascii_of_nat 13; " "%char].

Definition newline : ascii := ascii_of_nat 10.

(** The lines that close a pattern: a single tab, form feed, carriage
    return or space. *)
Definition separator_bytes : list ascii :=
  [ascii_of_nat 9; ascii_of_nat 12; ascii_of_nat 13; " "%char].

(** The track [t] after a data line has stored [value] under [code]. *)
Definition with_data (code : ascii) (value : string) (t : Track) : Track :=
  Track.mk (Track.factory t) (Track.proc t) (Track.clear t)
    (<[code := value]> (Track.data t))
    (Track.bpm t) (Track.step t) (Track.steps t).

(** The keywords of the global settings. *)
Definition global_keywords : list string := ["bpm"; "sr"; "steps"; "step"]%string.

(** The error a global setting reports when its value does not parse. *)
Definition parse_error (option value : string) : error :=
  if String.eqb option "bpm" then ErrParseBpm value
  else if String.eqb option "sr" then ErrParseSr value
  else if String.eqb option "steps" then ErrParseSteps value
  else ErrParseStep value.

(** The defaults [d'] differ from [d] at most in the one named
    [option]. *)
Definition changes_only (option : string) (d d' : Defaults) : Prop :=
  (option <> "bpm"%string -> bpm d' = bpm d)
  /\ (option <> "sr"%string -> sr d' = sr d)
  /\ (option <> "steps"%string -> steps d' = steps d)
  /\ (option <> "step"%string -> step d' = step d).

Definition colon : ascii := ":"%char.

(** The text of a processor directive after its name: nothing, or a
    colon and the arguments. *)
Definition args_suffix (args : bytes) : bytes :=
  match args with
  | [] => []
  | _ :: _ => colon :: args
  end.

(** The slots of the song and of the open pattern are pairwise distinct
    tracks, and the track under the cursor is in none of them. *)
Definition distinct_slots (s : State) : Prop :=
  NoDup (concat (song s) ++ pattern s)
  /\ (forall p, track s = Some p -> ~ In p (concat (song s) ++ pattern s)).

(** Three tracks for the clear-and-accumulate loop: an accumulating one,
    a clearing one, an accumulating one. *)
Definition mix_tracks : list Track :=
  [trackOf (factoryOf (adding [f64_ratio 1 10; f64_ratio 2 10]))
     (Some (adding [f64_ratio 1 10; f64_ratio 2 10])) false defaults_init;
   trackOf (factoryOf (adding [f64_ratio 5 100; f64_ratio 5 100]))
     (Some (adding [f64_ratio 5 100; f64_ratio 5 100])) true defaults_init;
   trackOf (factoryOf (adding [f64_ratio 1 10; f64_ratio 2 10]))
     (Some (adding [f64_ratio 1 10; f64_ratio 2 10])) false defaults_init].

(** The scenario of the design document with the second track bound by a
    reuse directive: tempo 120, a track, tempo 140, and then the line
    [:]. *)
Definition rebind_prefix : list string := ["bpm 120"; ":basic"; "bpm 140"]%string.

(** A file with one processor directive before each of its two pattern
    boundaries. *)
Definition one_per_boundary_lines : list string :=
  [":basic"; " "; ":basic"; " "]%string.

(** A track bound before any step directive, re-bound by a reuse
    directive after one. *)
Definition rebound_step_lines : list string :=
  [":basic"; "step 1"; ":"; ":basic"; " "]%string.

Section Rebinding.

Variable sc : Strconv.
Variable reg : gmap string ProcessorFactory.

(** While [lines] are processed from the state [s], some reuse directive
    is met with the track [p] under the cursor: that directive binds the
    track anew. *)
Fixpoint rebound (p : ptr) (lines : list string) (s : State) : Prop :=
  match lines with
  | [] => False
  | line :: rest =>
      (is_reuse line /\ track s = Some p)
      \/ match processLine sc reg line s with
         | Done (Next, s') => rebound p rest s'
         | _ => False
         end
  end.

End Rebinding.

(** ** Blocks of named processor directives *)

(** A named processor directive: the marker ([:] when [clear]), the name
    and the arguments. *)
Record binding : Type := mkBinding {
  b_clear : bool;
  b_name : bytes;
  b_args : bytes
}.

(** The text of the directive. *)
Definition directive_line (b : binding) : string :=
  string_of_list_ascii
    ((if b_clear b then colon else "+"%char) :: b_name b ++ args_suffix (b_args b)).

(** The directive is well formed, its name is registered, the factory
    accepts its arguments, and [t] is the track the directive allocates
    under the defaults [d]. *)
Definition binds (reg : gmap string ProcessorFactory) (d : Defaults)
    (b : binding) (t : Track) : Prop :=
  b_name b <> [] /\ ~ In colon (b_name b) /\ ~ In newline (b_args b)
  /\ exists f proc,
       reg !! string_of_list_ascii (b_name b) = Some f
       /\ f (string_of_list_ascii (b_args b)) = inr proc
       /\ t = Track.mk f proc (b_clear b) ∅ (bpm d) (step d) (steps d).

(** The state after a named directive has allocated the track [t]: the
    track that was under the cursor enters the pattern. *)
Definition bindTrack (s : State) (t : Track) : State :=
  {| song := song s;
     pattern := match track s with
                | Some p => pattern s ++ [p]
                | None => pattern s
                end;
     track := Some (length (heap s));
     heap := heap s ++ [t];
     defaults := defaults s |}.

(** A first part that builds a pattern of four frames and then sets the
    step count to 3, and the two directives of a second part. *)
Definition reset_first : list string :=
  ["bpm 60"; "sr 2"; "step 1"; "steps 2"; ":silent"; ":silent"; " "; "steps 3"]%string.

Definition reset_second : list binding :=
  [ {| b_clear := true; b_name := list_ascii_of_string "silent"; b_args := [] |};
    {| b_clear := false; b_name := list_ascii_of_string "silent"; b_args := [] |} ].

Definition reset_defaults : Defaults :=
  {| bpm := F64.of_Z 60; sr := 2; steps := 3; step := F64.of_Z 1 |}.
(** * The matcher and the languages of the four expressions *)

Lemma rmatch_plus r s cs k :
  rmatch (Plus r) s cs k = plus_loop (rmatch r) k (S (length s)) s cs.
Proof. reflexivity. Qed.

(** Soundness: a match found by [rmatch] is a match. *)
Lemma rmatch_sound r :
  forall s cs k res,
    rmatch r s cs k = Some res ->
    exists s' cs', consumes r s cs s' cs' /\ k s' cs' = Some res.
Proof.
  induction r as [|negated members|r1 IH1 r2 IH2|r1 IH1 r2 IH2|r1 IH1|r1 IH1|i r1 IH1];
    intros s cs k res H.
  - exists s, cs. split; [constructor | exact H].
  - simpl in H. destruct (rune_width s) as [|w] eqn:Ew; [discriminate|].
    destruct (class_matches _ _ _) eqn:Ec; [|discriminate].
    exists (drop (S w) s), cs. split; [|exact H].
    rewrite <- Ew. constructor; rewrite Ew; [discriminate | exact Ec].
  - simpl in H. apply IH1 in H as (s1 & cs1 & H1 & H).
    apply IH2 in H as (s2 & cs2 & H2 & H).
    exists s2, cs2. split; [econstructor; eauto | exact H].
  - simpl in H. destruct (rmatch r1 s cs k) as [res1|] eqn:E1.
    + injection H as <-. apply IH1 in E1 as (s' & cs' & H1 & Hk).
      exists s', cs'. split; [by apply consumes_alt_l | exact Hk].
    + apply IH2 in H as (s' & cs' & H2 & Hk).
      exists s', cs'. split; [by apply consumes_alt_r | exact Hk].
  - rewrite rmatch_plus in H. remember (S (length s)) as fuel eqn:Ef. clear Ef.
    revert s cs H. induction fuel as [|fuel IHf]; intros s cs H; [discriminate|].
    simpl in H. apply IH1 in H as (s1 & cs1 & H1 & H).
    destruct (length s1 <? length s)%nat eqn:El.
    + destruct (plus_loop (rmatch r1) k fuel s1 cs1) as [res1|] eqn:Eloop.
      * injection H as <-. apply IHf in Eloop as (s' & cs' & H2 & Hk).
        exists s', cs'. split; [|exact Hk].
        eapply consumes_plus_more; eauto. by apply Nat.ltb_lt.
      * exists s1, cs1. split; [by apply consumes_plus_once | exact H].
    + exists s1, cs1. split; [by apply consumes_plus_once | exact H].
  - simpl in H. destruct (rmatch r1 s cs k) as [res1|] eqn:E1.
    + injection H as <-. apply IH1 in E1 as (s' & cs' & H1 & Hk).
      exists s', cs'. split; [by apply consumes_opt_some | exact Hk].
    + exists s, cs. split; [apply consumes_opt_none | exact H].
  - simpl in H. apply IH1 in H as (s' & cs' & H1 & Hk).
    eexists s', _. split; [apply consumes_group; exact H1 | exact Hk].
Qed.

Lemma finds_is_Some r s cs k : finds r s cs k -> is_Some (rmatch r s cs k).
Proof.
  destruct r; try exact (fun H => H).
  intros H. rewrite rmatch_plus. apply H. lia.
Qed.

(** Completeness: where a match exists, [rmatch] finds one. *)
Lemma rmatch_complete r s cs s' cs' :
  consumes r s cs s' cs' ->
  forall k, is_Some (k s' cs') -> finds r s cs k.
Proof.
  induction 1 as [s cs|negated members s cs Hw Hc
                 |r1 r2 s cs s1 cs1 s2 cs2 _ IH1 _ IH2
                 |r1 r2 s cs s' cs' _ IH|r1 r2 s cs s' cs' _ IH
                 |r s cs s' cs' _ IH|r s cs
                 |r s cs s' cs' _ IH
                 |r s cs s1 cs1 s' cs' _ IH1 Hlt _ IH2
                 |i r s cs s' cs' _ IH]; intros k Hk.
  - exact Hk.
  - simpl. destruct (rune_width s) as [|w] eqn:Ew; [contradiction|].
    by rewrite Hc.
  - simpl. apply finds_is_Some, IH1. apply finds_is_Some, IH2, Hk.
  - simpl. pose proof (finds_is_Some _ _ _ _ (IH k Hk)) as [res ->]. by eexists.
  - simpl. destruct (rmatch r1 s cs k); [by eexists|].
    apply finds_is_Some, IH, Hk.
  - simpl. pose proof (finds_is_Some _ _ _ _ (IH k Hk)) as [res ->]. by eexists.
  - simpl. destruct (rmatch r s cs k); [by eexists | exact Hk].
  - simpl. intros [|fuel] Hfuel; [lia|]. simpl.
    apply finds_is_Some, IH.
    destruct (length s' <? length s)%nat; [|exact Hk].
    destruct (plus_loop _ _ _ _ _); [by eexists | exact Hk].
  - simpl. intros [|fuel] Hfuel; [lia|]. simpl.
    apply finds_is_Some, IH1.
    apply Nat.ltb_lt in Hlt as Hlt'. rewrite Hlt'.
    destruct (IH2 k Hk fuel) as [res ->]; [lia|]. by eexists.
  - simpl. apply finds_is_Some, IH. exact Hk.
Qed.

(** [FindStringSubmatch] returns exactly the submatches of some match of
    the whole line, and finds one whenever there is one. *)
Lemma FindStringSubmatch_sound r line m :
  FindStringSubmatch r line = Some m ->
  consumes r (list_ascii_of_string line) [] [] m.
Proof.
  unfold FindStringSubmatch. intros H.
  apply rmatch_sound in H as (s' & cs' & Hc & Hk).
  destruct s'; [|discriminate]. by injection Hk as <-.
Qed.

Lemma FindStringSubmatch_complete r line m :
  consumes r (list_ascii_of_string line) [] [] m ->
  is_Some (FindStringSubmatch r line).
Proof.
  intros H. unfold FindStringSubmatch.
  apply finds_is_Some. eapply rmatch_complete; [exact H|]. by eexists.
Qed.

Lemma rune_width_pos s : s <> [] -> (1 <= rune_width s)%nat.
Proof.
  destruct s as [|b0 rest]; [done|]. intros _. unfold rune_width.
  repeat case_match; lia.
Qed.

Lemma take_consumed (s : bytes) w : take (length s - length (drop w s)) s = take w s.
Proof.
  rewrite length_drop. destruct (decide (w <= length s)%nat) as [Hle|Hgt].
  - f_equal. lia.
  - rewrite !take_ge by lia. reflexivity.
Qed.

(** A class takes the first rune and keeps the submatches. *)
Lemma consumes_class_inv negated members s cs s' cs' :
  consumes (Class negated members) s cs s' cs' ->
  s <> [] /\ s' = drop (rune_width s) s /\ cs' = cs
  /\ class_matches negated members (take (rune_width s) s) = true.
Proof.
  inversion 1; subst. repeat split; try done. by intros ->.
Qed.

(** A class that is not negated takes one of its member bytes. *)
Lemma consumes_members_inv members s cs s' cs' :
  consumes (Class false members) s cs s' cs' ->
  exists c, s = c :: s' /\ In c members /\ cs' = cs.
Proof.
  intros H. apply consumes_class_inv in H as (Hne & -> & -> & Hc).
  pose proof (rune_width_pos s Hne) as Hw.
  destruct s as [|c rest]; [done|].
  destruct (rune_width (c :: rest)) as [|w]; [lia|]. simpl in *.
  destruct (take w rest) as [|c2 r2] eqn:Et; [|discriminate].
  exists c. split; [|split; [|reflexivity]].
  - f_equal. destruct w; [reflexivity|].
    destruct rest; [reflexivity | discriminate].
  - apply existsb_exists in Hc as (x & Hin & Hx).
    apply Ascii.eqb_eq in Hx as ->. exact Hin.
Qed.

(** [\s+] takes a non-empty run of whitespace bytes. *)
Lemma consumes_spaces_inv s cs s' cs' :
  consumes (Plus space) s cs s' cs' ->
  exists run, s = run ++ s' /\ run <> []
    /\ Forall (fun c => In c space_bytes) run /\ cs' = cs.
Proof.
  remember (Plus space) as r eqn:Er. intros H.
  induction H as [| | | | | | |r s cs s' cs' H _
                 |r s cs s1 cs1 s' cs' H _ Hlt _ IH|]; try discriminate.
  - injection Er as ->. apply consumes_members_inv in H as (c & -> & Hin & ->).
    exists [c]. repeat split; [done | by apply Forall_singleton].
  - injection Er as ->. apply consumes_members_inv in H as (c & -> & Hin & ->).
    destruct (IH eq_refl) as (run & -> & _ & Hrun & ->).
    exists (c :: run). repeat split; [done | by constructor].
Qed.

Lemma in_take {A} (l : list A) n x : In x (take n l) -> In x l.
Proof. rewrite <- !list_elem_of_In. apply subseteq_take. Qed.

Lemma in_drop {A} (l : list A) n x : In x (drop n l) -> In x l.
Proof. rewrite <- !list_elem_of_In. apply subseteq_drop. Qed.

(** [.+] takes every non-empty text that holds no newline, whole. *)
Lemma consumes_dots_all n :
  forall s cs,
    (length s <= n)%nat -> s <> [] -> ~ In newline s ->
    consumes (Plus dot) s cs [] cs.
Proof.
  induction n as [|n IH]; intros s cs Hlen Hne Hnl.
  { destruct s; [done | simpl in Hlen; lia]. }
  pose proof (rune_width_pos s Hne) as Hw.
  assert (Hdot : consumes dot s cs (drop (rune_width s) s) cs).
  { constructor; [lia|]. unfold class_matches.
    destruct (take (rune_width s) s) as [|c [|c2 r]] eqn:Et; try reflexivity.
    cbn [existsb xorb]. rewrite orb_false_r.
    destruct (Ascii.eqb c (ascii_of_nat 10)) eqn:E; [|reflexivity].
    apply Ascii.eqb_eq in E. exfalso. apply Hnl.
    apply (in_take s (rune_width s)). rewrite Et. by left. }
  destruct (drop (rune_width s) s) as [|c rest] eqn:Ed.
  - by apply consumes_plus_once.
  - eapply consumes_plus_more; [exact Hdot | | ].
    + rewrite <- Ed, length_drop.
      assert (length s <> 0%nat) by (by destruct s). lia.
    + apply IH; [ | done | ].
      * rewrite <- Ed, length_drop. lia.
      * intros Hin. apply Hnl. apply (in_drop s (rune_width s)).
        by rewrite Ed.
Qed.

Lemma consumes_dot_first s cs :
  s <> [] -> ~ In newline s -> consumes dot s cs (drop (rune_width s) s) cs.
Proof.
  intros Hne Hnl. pose proof (rune_width_pos s Hne) as Hw.
  constructor; [lia|]. unfold class_matches.
  destruct (take (rune_width s) s) as [|c [|c2 r]] eqn:Et; try reflexivity.
  cbn [existsb xorb]. rewrite orb_false_r.
  destruct (Ascii.eqb c (ascii_of_nat 10)) eqn:E; [|reflexivity].
  apply Ascii.eqb_eq in E. exfalso. apply Hnl.
  apply (in_take s (rune_width s)). rewrite Et. by left.
Qed.

(** [.+] keeps the submatches and takes at least one rune. *)
Lemma consumes_dots_inv s cs s' cs' :
  consumes (Plus dot) s cs s' cs' -> s <> [] /\ cs' = cs.
Proof.
  remember (Plus dot) as r eqn:Er. intros H.
  induction H as [| | | | | | |r s cs s' cs' H _
                 |r s cs s1 cs1 s' cs' H _ Hlt _ IH|]; try discriminate.
  - injection Er as ->. by apply consumes_class_inv in H as (Hne & _ & -> & _).
  - injection Er as ->. apply consumes_class_inv in H as (Hne & _ & -> & _).
    destruct (IH eq_refl) as [_ ->]. by split.
Qed.

(** The data-line expression matches a line exactly by its first rune
    and the rest, which is not empty. *)
Lemma data_pattern_sound line m :
  FindStringSubmatch setDataPattern line = Some m ->
  drop (rune_width (list_ascii_of_string line)) (list_ascii_of_string line) <> []
  /\ m = [(2%nat, drop (rune_width (list_ascii_of_string line))
                    (list_ascii_of_string line));
          (1%nat, take (rune_width (list_ascii_of_string line))
                    (list_ascii_of_string line))].
Proof.
  intros H. apply FindStringSubmatch_sound in H.
  set (l := list_ascii_of_string line) in *. unfold setDataPattern in H.
  inversion H as [| |r1 r2 s0 cs0 s1 cs1 s2 cs2 H1 H2| | | | | | |]; subst.
  inversion H1 as [| | | | | | | | |i r s0 cs0 s1' cs1' Hd]; subst.
  apply consumes_class_inv in Hd as (_ & -> & -> & _).
  inversion H2 as [| | | | | | | | |i r s0 cs0 s1' cs1' Hp]; subst.
  apply consumes_dots_inv in Hp as [Hne ->].
  split; [exact Hne|]. rewrite take_consumed. simpl length.
  rewrite Nat.sub_0_r, firstn_all. reflexivity.
Qed.

(** The index [matches[1][0]] of a data line is in range: the first
    submatch holds the first rune of the line. *)
Lemma data_code_in_range line m :
  FindStringSubmatch setDataPattern line = Some m ->
  exists code rest, submatch m 1 = code :: rest.
Proof.
  intros H. apply data_pattern_sound in H as [Hne ->].
  change (submatch _ 1)
    with (take (rune_width (list_ascii_of_string line)) (list_ascii_of_string line)).
  destruct (list_ascii_of_string line) as [|c l] eqn:E.
  { exfalso. apply Hne. by destruct (rune_width []). }
  pose proof (rune_width_pos (c :: l) ltac:(discriminate)) as Hw.
  destruct (rune_width (c :: l)) as [|w]; [lia|]. by eexists _, _.
Qed.


(** * Properties *)

(** ** Machine arithmetic *)

Lemma wrap64_id z : Int.in_range z -> Int.wrap64 z = z.
Proof.
  unfold Int.in_range, Int.wrap64, Int.min_int, Int.max_int. intros H.
  rewrite Z.mod_small; lia.
Qed.

Lemma in_rangeb_spec z : Int.in_rangeb z = true <-> Int.in_range z.
Proof.
  unfold Int.in_rangeb, Int.in_range. rewrite andb_true_iff, !Z.leb_le. tauto.
Qed.

Lemma sign_round_aux_pos m e l :
  F64.sign (binary_round_aux F64.prec F64.emax false m e l) = false.
Proof.
  unfold binary_round_aux.
  destruct (shr_fexp _ _ _ _ _) as [mrs' e'].
  destruct (shr_fexp _ _ _ _ _) as [mrs'' e''].
  destruct (shr_m mrs''); [reflexivity | | reflexivity].
  destruct (_ <=? _); reflexivity.
Qed.

Lemma sign_of_Z_nonneg z : 0 <= z -> F64.sign (F64.of_Z z) = false.
Proof.
  intros Hz. destruct z as [|p|p]; [reflexivity | | lia].
  unfold F64.of_Z, binary_normalize, binary_round.
  destruct (shl_align _ _ _). apply sign_round_aux_pos.
Qed.

Lemma sign_mul_pos a b :
  F64.sign a = false -> F64.sign b = false -> F64.sign (F64.mul a b) = false.
Proof.
  destruct a as [sa|sa| |sa ma ea], b as [sb|sb| |sb mb eb]; simpl;
    intros Ha Hb; subst; try reflexivity.
  apply sign_round_aux_pos.
Qed.

Lemma sign_div_pos a b :
  F64.sign a = false -> F64.sign b = false -> F64.sign (F64.div a b) = false.
Proof.
  destruct a as [sa|sa| |sa ma ea], b as [sb|sb| |sb mb eb]; simpl;
    intros Ha Hb; subst; try reflexivity.
  unfold F64.div, SFdiv. destruct (SFdiv_core_binary _ _ _ _ _ _) as [[mz ez] lz].
  apply sign_round_aux_pos.
Qed.

Lemma ltb_zero_sign f : F64.ltb F64.zero f = true -> F64.sign f = false.
Proof.
  destruct f as [s|s| |s m e]; simpl; try reflexivity; try discriminate;
    destruct s; try reflexivity; discriminate.
Qed.

Lemma trunc_nonneg f z : F64.sign f = false -> F64.trunc f = Some z -> 0 <= z.
Proof.
  destruct f as [s|s| |s m e]; simpl; intros Hs Hz; try discriminate.
  - injection Hz as <-. lia.
  - subst s. injection Hz as <-. simpl. apply Z.shiftl_nonneg. lia.
Qed.

Lemma floor_trunc_nonneg f : F64.sign f = false -> F64.floor f = F64.trunc f.
Proof.
  destruct f as [s|s| |s m e]; simpl; intros Hs; try reflexivity.
  subst s. reflexivity.
Qed.

Lemma to_int_in_range f z :
  F64.trunc f = Some z -> Int.in_range z -> F64.to_int f = z.
Proof.
  intros Hf Hz. unfold F64.to_int. rewrite Hf.
  apply in_rangeb_spec in Hz. rewrite Hz. reflexivity.
Qed.

Lemma mul_finite_zero f :
  F64.is_finite f = true -> F64.trunc (F64.mul f F64.zero) = Some 0.
Proof. destruct f as [s|s| |s m e]; simpl; intros H; try discriminate; reflexivity. Qed.

(** ** Timing model *)

(** The float64 value whose integer part is the samples-per-step count is
    not negative when the tempo, the step length and the sample rate are
    positive. *)
Lemma samples_per_step_sign sr_now t :
  F64.ltb F64.zero (Track.bpm t) = true ->
  F64.ltb F64.zero (Track.step t) = true ->
  0 < sr_now ->
  F64.sign (F64.mul (SamplesPerBeat sr_now t) (Track.step t)) = false.
Proof.
  intros Hb Hs Hsr. apply sign_mul_pos; [|by apply ltb_zero_sign].
  apply sign_div_pos; [apply sign_of_Z_nonneg; lia|].
  apply sign_div_pos; [by apply ltb_zero_sign | reflexivity].
Qed.

(** C5 (as amended): for a track with bpm > 0, step > 0, steps >= 0 and a
    sample rate sr > 0, whenever floor(sr / (bpm / 60) * step) * steps has
    a value that fits the 64-bit int, [Frames] returns exactly that value,
    with the single truncation at the samples-per-step boundary, and the
    value is not negative. *)
Theorem Frames_matches_spec (sr_now : Z) (t : Track) (n : Z) :
  F64.ltb F64.zero (Track.bpm t) = true ->
  F64.ltb F64.zero (Track.step t) = true ->
  0 <= Track.steps t ->
  0 < sr_now ->
  frameCount_spec (Track.bpm t) sr_now (Track.steps t) (Track.step t) = Some n ->
  n <= Int.max_int ->
  Frames sr_now t = n /\ 0 <= Frames sr_now t.
Proof.
  intros Hb Hs Hsteps Hsr Hspec Hn.
  pose proof (samples_per_step_sign sr_now t Hb Hs Hsr) as Hsign.
  unfold frameCount_spec in Hspec. fold (BeatsPerSecond t) in Hspec.
  fold (SamplesPerBeat sr_now t) in Hspec.
  rewrite floor_trunc_nonneg in Hspec by exact Hsign.
  destruct (F64.trunc _) as [z|] eqn:Htr; [|discriminate].
  simpl in Hspec. injection Hspec as <-.
  pose proof (trunc_nonneg _ _ Hsign Htr) as Hz.
  unfold Frames, Int.mul, SamplesPerStep.
  destruct (Z.eq_dec (Track.steps t) 0) as [E|E].
  - rewrite E, !Z.mul_0_r. split; [reflexivity|]. vm_compute. discriminate.
  - assert (Hzr : Int.in_range z).
    { unfold Int.in_range, Int.min_int, Int.max_int in *. nia. }
    rewrite (to_int_in_range _ _ Htr Hzr).
    rewrite wrap64_id; [split; [reflexivity | nia]|].
    unfold Int.in_range, Int.min_int, Int.max_int in *. nia.
Qed.

(** A witness of the theorem above: the defaults with a quarter-beat
    step give 6000 samples per step and 96000 frames. *)
Lemma Frames_matches_spec_witness :
  Frames 48000 (trackOf basicSynthFactory None true
                  {| bpm := F64.of_Z 120; sr := 48000; steps := 16;
                     step := f64_ratio 1 4 |}) = 96000
  /\ 0 <= Frames 48000 (trackOf basicSynthFactory None true
                  {| bpm := F64.of_Z 120; sr := 48000; steps := 16;
                     step := f64_ratio 1 4 |}).
Proof.
  apply (Frames_matches_spec 48000 _ 96000);
    [reflexivity | reflexivity | vm_compute; discriminate | lia
    | reflexivity | vm_compute; discriminate].
Defined.

(** C5, counterexample to the claim as stated: the track bound by
    [overflow_lines] has bpm = 60 > 0, step = 1 > 0, steps = 2^23 >= 0 and
    sr = 2^40 > 0; floor(sr / (bpm / 60) * step) * steps is 2^63, and
    [Frames] returns the wrapped product - 2^63, which is negative. *)
Lemma Frames_overflow_counterexample :
  (exists s,
      scanLines strconv processorFactories overflow_lines (state_init defaults_init)
      = Done s
      /\ heap s !! 0%nat = Some overflow_track
      /\ sr (defaults s) = 2 ^ 40)
  /\ F64.ltb F64.zero (Track.bpm overflow_track) = true
  /\ F64.ltb F64.zero (Track.step overflow_track) = true
  /\ 0 <= Track.steps overflow_track
  /\ 0 < 2 ^ 40
  /\ frameCount_spec (Track.bpm overflow_track) (2 ^ 40)
       (Track.steps overflow_track) (Track.step overflow_track) = Some (2 ^ 63)
  /\ Frames (2 ^ 40) overflow_track = - 2 ^ 63
  /\ ~ 0 <= Frames (2 ^ 40) overflow_track.
Proof.
  split; [eexists; split; [vm_compute; reflexivity | split; reflexivity]|].
  repeat split; try reflexivity; try (vm_compute; discriminate).
  vm_compute. intros H. apply H. reflexivity.
Qed.

(** The initial step length is the float64 zero. *)
Lemma step_init_zero : step_init = F64.zero.
Proof. reflexivity. Qed.

(** With a zero step length and a finite samples-per-beat value, a
    track has no samples per step and no frames. *)
Lemma zero_step_no_frames sr_now t :
  Track.step t = F64.zero ->
  F64.is_finite (SamplesPerBeat sr_now t) = true ->
  SamplesPerStep sr_now t = 0 /\ Frames sr_now t = 0.
Proof.
  intros Hstep Hfin.
  assert (H0 : SamplesPerStep sr_now t = 0).
  { unfold SamplesPerStep. rewrite Hstep.
    apply to_int_in_range; [by apply mul_finite_zero|].
    vm_compute. split; discriminate. }
  split; [exact H0|]. unfold Frames. rewrite H0. reflexivity.
Qed.

(** ** Song builder *)

Section BuilderFacts.

Variable sc : Strconv.
Variable reg : gmap string ProcessorFactory.

(** [processLine] branch by branch, by the kind of the line. *)
Lemma processLine_cases line s :
  match classify line with
  | SongReset => processLine sc reg line s = Done (Next, reset s)
  | SongEnd => processLine sc reg line s = Done (Break, s)
  | GlobalSetting =>
      exists m, FindStringSubmatch setGlobalPattern line = Some m
        /\ processLine sc reg line s =
           (d ← setGlobal sc (group m 1) (group m 2) (defaults s);
            Done (Next, set_defaults d s))
  | ProcessorDirective =>
      exists m, FindStringSubmatch setProcessorPattern line = Some m
        /\ processLine sc reg line s =
           (s' ← setProcessor reg (negb (String.eqb (group m 1) "+"))
                   (group m 2) (group m 3) s;
            Done (Next, s'))
  | DataLine =>
      exists m, FindStringSubmatch setDataPattern line = Some m
        /\ processLine sc reg line s =
           (s' ← setData (hd Ascii.zero (submatch m 1)) (group m 2) s;
            Done (Next, s'))
  | Separator => processLine sc reg line s = Done (Next, closePattern s)
  | Ignored => processLine sc reg line s = Done (Next, s)
  end.
Proof.
  unfold classify, processLine.
  destruct (String.eqb line ">>"); [reflexivity|].
  destruct (String.eqb line "<<"); [reflexivity|].
  destruct (FindStringSubmatch setGlobalPattern line) as [m|]; simpl.
  { exists m. split; reflexivity. }
  destruct (FindStringSubmatch setProcessorPattern line) as [m|]; simpl.
  { exists m. split; reflexivity. }
  destruct (FindStringSubmatch setDataPattern line) as [m|] eqn:Em; simpl.
  { exists m. split; [reflexivity|].
    destruct (data_code_in_range line m Em) as (code & rest & ->). reflexivity. }
  destruct (MatchString emptyLinePattern line); reflexivity.
Qed.

(** Invariants of the line loop: a property kept by each line of the
    file is kept by the whole loop. *)
Lemma scanLines_inv (I : State -> Prop) (ok : string -> Prop) :
  (forall line s fl s',
      ok line -> I s -> processLine sc reg line s = Done (fl, s') -> I s') ->
  forall lines s s',
    Forall ok lines -> I s -> scanLines sc reg lines s = Done s' -> I s'.
Proof.
  intros Hstep lines. induction lines as [|line rest IH]; intros s s' Hok HI Hrun.
  - simpl in Hrun. by injection Hrun as <-.
  - apply Forall_cons in Hok as [Hline Hrest]. simpl in Hrun.
    destruct (processLine sc reg line s) as [[[] s1]| |] eqn:E; try discriminate.
    + eapply IH; [exact Hrest | | exact Hrun]. eapply Hstep; eauto.
    + injection Hrun as <-. eapply Hstep; eauto.
Qed.

(** The global-setting branch changes at most one default, the one it
    names. *)
Lemma setGlobal_step option value d d' :
  setGlobal sc option value d = Done d' ->
  String.eqb option "step" = false ->
  step d' = step d.
Proof.
  unfold setGlobal. intros H Hne.
  destruct (String.eqb option "bpm").
  { destruct (parseFloat sc value); [|discriminate]. by injection H as <-. }
  destruct (String.eqb option "sr").
  { destruct (ParseInt sc value); [|discriminate]. by injection H as <-. }
  destruct (String.eqb option "steps").
  { destruct (ParseInt sc value); [|discriminate]. by injection H as <-. }
  rewrite Hne in H. by injection H as <-.
Qed.

(** What the processor-directive branch does to the state. *)
Lemma setProcessor_cases clear name args s s' :
  setProcessor reg clear name args s = Done s' ->
  (name = ""%string /\ exists p t proc,
      track s = Some p /\ heap s !! p = Some t
      /\ Track.factory t args = inr proc
      /\ s' = {| song := song s; pattern := pattern s ++ [p]; track := Some p;
                 heap := <[p := trackOf (Track.factory t) proc (Track.clear t)
                                   (defaults s)]> (heap s);
                 defaults := defaults s |})
  \/ (name <> ""%string /\ exists factory proc,
      reg !! name = Some factory /\ factory args = inr proc
      /\ s' = {| song := song s;
                 pattern := match track s with
                            | Some p => pattern s ++ [p]
                            | None => pattern s
                            end;
                 track := Some (length (heap s));
                 heap := heap s ++ [trackOf factory proc clear (defaults s)];
                 defaults := defaults s |}).
Proof.
  unfold setProcessor. intros H.
  destruct (String.eqb name "") eqn:En.
  - apply String.eqb_eq in En. left. split; [exact En|].
    destruct (track s) as [p|]; [|discriminate].
    destruct (heap s !! p) as [t|] eqn:Et; [|discriminate].
    destruct (Track.factory t args) as [cause|proc] eqn:Ef; [discriminate|].
    injection H as <-. exists p, t, proc. repeat split; assumption.
  - apply String.eqb_neq in En. right. split; [exact En|].
    destruct (reg !! name) as [factory|]; [|discriminate].
    destruct (factory args) as [cause|proc] eqn:Ef; [discriminate|].
    injection H as <-. exists factory, proc. repeat split; assumption.
Qed.

(** What the data-line branch does to the state. *)
Lemma setData_cases code value s s' :
  setData code value s = Done s' ->
  exists p t,
    track s = Some p /\ heap s !! p = Some t
    /\ s' = {| song := song s; pattern := pattern s; track := track s;
               heap := <[p := Track.mk (Track.factory t) (Track.proc t)
                                (Track.clear t) (<[code := value]> (Track.data t))
                                (Track.bpm t) (Track.step t) (Track.steps t)]>
                         (heap s);
               defaults := defaults s |}.
Proof.
  unfold setData. intros H.
  destruct (track s) as [p|]; [|discriminate].
  destruct (heap s !! p) as [t|] eqn:Et; [|discriminate].
  injection H as <-. exists p, t. repeat split; assumption.
Qed.


(** A global-setting line touches the defaults only: the store of
    tracks, the song, the pattern and the cursor are as before. *)
Lemma globalSetting_frame line s fl s' :
  classify line = GlobalSetting ->
  processLine sc reg line s = Done (fl, s') ->
  fl = Next /\ heap s' = heap s /\ song s' = song s
  /\ pattern s' = pattern s /\ track s' = track s.
Proof.
  intros Hk H. pose proof (processLine_cases line s) as Hc. rewrite Hk in Hc.
  destruct Hc as (m & _ & Hc). rewrite Hc in H.
  destruct (setGlobal sc (group m 1) (group m 2) (defaults s)) as [d| |];
    try discriminate.
  simpl in H. injection H as <- <-. repeat split.
Qed.

Lemma initial_step_kept line s fl s' :
  is_step_directive line = false ->
  initial_step s ->
  processLine sc reg line s = Done (fl, s') ->
  initial_step s'.
Proof.
  intros Hns [Hd Hh] H. pose proof (processLine_cases line s) as Hc.
  destruct (classify line).
  - rewrite Hc in H. injection H as <- <-. by split.
  - rewrite Hc in H. injection H as <- <-. by split.
  - destruct Hc as (m & Hm & Hc). rewrite Hc in H.
    unfold is_step_directive in Hns. rewrite Hm in Hns.
    destruct (setGlobal sc _ _ _) as [d| |] eqn:Eg; try discriminate.
    simpl in H. injection H as <- <-. split; [|exact Hh]. simpl.
    rewrite (setGlobal_step _ _ _ _ Eg Hns). exact Hd.
  - destruct Hc as (m & Hm & Hc). rewrite Hc in H.
    destruct (setProcessor _ _ _ _ _) as [s1| |] eqn:Ep; try discriminate.
    simpl in H. injection H as <- <-.
    apply setProcessor_cases in Ep
      as [(_ & p & t & proc & _ & _ & _ & ->)|(_ & f & proc & _ & _ & ->)];
      (split; [exact Hd|]); simpl.
    + apply Forall_insert; [exact Hh | exact Hd].
    + apply Forall_app. split; [exact Hh|]. apply Forall_singleton. exact Hd.
  - destruct Hc as (m & Hm & Hc). rewrite Hc in H.
    destruct (setData _ _ _) as [s1| |] eqn:Ed; try discriminate.
    simpl in H. injection H as <- <-.
    apply setData_cases in Ed as (p & t & _ & Ht & ->).
    split; [exact Hd|]. simpl. apply Forall_insert; [exact Hh|]. simpl.
    eapply (Forall_lookup_1 _ _ _ _ Hh Ht).
  - rewrite Hc in H. injection H as <- <-. unfold closePattern.
    destruct (pattern s); by split.
  - rewrite Hc in H. injection H as <- <-. by split.
Qed.

Lemma scanLines_heap_closePattern s : heap (closePattern s) = heap s.
Proof. unfold closePattern. by destruct (pattern s). Qed.

End BuilderFacts.

Section Snapshots.

Variable sc : Strconv.
Variable reg : gmap string ProcessorFactory.

(** A line leaves the tempo, step length and step count of every track
    as they are, unless it is a reuse directive and the track is the one
    under the cursor. *)
Lemma processLine_snapshot line s fl s' p t :
  processLine sc reg line s = Done (fl, s') ->
  heap s !! p = Some t ->
  ~ (is_reuse line /\ track s = Some p) ->
  exists t', heap s' !! p = Some t'
    /\ Track.bpm t' = Track.bpm t /\ Track.step t' = Track.step t
    /\ Track.steps t' = Track.steps t.
Proof.
  intros H Ht Hnot. pose proof (processLine_cases sc reg line s) as Hc.
  assert (Hsame : heap s' = heap s ->
            exists t', heap s' !! p = Some t'
              /\ Track.bpm t' = Track.bpm t /\ Track.step t' = Track.step t
              /\ Track.steps t' = Track.steps t).
  { intros ->. by exists t. }
  destruct (classify line) eqn:Hk.
  - rewrite Hc in H. injection H as <- <-. by apply Hsame.
  - rewrite Hc in H. injection H as <- <-. by apply Hsame.
  - destruct Hc as (m & _ & Hc). rewrite Hc in H.
    destruct (setGlobal sc _ _ _) as [d| |]; try discriminate.
    simpl in H. injection H as <- <-. by apply Hsame.
  - destruct Hc as (m & Hm & Hc). rewrite Hc in H.
    destruct (setProcessor _ _ _ _ _) as [s1| |] eqn:Ep; try discriminate.
    simpl in H. injection H as <- <-.
    apply setProcessor_cases in Ep
      as [(Hname & q & u & proc & Eq & Eu & _ & ->)|(_ & f & proc & _ & _ & ->)];
      simpl.
    + destruct (decide (q = p)) as [->|Hne].
      * exfalso. apply Hnot. split; [|exact Eq]. split; [exact Hk|].
        unfold directive_name. by rewrite Hm.
      * rewrite list_lookup_insert_ne by exact Hne. by exists t.
    + rewrite lookup_app_l by (by eapply lookup_lt_Some). by exists t.
  - destruct Hc as (m & _ & Hc). rewrite Hc in H.
    destruct (setData _ _ _) as [s1| |] eqn:Ed; try discriminate.
    simpl in H. injection H as <- <-.
    apply setData_cases in Ed as (q & u & Eq & Eu & ->). simpl.
    destruct (decide (q = p)) as [->|Hne].
    + rewrite Ht in Eu. injection Eu as <-.
      eexists. split; [apply list_lookup_insert_eq; by eapply lookup_lt_Some|].
      by repeat split.
    + rewrite list_lookup_insert_ne by exact Hne. by exists t.
  - rewrite Hc in H. injection H as <- <-. apply Hsame.
    apply scanLines_heap_closePattern.
  - rewrite Hc in H. injection H as <- <-. by apply Hsame.
Qed.

(** A track that is not bound anew keeps its snapshot to the end of the
    loop. *)
Lemma scanLines_snapshot lines :
  forall s s' p t,
    ~ rebound sc reg p lines s ->
    scanLines sc reg lines s = Done s' ->
    heap s !! p = Some t ->
    exists t', heap s' !! p = Some t'
      /\ Track.bpm t' = Track.bpm t /\ Track.step t' = Track.step t
      /\ Track.steps t' = Track.steps t.
Proof.
  induction lines as [|line rest IH]; intros s s' p t Hnot Hscan Ht.
  - simpl in Hscan. injection Hscan as <-. by exists t.
  - simpl in Hscan, Hnot.
    destruct (processLine sc reg line s) as [[fl s1]| |] eqn:E; try discriminate.
    destruct (processLine_snapshot line s fl s1 p t E Ht) as (t1 & Ht1 & Hb & Hs & Hn).
    { intros Hre. apply Hnot. by left. }
    destruct fl.
    + destruct (IH s1 s' p t1) as (t' & Ht' & Hb' & Hs' & Hn'); [|exact Hscan|exact Ht1|].
      { intros Hre. apply Hnot. by right. }
      exists t'. split; [exact Ht'|]. repeat split; congruence.
    + injection Hscan as <-. by exists t1.
Qed.

(** The loop over a file either ends within a first part of it, or goes
    on from the state the first part leaves. *)
Lemma scanLines_prefix pre post :
  forall s s1,
    scanLines sc reg pre s = Done s1 ->
    scanLines sc reg (pre ++ post) s = Done s1
    \/ scanLines sc reg (pre ++ post) s = scanLines sc reg post s1.
Proof.
  induction pre as [|line pre IH]; intros s s1 H; simpl in *.
  - injection H as <-. by right.
  - destruct (processLine sc reg line s) as [[[] s2]| |]; try discriminate.
    + by apply IH.
    + by left.
Qed.

End Snapshots.

(** C10 (as amended): the initial step length, the value of the integer
    constant expression [1 / 4], is the float64 zero.  Hence a track
    bound while no [step] directive has been processed holds a zero step
    length, and keeps it through whatever lines follow, [step] directives
    included, as long as no reuse directive binds it anew; when its
    samples-per-beat value is finite (neither NaN nor an infinity),
    [SamplesPerStep] and [Frames] return 0 for it when the song is
    rendered. *)
Theorem default_step_gives_no_frames (sc : Strconv)
    (reg : gmap string ProcessorFactory) (pre post : list string) (d : Defaults)
    (s1 s : State) (p : ptr) (t : Track) (sr_now : Z) :
  step d = step_init ->
  Forall (fun l => is_step_directive l = false) pre ->
  scanLines sc reg pre (state_init d) = Done s1 ->
  (p < length (heap s1))%nat ->
  ~ rebound sc reg p post s1 ->
  buildSong sc reg (pre ++ post) d = Done s ->
  heap s !! p = Some t ->
  F64.is_finite (SamplesPerBeat sr_now t) = true ->
  step_init = F64.zero /\ Track.step t = F64.zero
  /\ SamplesPerStep sr_now t = 0 /\ Frames sr_now t = 0.
Proof.
  intros Hd Hpre Hscan1 Hp Hnot Hbuild Ht Hfin. unfold buildSong in Hbuild.
  destruct (scanLines sc reg (pre ++ post) (state_init d)) as [s2| |] eqn:Hscan;
    try discriminate.
  simpl in Hbuild. injection Hbuild as <-.
  rewrite scanLines_heap_closePattern in Ht.
  assert (Hinv : initial_step s1).
  { eapply (scanLines_inv sc reg initial_step
              (fun l => is_step_directive l = false));
      [ | exact Hpre | | exact Hscan1].
    - intros line s0 fl s' Hl Hi Hline. eapply initial_step_kept; eauto.
    - split; [exact Hd | constructor]. }
  destruct Hinv as [_ Hh].
  destruct (lookup_lt_is_Some_2 _ _ Hp) as [t1 Ht1].
  pose proof (Forall_lookup_1 _ _ _ _ Hh Ht1) as Hstep1. simpl in Hstep1.
  assert (Hstep : Track.step t = F64.zero).
  { destruct (scanLines_prefix sc reg pre post _ _ Hscan1) as [E|E];
      rewrite Hscan in E.
    - injection E as ->. rewrite Ht1 in Ht. by injection Ht as <-.
    - symmetry in E.
      destruct (scanLines_snapshot sc reg post s1 s2 p t1 Hnot E Ht1)
        as (t' & Ht' & _ & Hs & _).
      rewrite Ht in Ht'. injection Ht' as <-. by rewrite Hs. }
  split; [reflexivity|]. split; [exact Hstep|].
  by apply zero_step_no_frames.
Qed.

(** A witness of the theorem above: the track bound by [:basic]
    at the initial defaults, followed by [step 1], a second track and a
    separator; at 48000 samples per second. *)
Lemma default_step_gives_no_frames_witness :
  step_init = F64.zero
  /\ Track.step (trackOf basicSynthFactory None true defaults_init) = F64.zero
  /\ SamplesPerStep 48000 (trackOf basicSynthFactory None true defaults_init) = 0
  /\ Frames 48000 (trackOf basicSynthFactory None true defaults_init) = 0.
Proof.
  apply (default_step_gives_no_frames strconv processorFactories
           [":basic"%string] ["step 1"; ":basic"; " "]%string defaults_init
           {| song := []; pattern := []; track := Some 0%nat;
              heap := [trackOf basicSynthFactory None true defaults_init];
              defaults := defaults_init |}
           {| song := [[0%nat]]; pattern := []; track := None;
              heap := [trackOf basicSynthFactory None true defaults_init;
                       trackOf basicSynthFactory None true
                         {| bpm := F64.of_Z 120; sr := 48000; steps := 16;
                            step := F64.of_Z 1 |}];
              defaults := {| bpm := F64.of_Z 120; sr := 48000; steps := 16;
                             step := F64.of_Z 1 |} |}
           0%nat).
  - reflexivity.
  - repeat constructor.
  - vm_compute. reflexivity.
  - simpl. lia.
  - intros H. vm_compute in H. intuition discriminate.
  - vm_compute. reflexivity.
  - reflexivity.
  - reflexivity.
Defined.

(** A track bound anew: in [rebound_step_lines] the first track is bound
    before any step directive, and the reuse directive after [step 1]
    overwrites it in place; the track in the pattern then has a step
    length of one beat and 384000 frames. *)
Example rebound_track_takes_new_step :
  exists s t,
    buildSong strconv processorFactories rebound_step_lines defaults_init = Done s
    /\ song s = [[0%nat; 0%nat]]
    /\ heap s !! 0%nat = Some t
    /\ Track.step t = F64.of_Z 1
    /\ Frames 48000 t = 384000.
Proof.
  eexists _, _. split; [vm_compute; reflexivity|]. repeat split.
Qed.

(** C10, counterexample to the claim as stated: the track that
    [zero_tempo_lines] binds before any step directive has tempo 0; its
    samples-per-beat value is 48000 / 0 = +Inf, the product with the zero
    step length is NaN, and the conversion to int gives - 2^63: neither
    [SamplesPerStep] nor [Frames] is 0. *)
Lemma zero_tempo_counterexample :
  Forall (fun l => is_step_directive l = false) zero_tempo_lines
  /\ (exists s,
        buildSong strconv processorFactories zero_tempo_lines defaults_init = Done s
        /\ heap s = [zero_tempo_track] /\ sr (defaults s) = 48000)
  /\ SamplesPerBeat 48000 zero_tempo_track = S754_infinity false
  /\ F64.mul (SamplesPerBeat 48000 zero_tempo_track) (Track.step zero_tempo_track)
     = S754_nan
  /\ SamplesPerStep 48000 zero_tempo_track = - 2 ^ 63
  /\ Frames 48000 zero_tempo_track = - 2 ^ 63.
Proof.
  split; [repeat constructor|].
  split; [eexists; split; [vm_compute; reflexivity | split; reflexivity]|].
  repeat split; reflexivity.
Qed.

(** Tracks bound by a named directive: such a track takes its tempo,
    step length and step count from the defaults as they are when it is
    bound, and a run of global-setting lines leaves the store of tracks,
    the song, the pattern and the cursor as they were.  In the scenario
    [bpm 120], [:basic], [bpm 140], [:basic] the first track holds 120 and
    the second holds 140. *)
Theorem snapshot_fixed_at_bind (sc : Strconv) (reg : gmap string ProcessorFactory) :
  (forall clear name args s s',
      name <> ""%string ->
      setProcessor reg clear name args s = Done s' ->
      exists t,
        heap s' = heap s ++ [t] /\ track s' = Some (length (heap s))
        /\ Track.bpm t = bpm (defaults s)
        /\ Track.step t = step (defaults s)
        /\ Track.steps t = steps (defaults s))
  /\ (forall lines s s',
        Forall (fun l => classify l = GlobalSetting) lines ->
        scanLines sc reg lines s = Done s' ->
        heap s' = heap s /\ song s' = song s
        /\ pattern s' = pattern s /\ track s' = track s)
  /\ (exists s a b,
        scanLines strconv processorFactories two_tempo_lines
          (state_init defaults_init) = Done s
        /\ heap s = [a; b]
        /\ Track.bpm a = F64.of_Z 120 /\ Track.bpm b = F64.of_Z 140).
Proof.
  split; [|split].
  - intros clear name args s s' Hname H.
    apply setProcessor_cases in H as [(E & _)|(_ & f & proc & _ & _ & ->)];
      [contradiction|].
    eexists. repeat split.
  - intros lines s s' Hlines Hscan.
    refine (scanLines_inv sc reg
              (fun x => heap x = heap s /\ song x = song s
                        /\ pattern x = pattern s /\ track x = track s)
              (fun l => classify l = GlobalSetting) _ lines s s' Hlines _ Hscan);
      [ | repeat split].
    intros line s0 fl s1 Hk (Hh & Hso & Hp & Ht) Hstep.
    destruct (globalSetting_frame sc reg line s0 fl s1 Hk Hstep)
      as (_ & Hh' & Hso' & Hp' & Ht').
    repeat split; congruence.
  - eexists _, _, _. split; [vm_compute; reflexivity|]. repeat split.
Qed.

(** A witness of the theorem above: after [bpm 120] and a first
    track, the line [bpm 140] leaves that track at tempo 120. *)
Lemma snapshot_fixed_at_bind_witness :
  heap {| song := []; pattern := []; track := Some 0%nat;
          heap := [trackOf basicSynthFactory None true defaults_init];
          defaults := {| bpm := F64.of_Z 140; sr := 48000; steps := 16;
                         step := step_init |} |}
  = [trackOf basicSynthFactory None true defaults_init].
Proof.
  refine (proj1 (proj1 (proj2 (snapshot_fixed_at_bind strconv processorFactories))
    ["bpm 140"%string]
    {| song := []; pattern := []; track := Some 0%nat;
       heap := [trackOf basicSynthFactory None true defaults_init];
       defaults := defaults_init |} _ _ _)).
  - repeat constructor.
  - vm_compute. reflexivity.
Defined.

(** C6, the code on the scenario with the second track bound by a reuse
    directive: after [bpm 120], [:basic], [bpm 140] the track A holds
    tempo 120; the line [:] appends the address of A to the pattern,
    allocates nothing, and overwrites the snapshot of A in place with the
    defaults of that moment, so the track in the pattern holds tempo 140. *)
Theorem reuse_rebinds_snapshot :
  exists s3 s4 a a',
    scanLines strconv processorFactories rebind_prefix (state_init defaults_init)
    = Done s3
    /\ pattern s3 = [] /\ track s3 = Some 0%nat
    /\ heap s3 = [a] /\ Track.bpm a = F64.of_Z 120
    /\ processLine strconv processorFactories ":" s3 = Done (Next, s4)
    /\ pattern s4 = [0%nat] /\ track s4 = Some 0%nat
    /\ heap s4 = [a'] /\ Track.bpm a' = F64.of_Z 140.
Proof.
  eexists _, _, _, _. split; [vm_compute; reflexivity|].
  do 4 (split; [reflexivity|]).
  split; [vm_compute; reflexivity|]. repeat split.
Qed.

Section PatternGrowth.

Variable sc : Strconv.
Variable reg : gmap string ProcessorFactory.

Lemma count_processor_directives_cons line rest :
  count_processor_directives (line :: rest) =
  ((if decide (classify line = ProcessorDirective) then 1 else 0)
   + count_processor_directives rest)%nat.
Proof.
  unfold count_processor_directives. rewrite filter_cons.
  destruct (decide _); reflexivity.
Qed.

(** Only a processor directive adds a track to the open pattern: any
    other line keeps the pattern and the song, or closes the pattern as it
    is, or resets both. *)
Lemma pattern_grows_at_directives_only line s fl s' :
  classify line <> ProcessorDirective ->
  processLine sc reg line s = Done (fl, s') ->
  (pattern s' = pattern s /\ song s' = song s)
  \/ (pattern s' = [] /\ song s' = song s ++ [pattern s])
  \/ (pattern s' = [] /\ song s' = []).
Proof.
  intros Hk H. pose proof (processLine_cases sc reg line s) as Hc.
  destruct (classify line) eqn:Hkind; try contradiction.
  - rewrite Hc in H. injection H as <- <-. right. right. by split.
  - rewrite Hc in H. injection H as <- <-. left. by split.
  - destruct (globalSetting_frame sc reg line s fl s' Hkind H)
      as (_ & _ & ? & ? & _).
    left. by split.
  - destruct Hc as (m & _ & Hc). rewrite Hc in H.
    destruct (setData _ _ _) as [s1| |] eqn:Ed; try discriminate.
    simpl in H. injection H as <- <-.
    apply setData_cases in Ed as (p & t & _ & _ & ->). left. by split.
  - rewrite Hc in H. injection H as <- <-. unfold closePattern.
    destruct (pattern s) eqn:E; [left; by split|].
    right. left. simpl. by split.
  - rewrite Hc in H. injection H as <- <-. left. by split.
Qed.

(** While at most one processor directive has been or will be read,
    counting an open track as one, the line loop creates no pattern. *)
Lemma one_directive_no_pattern lines :
  forall s s',
    song s = [] -> pattern s = [] ->
    (count_processor_directives lines
     + match track s with Some _ => 1 | None => 0 end <= 1)%nat ->
    scanLines sc reg lines s = Done s' ->
    song s' = [] /\ pattern s' = [].
Proof.
  induction lines as [|line rest IH]; intros s s' Hso Hpa Hcount Hscan.
  - simpl in Hscan. injection Hscan as <-. by split.
  - rewrite count_processor_directives_cons in Hcount. simpl in Hscan.
    pose proof (processLine_cases sc reg line s) as Hc.
    destruct (decide (classify line = ProcessorDirective)) as [Hk|Hk].
    + rewrite Hk in Hc. destruct Hc as (m & _ & Hc). rewrite Hc in Hscan.
      destruct (track s) as [p|] eqn:Et; [lia|].
      destruct (setProcessor _ _ _ _ _) as [s1| |] eqn:Ep; try discriminate.
      simpl in Hscan.
      apply setProcessor_cases in Ep
        as [(_ & p & t & proc & Ep & _)|(_ & f & proc & _ & _ & ->)];
        [congruence|].
      apply IH in Hscan; [exact Hscan | exact Hso | | simpl; lia].
      simpl. rewrite Et. exact Hpa.
    + clear Hc.
      destruct (processLine sc reg line s) as [[fl s1]| |] eqn:Ep;
        try discriminate.
      pose proof (processLine_cases sc reg line s) as Hc.
      assert (Hs1 : song s1 = [] /\ pattern s1 = []
                    /\ (match track s1 with Some _ => 1 | None => 0 end
                        <= match track s with Some _ => 1 | None => 0 end)%nat).
      { destruct (classify line); try contradiction.
        - rewrite Hc in Ep. injection Ep as <- <-. simpl.
          repeat split; destruct (track s); lia.
        - rewrite Hc in Ep. injection Ep as <- <-. repeat split; auto.
        - destruct Hc as (m & _ & Hc). rewrite Hc in Ep.
          destruct (setGlobal _ _ _ _) as [d| |]; try discriminate.
          simpl in Ep. injection Ep as <- <-. repeat split; auto.
        - destruct Hc as (m & _ & Hc). rewrite Hc in Ep.
          destruct (setData _ _ _) as [s2| |] eqn:Ed; try discriminate.
          simpl in Ep. injection Ep as <- <-.
          apply setData_cases in Ed as (p & t & _ & _ & ->).
          repeat split; auto.
        - rewrite Hc in Ep. injection Ep as <- <-. unfold closePattern.
          rewrite Hpa. repeat split; auto.
        - rewrite Hc in Ep. injection Ep as <- <-. repeat split; auto. }
      destruct Hs1 as (Hso1 & Hpa1 & Htr1).
      destruct fl.
      * apply IH in Hscan; [exact Hscan | exact Hso1 | exact Hpa1 | lia].
      * injection Hscan as <-. by split.
Qed.

End PatternGrowth.

(** C9 (as amended): closing a pattern, at a separator line or at the
    end of the input, appends the pattern to the song as it is and drops
    the cursor: the open track is not added to it.  Only a processor
    directive adds a track to the open pattern.  Hence an input that
    holds exactly one processor directive in all creates no pattern at
    any point and builds the empty song.  A separator met while no
    pattern is open changes nothing: the cursor stays, and a directive
    after it would add the open track to a pattern. *)
Theorem open_track_dropped_at_close (sc : Strconv)
    (reg : gmap string ProcessorFactory) :
  (forall line s,
      classify line = Separator ->
      processLine sc reg line s = Done (Next, closePattern s))
  /\ (forall s,
        pattern s <> [] ->
        closePattern s =
        {| song := song s ++ [pattern s]; pattern := []; track := None;
           heap := heap s; defaults := defaults s |})
  /\ (forall s, pattern s = [] -> closePattern s = s)
  /\ (forall line s fl s',
        classify line <> ProcessorDirective ->
        processLine sc reg line s = Done (fl, s') ->
        (pattern s' = pattern s /\ song s' = song s)
        \/ (pattern s' = [] /\ song s' = song s ++ [pattern s])
        \/ (pattern s' = [] /\ song s' = []))
  /\ (forall lines d s,
        count_processor_directives lines = 1%nat ->
        buildSong sc reg lines d = Done s ->
        song s = [] /\ pattern s = [])
  /\ (forall before after d s1,
        count_processor_directives (before ++ after) = 1%nat ->
        scanLines sc reg before (state_init d) = Done s1 ->
        song s1 = [] /\ pattern s1 = [])
  /\ (forall line s,
        classify line = Separator -> pattern s = [] ->
        processLine sc reg line s = Done (Next, s)).
Proof.
  split; [|split; [|split; [|split; [|split; [|split]]]]];
    [ | | | | | intros before after d s1 Hcount Hscan
            | intros line s Hk Hp ].
  6:{ unfold count_processor_directives in Hcount.
      rewrite filter_app, length_app in Hcount.
      apply one_directive_no_pattern in Hscan as [Hso Hpa];
        [by split | reflexivity | reflexivity | ].
      unfold count_processor_directives. simpl. lia. }
  6:{ pose proof (processLine_cases sc reg line s) as Hc. rewrite Hk in Hc.
      rewrite Hc. unfold closePattern. by rewrite Hp. }
  - intros line s Hk. pose proof (processLine_cases sc reg line s) as Hc.
    by rewrite Hk in Hc.
  - intros s Hp. unfold closePattern. by destruct (pattern s).
  - intros s Hp. unfold closePattern. by rewrite Hp.
  - apply pattern_grows_at_directives_only.
  - intros lines d s Hcount Hbuild. unfold buildSong in Hbuild.
    destruct (scanLines sc reg lines (state_init d)) as [s1| |] eqn:Hscan;
      try discriminate.
    simpl in Hbuild. injection Hbuild as <-.
    apply one_directive_no_pattern in Hscan as [Hso Hpa];
      [ | reflexivity | reflexivity | simpl; lia].
    unfold closePattern. rewrite Hpa. by split.
Qed.

(** A witness of the theorem above: one directive, one data
    line and a separator leave the song empty. *)
Lemma open_track_dropped_at_close_witness :
  song {| song := []; pattern := []; track := Some 0%nat;
          heap := [Track.mk basicSynthFactory None true
                     {[ "a"%char := "1"%string ]}
                     (F64.of_Z 120) step_init 16];
          defaults := defaults_init |} = []
  /\ pattern {| song := []; pattern := []; track := Some 0%nat;
          heap := [Track.mk basicSynthFactory None true
                     {[ "a"%char := "1"%string ]}
                     (F64.of_Z 120) step_init 16];
          defaults := defaults_init |} = [].
Proof.
  refine (proj1 (proj2 (proj2 (proj2 (proj2
    (open_track_dropped_at_close strconv processorFactories)))))
    single_track_lines defaults_init _ _ _).
  - vm_compute. reflexivity.
  - vm_compute. reflexivity.
Defined.

(** C9, counterexample to the claim as stated: in the file [:basic],
    separator, [:basic], separator exactly one processor directive occurs
    before each pattern boundary, and yet a pattern is created: the first
    separator finds no pattern open and leaves the cursor on the first
    track, the second directive adds that track to the pattern, and the
    built song holds one pattern of one track. *)
Lemma one_directive_per_boundary_counterexample :
  one_per_boundary_lines = ([":basic"] ++ [" "]) ++ ([":basic"] ++ [" "])
  /\ count_processor_directives [":basic"%string] = 1%nat
  /\ classify " " = Separator
  /\ exists s,
       buildSong strconv processorFactories one_per_boundary_lines defaults_init
       = Done s
       /\ song s = [[0%nat]] /\ song s <> [].
Proof.
  split; [reflexivity|]. split; [vm_compute; reflexivity|].
  split; [vm_compute; reflexivity|].
  eexists. split; [vm_compute; reflexivity|]. split; [reflexivity | discriminate].
Qed.

(** ** Song reset *)

Section Displacement.

Variable sc : Strconv.
Variable reg : gmap string ProcessorFactory.

(** Only the line [<<] leaves the loop. *)
Lemma processLine_break line s s' :
  processLine sc reg line s = Done (Break, s') -> line = "<<"%string.
Proof.
  intros H. pose proof (processLine_cases sc reg line s) as Hc.
  unfold classify in Hc.
  destruct (String.eqb line ">>"); [rewrite Hc in H; discriminate|].
  destruct (String.eqb line "<<") eqn:E; [by apply String.eqb_eq|].
  repeat (destruct (bool_decide _));
    try (destruct Hc as (m & _ & Hc); rewrite Hc in H;
         match type of H with
         | mbind _ ?x = _ => destruct x; simpl in H; discriminate
         end).
  destruct (MatchString _ _); rewrite Hc in H; discriminate.
Qed.

(** The loop over a file that starts with lines free of [<<] continues
    with the rest from the state those lines leave. *)
Lemma scanLines_app first rest :
  forall s s1,
    Forall (fun l => l <> "<<"%string) first ->
    scanLines sc reg first s = Done s1 ->
    scanLines sc reg (first ++ rest) s = scanLines sc reg rest s1.
Proof.
  induction first as [|line first IH]; intros s s1 Hno Hscan.
  - simpl in Hscan. injection Hscan as <-. reflexivity.
  - apply Forall_cons in Hno as [Hline Hno]. simpl in *.
    destruct (processLine sc reg line s) as [[[] s2]| |] eqn:E;
      try discriminate.
    + by apply IH.
    + apply processLine_break in E. contradiction.
Qed.

Lemma lookup_displaced (pre h : list Track) p :
  (pre ++ h) !! (length pre + p)%nat = h !! p.
Proof. rewrite lookup_app_r by lia. f_equal. lia. Qed.

Lemma shifted_setProcessor pre clear name args s s' :
  shifted pre s s' ->
  result_rel (shifted pre)
    (setProcessor reg clear name args s) (setProcessor reg clear name args s').
Proof.
  intros [Hso Hpa Htr Hh Hd]. unfold setProcessor.
  rewrite Hso, Hpa, Htr, Hh, Hd.
  destruct (String.eqb name "").
  - destruct (track s) as [p|]; simpl; [|reflexivity].
    rewrite lookup_displaced.
    destruct (heap s !! p) as [t|]; simpl; [|reflexivity].
    destruct (Track.factory t args) as [cause|proc]; simpl; [reflexivity|].
    constructor; simpl; try reflexivity.
    + by rewrite map_app.
    + by rewrite insert_app_r.
  - destruct (reg !! name) as [f|]; simpl; [|reflexivity].
    destruct (f args) as [cause|proc]; simpl; [reflexivity|].
    constructor; simpl; try reflexivity.
    + destruct (track s); simpl; [by rewrite map_app | reflexivity].
    + by rewrite length_app.
    + by rewrite app_assoc.
Qed.

Lemma shifted_setData pre code value s s' :
  shifted pre s s' ->
  result_rel (shifted pre) (setData code value s) (setData code value s').
Proof.
  intros [Hso Hpa Htr Hh Hd]. unfold setData. rewrite Hso, Hpa, Htr, Hh, Hd.
  destruct (track s) as [p|]; simpl; [|reflexivity].
  rewrite lookup_displaced.
  destruct (heap s !! p) as [t|]; simpl; [|reflexivity].
  constructor; simpl; try reflexivity. by rewrite insert_app_r.
Qed.

Lemma shifted_closePattern pre s s' :
  shifted pre s s' -> shifted pre (closePattern s) (closePattern s').
Proof.
  intros Hsh. pose proof Hsh as [Hso Hpa Htr Hh Hd].
  unfold closePattern. rewrite Hpa.
  destruct (pattern s) as [|p ps] eqn:E; simpl; [exact Hsh|].
  constructor; simpl; try assumption; try reflexivity.
  by rewrite Hso, map_app.
Qed.

Lemma shifted_processLine pre line s s' :
  shifted pre s s' ->
  result_rel (fun x y => fst x = fst y /\ shifted pre (snd x) (snd y))
    (processLine sc reg line s) (processLine sc reg line s').
Proof.
  intros Hsh. pose proof Hsh as [Hso Hpa Htr Hh Hd]. unfold processLine.
  destruct (String.eqb line ">>").
  { simpl. split; [reflexivity|]. by constructor. }
  destruct (String.eqb line "<<"); [by split|].
  destruct (FindStringSubmatch setGlobalPattern line) as [m|].
  { rewrite Hd. destruct (setGlobal sc _ _ _) as [d| |]; simpl; try reflexivity.
    split; [reflexivity|]. by constructor. }
  destruct (FindStringSubmatch setProcessorPattern line) as [m|].
  { pose proof (shifted_setProcessor pre
      (negb (String.eqb (group m 1) "+")) (group m 2) (group m 3) s s' Hsh) as H.
    destruct (setProcessor _ _ _ _ s) as [x| |],
             (setProcessor _ _ _ _ s') as [y| |]; simpl in *;
      try contradiction; try assumption.
    by split. }
  destruct (FindStringSubmatch setDataPattern line) as [m|].
  { destruct (submatch m 1) as [|code rest]; [reflexivity|].
    pose proof (shifted_setData pre code (group m 2) s s' Hsh) as H.
    destruct (setData _ _ s) as [x| |], (setData _ _ s') as [y| |]; simpl in *;
      try contradiction; try assumption.
    by split. }
  destruct (MatchString emptyLinePattern line); simpl.
  - split; [reflexivity|]. by apply shifted_closePattern.
  - by split.
Qed.

Lemma shifted_scanLines pre lines :
  forall s s',
    shifted pre s s' ->
    result_rel (shifted pre) (scanLines sc reg lines s) (scanLines sc reg lines s').
Proof.
  induction lines as [|line rest IH]; intros s s' Hsh; simpl; [exact Hsh|].
  pose proof (shifted_processLine pre line s s' Hsh) as H.
  destruct (processLine sc reg line s) as [[fl x]| |],
           (processLine sc reg line s') as [[fl' y]| |]; simpl in *;
    try contradiction; try assumption.
  destruct H as [<- H]. destruct fl; [by apply IH | exact H].
Qed.

End Displacement.

Section RenderDisplaced.

Variable pre h : list Track.
Variable sr_now : Z.

Lemma renderTracks_displaced pat :
  forall samples frames,
    renderTracks (pre ++ h) sr_now (map (Nat.add (length pre)) pat) samples frames
    = renderTracks h sr_now pat samples frames.
Proof.
  induction pat as [|p pat IH]; intros samples frames; simpl; [reflexivity|].
  rewrite lookup_displaced. destruct (h !! p) as [t|]; [|reflexivity].
  destruct (TrackProcess t _) as [samples'| |]; simpl; [apply IH | reflexivity..].
Qed.

Lemma renderPatterns_displaced pats :
  forall songSamples writePos,
    renderPatterns (pre ++ h) sr_now (map (map (Nat.add (length pre))) pats)
      songSamples writePos
    = renderPatterns h sr_now pats songSamples writePos.
Proof.
  induction pats as [|pat pats IH]; intros songSamples writePos; simpl;
    [reflexivity|].
  unfold renderPattern. rewrite renderTracks_displaced.
  destruct (renderTracks h sr_now pat NewSampleBuffer 0) as [[samples frames]| |];
    simpl; [|reflexivity..].
  destruct (mixSamples _ _ _ _) as [[songSamples' writePos']| |]; simpl;
    [apply IH | reflexivity..].
Qed.

End RenderDisplaced.

(** ** Mixing engine *)

Lemma patternFrames_from frames :
  forall acc,
    fold_left (fun a f => if a <? f then f else a) frames acc
    = fold_left Z.max frames acc.
Proof.
  induction frames as [|f frames IH]; intros acc; simpl; [reflexivity|].
  rewrite IH. f_equal. destruct (Z.ltb_spec acc f); lia.
Qed.

Lemma fold_max_ge frames : forall acc, acc <= fold_left Z.max frames acc.
Proof.
  induction frames as [|f frames IH]; intros acc; simpl; [lia|].
  specialize (IH (Z.max acc f)). lia.
Qed.

Lemma fold_max_max frames :
  forall a b, fold_left Z.max frames (Z.max a b) = Z.max a (fold_left Z.max frames b).
Proof.
  induction frames as [|f frames IH]; intros a b; simpl; [reflexivity|].
  rewrite <- IH. f_equal. lia.
Qed.

(** The loop's [patternFrames] is the maximum of zero and the tracks'
    frame counts. *)
Lemma patternFrames_max frames :
  patternFrames frames = Z.max 0 (maxFrames_spec frames).
Proof.
  unfold patternFrames. rewrite patternFrames_from.
  destruct frames as [|f frames]; simpl; [reflexivity|].
  apply fold_max_max.
Qed.

Section RenderFacts.

Variable h : list Track.
Variable sr_now : Z.

Lemma applyStores_length ws :
  forall buf buf', applyStores buf ws = Done buf' -> length buf' = length buf.
Proof.
  induction ws as [|[i v] ws IH]; intros buf buf' H; simpl in H.
  - by injection H as <-.
  - destruct (in_bounds i buf); [|discriminate].
    apply IH in H. by rewrite length_insert in H.
Qed.

(** The track loop keeps the length of the scratch buffer, and its second
    result is the running maximum over the tracks' frame counts. *)
Lemma renderTracks_result pat :
  forall samples frames samples' frames',
    renderTracks h sr_now pat samples frames = Done (samples', frames') ->
    length samples' = length samples
    /\ frames' = fold_left (fun a f => if a <? f then f else a)
                   (trackFrames h sr_now pat) frames.
Proof.
  induction pat as [|p pat IH]; intros samples frames samples' frames' H;
    simpl in H.
  - injection H as <- <-. by split.
  - unfold trackFrames. simpl.
    destruct (h !! p) as [t|] eqn:Et; [|discriminate]. simpl.
    destruct (TrackProcess t _) as [samples1| |] eqn:Ep; try discriminate.
    simpl in H. apply IH in H as [Hlen Hfr]. split; [|exact Hfr].
    rewrite Hlen. unfold TrackProcess in Ep.
    destruct (Track.proc t) as [pr|]; [|discriminate].
    apply applyStores_length in Ep. rewrite Ep.
    destruct (Track.clear t); [apply length_map | reflexivity].
Qed.

(** The scratch buffer of a pattern is created empty and stays empty:
    no track can contribute a sample to it. *)
Lemma scratch_stays_empty pat samples frames :
  renderTracks h sr_now pat NewSampleBuffer 0 = Done (samples, frames) ->
  samples = [].
Proof.
  intros H. apply renderTracks_result in H as [Hlen _].
  by apply nil_length_inv.
Qed.

End RenderFacts.

(** C7 (as amended): rendering a pattern advances the write offset, in
    int arithmetic, by the channel count times the pattern's realized
    frame count, which is the maximum of zero and its tracks' frame
    counts; the scratch buffer's length plays no part.  With a pattern of
    4 frames and 2 channels the next pattern starts at offset 8. *)
Theorem writePos_advance (h : list Track) (sr_now : Z) (songSamples : slice)
    (writePos : Z) (pat : Pattern) (songSamples' : slice) (writePos' : Z) :
  renderPattern h sr_now songSamples writePos pat = Done (songSamples', writePos') ->
  writePos' =
  Int.add writePos
    (Int.mul (Z.max 0 (maxFrames_spec (trackFrames h sr_now pat))) nchannels).
Proof.
  unfold renderPattern. intros H.
  destruct (renderTracks h sr_now pat NewSampleBuffer 0)
    as [[samples frames]| |] eqn:Er; try discriminate.
  simpl in H. apply renderTracks_result in Er as [_ ->].
  fold (patternFrames (trackFrames h sr_now pat)) in H.
  rewrite patternFrames_max in H. unfold mixSamples in H.
  destruct (addSamples _ _ _ _) as [es| |]; try discriminate.
  simpl in H. by injection H as _ <-.
Qed.

(** A witness of the theorem above: after a pattern of 4 frames the
    write offset is 8. *)
Lemma writePos_advance_witness :
  8 = Int.add 0
        (Int.mul (Z.max 0 (maxFrames_spec
                             (trackFrames [four_frames; six_frames] 2 [0%nat])))
           nchannels).
Proof.
  apply (writePos_advance [four_frames; six_frames] 2 NewSlice 0 [0%nat] NewSlice 8).
  vm_compute. reflexivity.
Defined.

(** The two patterns of 4 and 6 frames, rendered one after the other. *)
Example two_patterns_offsets :
  renderPattern [four_frames; six_frames] 2 NewSlice 0 [0%nat] = Done (NewSlice, 8)
  /\ renderPattern [four_frames; six_frames] 2 NewSlice 8 [1%nat] = Done (NewSlice, 20)
  /\ renderSong [four_frames; six_frames] 2 [[0%nat]; [1%nat]] = Done (NewSlice, 20).
Proof. repeat split. Qed.

(** C7, counterexample to the claim as stated: the pattern built by
    [negative_steps_lines] has one track of - 24000 frames; the maximum of
    its tracks' frame counts times the channel count is - 48000, and the
    write offset stays at 0. *)
Lemma negative_steps_counterexample :
  exists s,
    buildSong strconv silent_registry negative_steps_lines defaults_init = Done s
    /\ song s = [[0%nat]]
    /\ trackFrames (heap s) (sr (defaults s)) [0%nat] = [- 24000]
    /\ renderPattern (heap s) (sr (defaults s)) NewSlice 0 [0%nat]
       = Done (NewSlice, 0)
    /\ Int.add 0 (Int.mul (maxFrames_spec [- 24000]) nchannels) = - 48000.
Proof.
  eexists. split; [vm_compute; reflexivity|]. repeat split.
Qed.

(** [slices.Grow] changes the capacity only. *)
Lemma Grow_elems s n : elems (Grow s n) = elems s.
Proof. reflexivity. Qed.

(** The first write of the mixing loop is checked against the length of
    the song buffer, whatever its capacity. *)
Lemma addSamples_out_of_range songSamples writePos x samples :
  in_bounds (Int.add writePos 0) songSamples = false ->
  addSamples songSamples writePos 0 (x :: samples)
  = Panicked (IndexOutOfRange (Int.add writePos 0) (length songSamples)).
Proof. intros H. simpl. by rewrite H. Qed.

Section MixSafety.

Variable h : list Track.
Variable sr_now : Z.


End MixSafety.

(** C2, the code on the scenario: the builder makes the pattern of the
    clearing and the accumulating track; the scratch buffer is created
    with length 0, so the first track's store to [buf[0]] panics, and no
    scratch buffer [0.15, 0.25] is produced. *)
Theorem scratch_render_panics :
  exists s t1 t2,
    buildSong strconv adding_registry clear_accumulate_lines defaults_init = Done s
    /\ song s = [[0%nat; 1%nat]]
    /\ heap s !! 0%nat = Some t1 /\ Track.clear t1 = true
    /\ heap s !! 1%nat = Some t2 /\ Track.clear t2 = false
    /\ renderScratch (heap s) (sr (defaults s)) [0%nat; 1%nat]
       = Panicked (IndexOutOfRange 0 0)
    /\ processFile strconv adding_registry clear_accumulate_lines defaults_init
       = Panicked (IndexOutOfRange 0 0).
Proof.
  eexists _, _, _. repeat (split; [reflexivity|]). reflexivity.
Qed.

(** C3, the code on two reuse directives: the second reuse appends the
    address of the track that is already in the pattern, and overwrites
    that track's data lines and tempo in place. *)
Theorem reuse_overwrites_track_in_pattern :
  exists s1 s2 t1 t2,
    scanLines strconv processorFactories reuse_prefix (state_init defaults_init)
    = Done s1
    /\ processLine strconv processorFactories ":" s1 = Done (Next, s2)
    /\ pattern s1 = [0%nat] /\ pattern s2 = [0%nat; 0%nat]
    /\ length (heap s1) = 1%nat /\ length (heap s2) = 1%nat
    /\ heap s1 !! 0%nat = Some t1 /\ heap s2 !! 0%nat = Some t2
    /\ Track.data t1 = {[ "b"%char := "2"%string ]} /\ Track.data t2 = ∅
    /\ Track.bpm t1 = F64.of_Z 120 /\ Track.bpm t2 = F64.of_Z 140.
Proof.
  eexists _, _, _, _. split; [vm_compute; reflexivity|].
  split; [vm_compute; reflexivity|]. repeat split.
Qed.

(** The empty line takes no branch of the loop. *)
Lemma empty_line_ignored sc reg s : processLine sc reg "" s = Done (Next, s).
Proof. reflexivity. Qed.

(** C4, the code on blank lines with a pattern open: the empty line is
    ignored and the pattern stays open; a line of two spaces is taken as a
    data line with code [" "]; a line of one space closes the pattern.
    With no track open, the line of two spaces is an error. *)
Theorem empty_line_is_no_separator :
  exists s t,
    processLine strconv processorFactories "  " (state_init defaults_init)
    = Failed ErrDataWithoutTrack
    /\ scanLines strconv processorFactories open_pattern_lines
      (state_init defaults_init) = Done s
    /\ pattern s = [0%nat] /\ song s = [] /\ track s = Some 1%nat
    /\ classify "" = Ignored
    /\ processLine strconv processorFactories "" s = Done (Next, s)
    /\ classify "  " = DataLine
    /\ processLine strconv processorFactories "  " s
       = Done (Next, {| song := []; pattern := [0%nat]; track := Some 1%nat;
                        heap := <[1%nat := t]> (heap s);
                        defaults := defaults s |})
    /\ Track.data t = {[ " "%char := " "%string ]}
    /\ classify " " = Separator
    /\ processLine strconv processorFactories " " s
       = Done (Next, {| song := [[0%nat]]; pattern := []; track := None;
                        heap := heap s; defaults := defaults s |}).
Proof.
  eexists _, _. split; [reflexivity|]. split; [vm_compute; reflexivity|].
  repeat split; try (vm_compute; reflexivity).
Qed.

(** ** Addresses are never dangling *)

Section Allocation.

Variable sc : Strconv.
Variable reg : gmap string ProcessorFactory.

Lemma allocated_kept line s fl s' :
  allocated s ->
  processLine sc reg line s = Done (fl, s') ->
  allocated s'.
Proof.
  intros (Hso & Hpa & Htr) H.
  pose proof (processLine_cases sc reg line s) as Hc.
  destruct (classify line).
  - rewrite Hc in H. injection H as <- <-.
    repeat split; simpl; [constructor | constructor | discriminate].
  - rewrite Hc in H. injection H as <- <-. by repeat split.
  - destruct Hc as (m & _ & Hc). rewrite Hc in H.
    destruct (setGlobal sc _ _ _) as [d| |]; try discriminate.
    simpl in H. injection H as <- <-. by repeat split.
  - destruct Hc as (m & _ & Hc). rewrite Hc in H.
    destruct (setProcessor _ _ _ _ _) as [s1| |] eqn:Ep; try discriminate.
    simpl in H. injection H as <- <-.
    apply setProcessor_cases in Ep
      as [(_ & p & t & proc & Ep & _ & _ & ->)|(_ & f & proc & _ & _ & ->)];
      unfold allocated; simpl.
    + rewrite length_insert. repeat split; [exact Hso | | ].
      * apply Forall_app. split; [exact Hpa|]. apply Forall_singleton. by apply Htr.
      * intros q [= <-]. by apply Htr.
    + rewrite length_app. simpl. repeat split.
      * eapply Forall_impl; [exact Hso|]. intros pat Hpat.
        eapply Forall_impl; [exact Hpat|]. simpl. intros q Hq. lia.
      * assert (Hpa' : Forall (fun q => (q < length (heap s) + 1)%nat) (pattern s)).
        { eapply Forall_impl; [exact Hpa|]. simpl. intros q Hq. lia. }
        destruct (track s) as [q|] eqn:Eq; [|exact Hpa'].
        apply Forall_app. split; [exact Hpa'|]. apply Forall_singleton.
        specialize (Htr q eq_refl). lia.
      * intros q [= <-]. lia.
  - destruct Hc as (m & _ & Hc). rewrite Hc in H.
    destruct (setData _ _ _) as [s1| |] eqn:Ed; try discriminate.
    simpl in H. injection H as <- <-.
    apply setData_cases in Ed as (p & t & _ & _ & ->).
    unfold allocated; simpl. rewrite length_insert. by repeat split.
  - rewrite Hc in H. injection H as <- <-. unfold closePattern.
    destruct (pattern s) as [|p ps] eqn:E;
      [repeat split; [exact Hso | rewrite E; constructor | exact Htr]|].
    unfold allocated; simpl. repeat split; [ | constructor | discriminate].
    apply Forall_app. split; [exact Hso|]. apply Forall_singleton. exact Hpa.
  - rewrite Hc in H. injection H as <- <-. by repeat split.
Qed.

(** With every address allocated, a line does not panic. *)
Lemma processLine_no_panic line s p :
  allocated s -> processLine sc reg line s <> Panicked p.
Proof.
  intros (_ & _ & Htr) H.
  pose proof (processLine_cases sc reg line s) as Hc.
  destruct (classify line); try (rewrite Hc in H; discriminate).
  - destruct Hc as (m & _ & Hc). rewrite Hc in H.
    unfold setGlobal in H.
    repeat (match type of H with
            | context [if ?b then _ else _] => destruct b
            | context [match ?x with Some _ => _ | None => _ end] => destruct x
            end; simpl in H; try discriminate).
  - destruct Hc as (m & _ & Hc). rewrite Hc in H. unfold setProcessor in H.
    destruct (String.eqb _ _).
    + destruct (track s) as [q|]; [|discriminate].
      destruct (lookup_lt_is_Some_2 (heap s) q (Htr q eq_refl)) as [t Et].
      rewrite Et in H. destruct (Track.factory t _); discriminate.
    + destruct (reg !! _) as [f|]; [|discriminate].
      destruct (f _); discriminate.
  - destruct Hc as (m & _ & Hc). rewrite Hc in H. unfold setData in H.
    destruct (track s) as [q|]; [|discriminate].
    destruct (lookup_lt_is_Some_2 (heap s) q (Htr q eq_refl)) as [t Et].
    rewrite Et in H. discriminate.
Qed.

(** The line loop, started from the empty state, never panics, and the
    state it builds holds allocated addresses only. *)
Lemma buildSong_allocated lines d :
  match buildSong sc reg lines d with
  | Done s => allocated s
  | Failed _ => True
  | Panicked _ => False
  end.
Proof.
  unfold buildSong.
  assert (H : forall s, allocated s ->
            match scanLines sc reg lines s with
            | Done s' => allocated s'
            | Failed _ => True
            | Panicked _ => False
            end).
  { induction lines as [|line rest IH]; intros s Hs; simpl; [exact Hs|].
    destruct (processLine sc reg line s) as [[fl s1]| |q] eqn:E.
    - pose proof (allocated_kept line s fl s1 Hs E) as Hs1.
      destruct fl; [by apply IH | exact Hs1].
    - exact I.
    - by apply processLine_no_panic in E. }
  specialize (H (state_init d)).
  destruct (scanLines sc reg lines (state_init d)) as [s1| |]; simpl.
  - assert (Ha : allocated s1).
    { apply H. repeat split; simpl; [constructor | constructor | discriminate]. }
    destruct Ha as (Hso & Hpa & Htr). unfold closePattern.
    destruct (pattern s1) as [|p ps] eqn:E;
      [repeat split; [exact Hso | rewrite E; constructor | exact Htr]|].
    unfold allocated; simpl. repeat split; [ | constructor | discriminate].
    apply Forall_app. split; [exact Hso|]. apply Forall_singleton. exact Hpa.
  - exact I.
  - apply H. repeat split; simpl; [constructor | constructor | discriminate].
Qed.

End Allocation.

(** With the table of the source every track has the nil processor of
    [basicSynthFactory]: rendering a song that has a pattern panics in
    [Track.Process]. *)
Example render_with_basic_panics :
  processFile strconv processorFactories
    [":basic"; ":basic"; " "]%string defaults_init
  = Panicked NilDereference.
Proof. vm_compute. reflexivity. Qed.

(** The track loop on a scratch buffer that had two samples: the
    clearing track zeroes it and adds its samples, the accumulating track
    adds onto them.  (In float64 the sum 0.1 + 0.05 is not the number
    nearest to 0.15.) *)
Example sized_scratch_accumulates :
  renderTracks
    [trackOf (factoryOf (adding [f64_ratio 1 10; f64_ratio 2 10]))
       (Some (adding [f64_ratio 1 10; f64_ratio 2 10])) true defaults_init;
     trackOf (factoryOf (adding [f64_ratio 5 100; f64_ratio 5 100]))
       (Some (adding [f64_ratio 5 100; f64_ratio 5 100])) false defaults_init]
    48000 [0%nat; 1%nat] [F64.of_Z 7; F64.of_Z 7] 0
  = Done ([F64.add (f64_ratio 1 10) (f64_ratio 5 100);
           F64.add (f64_ratio 2 10) (f64_ratio 5 100)], 0)
  /\ F64.add (f64_ratio 2 10) (f64_ratio 5 100) = f64_ratio 25 100
  /\ F64.add (f64_ratio 1 10) (f64_ratio 5 100) <> f64_ratio 15 100.
Proof.
  split; [vm_compute; reflexivity|]. split; [vm_compute; reflexivity|].
  vm_compute. discriminate.
Qed.

(** A separator met while no pattern is open keeps the cursor: the open
    track of the first group enters the pattern of the second. *)
Example open_track_survives_separator :
  exists s,
    buildSong strconv processorFactories
      [":basic"; " "; ":basic"; " "]%string defaults_init = Done s
    /\ song s = [[0%nat]] /\ length (heap s) = 2%nat.
Proof. eexists. split; [vm_compute; reflexivity|]. by split. Qed.

(** * Further properties of the builder *)

Section BuilderMore.

Variable sc : Strconv.
Variable reg : gmap string ProcessorFactory.

(** The first error ends the loop: later lines are not read. *)
Lemma scanLines_failed_app first rest :
  forall s e,
    scanLines sc reg first s = Failed e ->
    scanLines sc reg (first ++ rest) s = Failed e.
Proof.
  induction first as [|line first IH]; intros s e H; simpl in *; [discriminate|].
  destruct (processLine sc reg line s) as [[[] s1]| |]; try discriminate;
    [by apply IH | exact H].
Qed.

(** Without a processor directive no track is bound: the cursor stays
    nil and nothing is allocated. *)
Lemma no_directive_no_track lines :
  forall s s',
    track s = None ->
    count_processor_directives lines = 0%nat ->
    scanLines sc reg lines s = Done s' ->
    track s' = None /\ heap s' = heap s.
Proof.
  induction lines as [|line rest IH]; intros s s' Htr Hcount Hscan.
  - simpl in Hscan. by injection Hscan as <-.
  - rewrite count_processor_directives_cons in Hcount. simpl in Hscan.
    destruct (decide (classify line = ProcessorDirective)) as [Hk|Hk]; [lia|].
    destruct (processLine sc reg line s) as [[fl s1]| |] eqn:Ep; try discriminate.
    pose proof (processLine_cases sc reg line s) as Hc.
    assert (Hs1 : track s1 = None /\ heap s1 = heap s).
    { destruct (classify line); try contradiction.
      - rewrite Hc in Ep. by injection Ep as <- <-.
      - rewrite Hc in Ep. by injection Ep as <- <-.
      - destruct Hc as (m & _ & Hc). rewrite Hc in Ep.
        destruct (setGlobal _ _ _ _) as [d| |]; try discriminate.
        simpl in Ep. by injection Ep as <- <-.
      - destruct Hc as (m & _ & Hc). rewrite Hc in Ep.
        unfold setData in Ep. rewrite Htr in Ep. discriminate.
      - rewrite Hc in Ep. injection Ep as <- <-. unfold closePattern.
        by destruct (pattern s).
      - rewrite Hc in Ep. by injection Ep as <- <-. }
    destruct Hs1 as [Htr1 Hh1]. destruct fl.
    + apply IH in Hscan as [? ?]; [split; congruence | exact Htr1 | lia].
    + injection Hscan as <-. by split.
Qed.

End BuilderMore.

(** The line loop never panics, and the state it builds holds allocated
    addresses only. *)
Lemma builder_never_panics_aux (sc : Strconv) (reg : gmap string ProcessorFactory)
    (lines : list string) (d : Defaults) :
  (forall p, buildSong sc reg lines d <> Panicked p)
  /\ (forall s, buildSong sc reg lines d = Done s -> allocated s).
Proof.
  pose proof (buildSong_allocated sc reg lines d) as H.
  destruct (buildSong sc reg lines d) as [s| |p]; [ | | contradiction].
  - split; [discriminate | by intros s' [= <-]].
  - split; discriminate.
Qed.

(** X1: the line loop never panics, whatever the lines, the parsers and
    the registry: the index [matches[1][0]] of a data line is always in
    range, since the first group of the data-line expression holds a whole
    rune, and a track is dereferenced only behind the nil check of its
    branch; when the loop ends without error every track address in the
    song it has built is allocated. *)
Theorem builder_never_panics (sc : Strconv) (reg : gmap string ProcessorFactory)
    (lines : list string) (d : Defaults) :
  (forall p, buildSong sc reg lines d <> Panicked p)
  /\ (forall s, buildSong sc reg lines d = Done s -> allocated s).
Proof. apply builder_never_panics_aux. Qed.

(** X3: a data line that comes before any processor directive aborts the
    file with the error "data line without track", whatever follows. *)
Theorem data_line_needs_track (sc : Strconv) (reg : gmap string ProcessorFactory)
    (before after : list string) (line : string) (d : Defaults) (s : State) :
  count_processor_directives before = 0%nat ->
  Forall (fun l => l <> "<<"%string) before ->
  scanLines sc reg before (state_init d) = Done s ->
  classify line = DataLine ->
  processFile sc reg (before ++ line :: after) d = Failed ErrDataWithoutTrack.
Proof.
  intros Hcount Hno Hscan Hk. unfold processFile, buildSong.
  rewrite (scanLines_app sc reg before _ _ s Hno Hscan).
  apply no_directive_no_track in Hscan as [Htr _]; [ | reflexivity | exact Hcount].
  simpl. pose proof (processLine_cases sc reg line s) as Hc. rewrite Hk in Hc.
  destruct Hc as (m & _ & ->). unfold setData. rewrite Htr. reflexivity.
Qed.

(** A witness: [orphan_data_lines], where the data line [a1] follows a
    tempo setting and a separator. *)
Lemma data_line_needs_track_witness :
  processFile strconv processorFactories orphan_data_lines defaults_init
  = Failed ErrDataWithoutTrack.
Proof.
  apply (data_line_needs_track strconv processorFactories
           ["bpm 90"; " "]%string [":basic"%string] "a1" defaults_init
           (state_init {| bpm := F64.of_Z 90; sr := 48000; steps := 16;
                          step := step_init |})).
  - reflexivity.
  - repeat constructor; discriminate.
  - vm_compute. reflexivity.
  - reflexivity.
Defined.

(** X4: a reuse directive that comes before any processor directive
    aborts the file with the error "attempt to reuse a processor which has
    not been defined". *)
Theorem reuse_needs_track (sc : Strconv) (reg : gmap string ProcessorFactory)
    (before after : list string) (line : string) (d : Defaults) (s : State) :
  count_processor_directives before = 0%nat ->
  Forall (fun l => l <> "<<"%string) before ->
  scanLines sc reg before (state_init d) = Done s ->
  is_reuse line ->
  processFile sc reg (before ++ line :: after) d = Failed ErrReuseUndefined.
Proof.
  intros Hcount Hno Hscan [Hk Hname]. unfold processFile, buildSong.
  rewrite (scanLines_app sc reg before _ _ s Hno Hscan).
  apply no_directive_no_track in Hscan as [Htr _]; [ | reflexivity | exact Hcount].
  simpl. pose proof (processLine_cases sc reg line s) as Hc. rewrite Hk in Hc.
  destruct Hc as (m & Hm & ->). unfold directive_name in Hname.
  rewrite Hm in Hname. unfold setProcessor. rewrite Hname, Htr. reflexivity.
Qed.

(** A witness: [orphan_reuse_lines], where the reuse [+:x] follows a
    tempo setting and a separator. *)
Lemma reuse_needs_track_witness :
  processFile strconv processorFactories orphan_reuse_lines defaults_init
  = Failed ErrReuseUndefined.
Proof.
  apply (reuse_needs_track strconv processorFactories
           ["bpm 90"; " "]%string [":basic"%string] "+:x" defaults_init
           (state_init {| bpm := F64.of_Z 90; sr := 48000; steps := 16;
                          step := step_init |})).
  - reflexivity.
  - repeat constructor; discriminate.
  - vm_compute. reflexivity.
  - split; reflexivity.
Defined.

Section BuilderInvariants.

Variable sc : Strconv.
Variable reg : gmap string ProcessorFactory.

(** The song-end line: what follows it plays no part. *)
Lemma scanLines_song_end before after :
  forall s,
    scanLines sc reg (before ++ "<<"%string :: after) s = scanLines sc reg before s.
Proof.
  induction before as [|line before IH]; intros s; simpl; [reflexivity|].
  destruct (processLine sc reg line s) as [[[] s1]| |]; try reflexivity.
  apply IH.
Qed.

(** A line modifies no track but the current one, and of the current
    one neither the clear flag nor the factory. *)
Lemma processLine_tracks line s fl s' p t :
  processLine sc reg line s = Done (fl, s') ->
  heap s !! p = Some t ->
  (track s <> Some p -> heap s' !! p = Some t)
  /\ exists t', heap s' !! p = Some t'
       /\ Track.clear t' = Track.clear t /\ Track.factory t' = Track.factory t.
Proof.
  intros H Ht. pose proof (processLine_cases sc reg line s) as Hc.
  assert (Hsame : heap s' = heap s ->
            (track s <> Some p -> heap s' !! p = Some t)
            /\ exists t', heap s' !! p = Some t'
                 /\ Track.clear t' = Track.clear t
                 /\ Track.factory t' = Track.factory t).
  { intros ->. split; [done|]. by exists t. }
  destruct (classify line).
  - rewrite Hc in H. injection H as <- <-. by apply Hsame.
  - rewrite Hc in H. injection H as <- <-. by apply Hsame.
  - destruct Hc as (m & _ & Hc). rewrite Hc in H.
    destruct (setGlobal sc _ _ _) as [d| |]; try discriminate.
    simpl in H. injection H as <- <-. by apply Hsame.
  - destruct Hc as (m & _ & Hc). rewrite Hc in H.
    destruct (setProcessor _ _ _ _ _) as [s1| |] eqn:Ep; try discriminate.
    simpl in H. injection H as <- <-.
    apply setProcessor_cases in Ep
      as [(_ & q & u & proc & Eq & Eu & _ & ->)|(_ & f & proc & _ & _ & ->)];
      simpl.
    + destruct (decide (q = p)) as [->|Hne].
      * split; [congruence|]. rewrite Ht in Eu. injection Eu as <-.
        eexists. split; [apply list_lookup_insert_eq; by eapply lookup_lt_Some|].
        split; reflexivity.
      * rewrite list_lookup_insert_ne by exact Hne.
        split; [done|]. by exists t.
    + rewrite lookup_app_l by (by eapply lookup_lt_Some).
      split; [done|]. by exists t.
  - destruct Hc as (m & _ & Hc). rewrite Hc in H.
    destruct (setData _ _ _) as [s1| |] eqn:Ed; try discriminate.
    simpl in H. injection H as <- <-.
    apply setData_cases in Ed as (q & u & Eq & Eu & ->). simpl.
    destruct (decide (q = p)) as [->|Hne].
    + split; [congruence|]. rewrite Ht in Eu. injection Eu as <-.
      eexists. split; [apply list_lookup_insert_eq; by eapply lookup_lt_Some|].
      split; reflexivity.
    + rewrite list_lookup_insert_ne by exact Hne.
      split; [done|]. by exists t.
  - rewrite Hc in H. injection H as <- <-. apply Hsame.
    apply scanLines_heap_closePattern.
  - rewrite Hc in H. injection H as <- <-. by apply Hsame.
Qed.

(** No pattern of the song is empty. *)
Lemma song_patterns_nonempty_kept line s fl s' :
  Forall (fun pat => pat <> []) (song s) ->
  processLine sc reg line s = Done (fl, s') ->
  Forall (fun pat => pat <> []) (song s').
Proof.
  intros Hso H. pose proof (processLine_cases sc reg line s) as Hc.
  destruct (classify line).
  - rewrite Hc in H. injection H as <- <-. constructor.
  - rewrite Hc in H. by injection H as <- <-.
  - destruct Hc as (m & _ & Hc). rewrite Hc in H.
    destruct (setGlobal sc _ _ _) as [d| |]; try discriminate.
    simpl in H. by injection H as <- <-.
  - destruct Hc as (m & _ & Hc). rewrite Hc in H.
    destruct (setProcessor _ _ _ _ _) as [s1| |] eqn:Ep; try discriminate.
    simpl in H. injection H as <- <-.
    by apply setProcessor_cases in Ep
      as [(_ & q & u & proc & _ & _ & _ & ->)|(_ & f & proc & _ & _ & ->)].
  - destruct Hc as (m & _ & Hc). rewrite Hc in H.
    destruct (setData _ _ _) as [s1| |] eqn:Ed; try discriminate.
    simpl in H. injection H as <- <-.
    by apply setData_cases in Ed as (q & u & _ & _ & ->).
  - rewrite Hc in H. injection H as <- <-. unfold closePattern.
    destruct (pattern s) as [|q ps] eqn:E; [exact Hso|]. simpl.
    apply Forall_app. split; [exact Hso|]. by apply Forall_singleton.
  - rewrite Hc in H. by injection H as <- <-.
Qed.

End BuilderInvariants.

Lemma built_song_nonempty_aux (sc : Strconv)
    (reg : gmap string ProcessorFactory) (lines : list string) (d : Defaults)
    (s : State) :
  buildSong sc reg lines d = Done s ->
  Forall (fun pat => pat <> []) (song s).
Proof.
  unfold buildSong. intros H.
  destruct (scanLines sc reg lines (state_init d)) as [s1| |] eqn:Hscan;
    try discriminate.
  simpl in H. injection H as <-.
  assert (Hinv : Forall (fun pat => pat <> []) (song s1)).
  { refine (scanLines_inv sc reg (fun x => Forall (fun pat => pat <> []) (song x))
              (fun _ => True) _ lines _ s1 _ _ Hscan).
    - intros line s0 fl s' _. apply song_patterns_nonempty_kept.
    - by apply Forall_true.
    - constructor. }
  unfold closePattern. destruct (pattern s1) as [|q ps] eqn:E; [exact Hinv|].
  simpl. apply Forall_app. split; [exact Hinv|]. by apply Forall_singleton.
Qed.

(** X2: the song handed to the render loop has no empty pattern, and no
    pattern is left open: a pattern enters the song only when it holds a
    track. *)
Theorem built_song_patterns_nonempty (sc : Strconv)
    (reg : gmap string ProcessorFactory) (lines : list string) (d : Defaults)
    (s : State) :
  buildSong sc reg lines d = Done s ->
  Forall (fun pat => pat <> []) (song s) /\ pattern s = [].
Proof.
  intros H. split; [by eapply built_song_nonempty_aux|].
  unfold buildSong in H.
  destruct (scanLines sc reg lines (state_init d)) as [s1| |]; try discriminate.
  simpl in H. injection H as <-. unfold closePattern.
  by destruct (pattern s1) eqn:E.
Qed.

(** A witness: the file of the reuse scenario, closed by a separator. *)
Lemma built_song_patterns_nonempty_witness :
  Forall (fun pat => pat <> [])
    (song {| song := [[0%nat]]; pattern := []; track := None;
             heap := [trackOf basicSynthFactory None true defaults_init;
                      trackOf basicSynthFactory None true defaults_init];
             defaults := defaults_init |})
  /\ pattern {| song := [[0%nat]]; pattern := []; track := None;
             heap := [trackOf basicSynthFactory None true defaults_init;
                      trackOf basicSynthFactory None true defaults_init];
             defaults := defaults_init |} = [].
Proof.
  apply (built_song_patterns_nonempty strconv processorFactories
           (open_pattern_lines ++ [" "%string]) defaults_init).
  vm_compute. reflexivity.
Defined.

(** X5: everything after the song-end line [<<] is ignored, malformed
    lines included: the file is processed as if it ended before it. *)
Theorem song_end_cuts_file (sc : Strconv) (reg : gmap string ProcessorFactory)
    (before after : list string) (d : Defaults) :
  processFile sc reg (before ++ "<<"%string :: after) d
  = processFile sc reg before d.
Proof.
  unfold processFile, buildSong. by rewrite scanLines_song_end.
Qed.

(** X6: the first line that fails ends the processing: the file yields
    that error, whatever the later lines are. *)
Theorem first_error_aborts (sc : Strconv) (reg : gmap string ProcessorFactory)
    (first rest : list string) (d : Defaults) (e : error) :
  scanLines sc reg first (state_init d) = Failed e ->
  processFile sc reg (first ++ rest) d = Failed e.
Proof.
  intros H. unfold processFile, buildSong.
  by rewrite (scanLines_failed_app sc reg first rest _ e H).
Qed.

(** A witness: [bpm fast] cannot be parsed, the lines after it are not
    read. *)
Lemma first_error_aborts_witness :
  processFile strconv processorFactories
    (bad_tempo_lines ++ ["sr x"; "?"]%string) defaults_init
  = Failed (ErrParseBpm "fast").
Proof.
  apply (first_error_aborts strconv processorFactories bad_tempo_lines).
  vm_compute. reflexivity.
Defined.

(** X7: a line modifies no track but the one under the cursor, and it
    never changes the clear flag or the factory of a track: in particular
    the [:] or [+] of a reuse directive has no effect on the track it
    re-binds. *)
Theorem only_current_track_modified (sc : Strconv)
    (reg : gmap string ProcessorFactory) (line : string) (s s' : State)
    (fl : flow) (p : ptr) (t : Track) :
  processLine sc reg line s = Done (fl, s') ->
  heap s !! p = Some t ->
  (track s <> Some p -> heap s' !! p = Some t)
  /\ exists t', heap s' !! p = Some t'
       /\ Track.clear t' = Track.clear t /\ Track.factory t' = Track.factory t.
Proof. apply processLine_tracks. Qed.

(** A witness: the reuse [+] on a track bound by [:basic] leaves its clear
    flag set. *)
Lemma only_current_track_modified_witness :
  (Some 0%nat <> Some 0%nat ->
   [trackOf basicSynthFactory None true defaults_init] !! 0%nat
   = Some (trackOf basicSynthFactory None true defaults_init))
  /\ exists t',
       [trackOf basicSynthFactory None true defaults_init] !! 0%nat = Some t'
       /\ Track.clear t' = true /\ Track.factory t' = basicSynthFactory.
Proof.
  apply (only_current_track_modified strconv processorFactories "+"
           {| song := []; pattern := []; track := Some 0%nat;
              heap := [trackOf basicSynthFactory None true defaults_init];
              defaults := defaults_init |}
           {| song := []; pattern := [0%nat]; track := Some 0%nat;
              heap := [trackOf basicSynthFactory None true defaults_init];
              defaults := defaults_init |} Next 0%nat).
  - vm_compute. reflexivity.
  - reflexivity.
Defined.

(** * Further properties of the mixing engine *)

Lemma wrap64_wrap_l a b : Int.wrap64 (Int.wrap64 a + b) = Int.wrap64 (a + b).
Proof.
  unfold Int.wrap64. f_equal.
  replace (a + 2 ^ 63) with (a + 2 ^ 63 + 0) by lia.
  rewrite <- (Z.add_0_r ((a + 2 ^ 63 + 0) mod 2 ^ 64 - 2 ^ 63 + b + 2 ^ 63)).
  replace ((a + 2 ^ 63 + 0) mod 2 ^ 64 - 2 ^ 63 + b + 2 ^ 63 + 0)
    with ((a + 2 ^ 63 + 0) mod 2 ^ 64 + b) by lia.
  rewrite Z.add_mod_idemp_l by lia. f_equal. lia.
Qed.

Lemma wrap64_wrap_r a b : Int.wrap64 (a + Int.wrap64 b) = Int.wrap64 (a + b).
Proof. rewrite (Z.add_comm a), wrap64_wrap_l. f_equal. lia. Qed.

Section MixFacts.

Variable h : list Track.
Variable sr_now : Z.

(** A pattern's render leaves the elements of the song buffer as they
    were, and moves the write offset by [advance]. *)
Lemma renderPattern_result songSamples writePos pat songSamples' writePos' :
  renderPattern h sr_now songSamples writePos pat = Done (songSamples', writePos') ->
  elems songSamples' = elems songSamples
  /\ writePos' = Int.add writePos (advance h sr_now pat).
Proof.
  unfold renderPattern. intros H.
  destruct (renderTracks h sr_now pat NewSampleBuffer 0)
    as [[samples frames]| |] eqn:Er; try discriminate.
  simpl in H. pose proof (scratch_stays_empty _ _ _ _ _ Er) as ->.
  apply renderTracks_result in Er as [_ ->].
  unfold mixSamples in H. simpl in H. by injection H as <- <-.
Qed.

Lemma wrap64_range z : Int.in_range (Int.wrap64 z).
Proof.
  unfold Int.in_range, Int.wrap64, Int.min_int, Int.max_int.
  pose proof (Z.mod_pos_bound (z + 2 ^ 63) (2 ^ 64)). lia.
Qed.

Lemma renderPatterns_result pats :
  forall songSamples writePos songSamples' writePos',
    Int.in_range writePos ->
    renderPatterns h sr_now pats songSamples writePos = Done (songSamples', writePos') ->
    elems songSamples' = elems songSamples
    /\ writePos' =
       Int.wrap64 (writePos
                   + foldr Z.add 0
                       (map (fun pat => patternFrames (trackFrames h sr_now pat)
                                        * nchannels) pats)).
Proof.
  induction pats as [|pat pats IH];
    intros songSamples writePos songSamples' writePos' Hr H; simpl in H.
  - injection H as <- <-. split; [reflexivity|]. simpl.
    by rewrite Z.add_0_r, wrap64_id.
  - destruct (renderPattern h sr_now songSamples writePos pat)
      as [[songSamples1 writePos1]| |] eqn:E; try discriminate.
    simpl in H. apply renderPattern_result in E as [He ->].
    apply IH in H as [He' ->]; [|apply wrap64_range].
    split; [congruence|]. unfold Int.add, advance, Int.mul. cbn [map foldr].
    rewrite wrap64_wrap_l.
    set (m := patternFrames (trackFrames h sr_now pat) * nchannels).
    set (rest := foldr Z.add 0 _).
    replace (writePos + Int.wrap64 m + rest)
      with (writePos + rest + Int.wrap64 m) by lia.
    rewrite wrap64_wrap_r. f_equal. lia.
Qed.

End MixFacts.

(** X8: whatever the file, the parsers and the processors, the write
    loop of the render never stores a sample: when [processFile] reaches
    [writeWav], the buffer it hands over is empty. *)
Theorem processFile_output_empty (sc : Strconv)
    (reg : gmap string ProcessorFactory) (lines : list string) (d : Defaults)
    (out : list float64) :
  processFile sc reg lines d = Done out -> out = [].
Proof.
  unfold processFile. intros H.
  destruct (buildSong sc reg lines d) as [s| |]; try discriminate. simpl in H.
  destruct (renderSong (heap s) (sr (defaults s)) (song s))
    as [[songSamples writePos]| |] eqn:E; try discriminate.
  simpl in H. injection H as <-. unfold renderSong in E.
  apply renderPatterns_result in E as [-> _]; [reflexivity|].
  vm_compute. split; discriminate.
Qed.

(** A witness: a file rendered with a processor that stores nothing. *)
Lemma processFile_output_empty_witness : @nil float64 = [].
Proof.
  apply (processFile_output_empty strconv silent_registry negative_steps_lines
           defaults_init).
  vm_compute. reflexivity.
Defined.

(** X9: when the render of a song ends, the write offset is the sum,
    wrapped to the int range, of the patterns' realized frame counts times
    the channel count. *)
Theorem final_write_offset (h : list Track) (sr_now : Z) (s : Song)
    (songSamples : slice) (writePos : Z) :
  renderSong h sr_now s = Done (songSamples, writePos) ->
  writePos =
  Int.wrap64 (foldr Z.add 0
                (map (fun pat => patternFrames (trackFrames h sr_now pat)
                                 * nchannels) s)).
Proof.
  unfold renderSong. intros H.
  apply renderPatterns_result in H as [_ ->]; [reflexivity|].
  vm_compute. split; discriminate.
Qed.

(** A witness: the patterns of 4 and of 6 frames end at offset 20. *)
Lemma final_write_offset_witness :
  20 = Int.wrap64 (foldr Z.add 0
         (map (fun pat => patternFrames (trackFrames [four_frames; six_frames] 2 pat)
                          * nchannels) [[0%nat]; [1%nat]])).
Proof.
  apply (final_write_offset [four_frames; six_frames] 2 [[0%nat]; [1%nat]] NewSlice).
  vm_compute. reflexivity.
Defined.

Section SourceTable.

Variable sc : Strconv.

Lemma processorFactories_lookup name f :
  processorFactories !! name = Some f -> f = basicSynthFactory.
Proof.
  unfold processorFactories. intros H.
  apply lookup_singleton_Some in H as [_ <-]. reflexivity.
Qed.

(** With the table of the source every track is bound to
    [basicSynthFactory] and holds the nil processor. *)
Lemma all_basic_kept line s fl s' :
  all_basic (heap s) ->
  processLine sc processorFactories line s = Done (fl, s') ->
  all_basic (heap s').
Proof.
  intros Hh H. pose proof (processLine_cases sc processorFactories line s) as Hc.
  destruct (classify line).
  - rewrite Hc in H. by injection H as <- <-.
  - rewrite Hc in H. by injection H as <- <-.
  - destruct Hc as (m & _ & Hc). rewrite Hc in H.
    destruct (setGlobal sc _ _ _) as [d| |]; try discriminate.
    simpl in H. by injection H as <- <-.
  - destruct Hc as (m & _ & Hc). rewrite Hc in H.
    destruct (setProcessor _ _ _ _ _) as [s1| |] eqn:Ep; try discriminate.
    simpl in H. injection H as <- <-.
    apply setProcessor_cases in Ep
      as [(_ & q & u & proc & _ & Eu & Ef & ->)|(_ & f & proc & Ef & Ep & ->)];
      simpl.
    + destruct (Forall_lookup_1 _ _ _ _ Hh Eu) as [Hf _].
      apply Forall_insert; [exact Hh|]. simpl. split; [exact Hf|].
      rewrite Hf in Ef. by injection Ef as <-.
    + apply processorFactories_lookup in Ef as ->.
      apply Forall_app. split; [exact Hh|]. apply Forall_singleton. simpl.
      split; [reflexivity|]. by injection Ep as <-.
  - destruct Hc as (m & _ & Hc). rewrite Hc in H.
    destruct (setData _ _ _) as [s1| |] eqn:Ed; try discriminate.
    simpl in H. injection H as <- <-.
    apply setData_cases in Ed as (q & u & _ & Eu & ->). simpl.
    apply Forall_insert; [exact Hh|]. simpl.
    exact (Forall_lookup_1 _ _ _ _ Hh Eu).
  - rewrite Hc in H. injection H as <- <-.
    by rewrite scanLines_heap_closePattern.
  - rewrite Hc in H. by injection H as <- <-.
Qed.

Lemma buildSong_all_basic lines d s :
  buildSong sc processorFactories lines d = Done s -> all_basic (heap s).
Proof.
  unfold buildSong. intros H.
  destruct (scanLines sc processorFactories lines (state_init d))
    as [s1| |] eqn:Hscan; try discriminate.
  simpl in H. injection H as <-. rewrite scanLines_heap_closePattern.
  refine (scanLines_inv sc processorFactories (fun x => all_basic (heap x))
            (fun _ => True) _ lines _ s1 _ _ Hscan).
  - intros line s0 fl s' _. apply all_basic_kept.
  - by apply Forall_true.
  - constructor.
Qed.

End SourceTable.

(** X10: with the processor table of the source, whose only factory
    returns the nil processor, [processFile] ends normally only for a file
    that builds an empty song, and then writes no sample; for every file
    that builds a pattern the render panics on the nil processor. *)
Theorem basic_table_render (sc : Strconv) (lines : list string) (d : Defaults)
    (s : State) :
  buildSong sc processorFactories lines d = Done s ->
  processFile sc processorFactories lines d =
  match song s with
  | [] => Done []
  | _ :: _ => Panicked NilDereference
  end.
Proof.
  intros Hb. unfold processFile. rewrite Hb. simpl.
  pose proof (buildSong_all_basic sc lines d s Hb) as Hall.
  destruct (proj2 (builder_never_panics_aux sc processorFactories lines d) s Hb)
    as (Hso & _ & _).
  pose proof (built_song_nonempty_aux sc processorFactories lines d s Hb) as Hne.
  destruct (song s) as [|pat pats]; [reflexivity|].
  apply Forall_cons in Hso as [Hpat _]. apply Forall_cons in Hne as [Hne _].
  destruct pat as [|p ps]; [contradiction|].
  apply Forall_cons in Hpat as [Hp _].
  destruct (lookup_lt_is_Some_2 _ _ Hp) as [t Ht].
  destruct (Forall_lookup_1 _ _ _ _ Hall Ht) as [_ Hproc].
  unfold renderSong. simpl. unfold renderPattern. simpl. rewrite Ht.
  unfold TrackProcess. rewrite Hproc. reflexivity.
Qed.

(** A witness: a file with one pattern. *)
Lemma basic_table_render_witness :
  processFile strconv processorFactories (open_pattern_lines ++ [" "%string])
    defaults_init
  = Panicked NilDereference.
Proof.
  apply (basic_table_render strconv (open_pattern_lines ++ [" "%string])
           defaults_init
           {| song := [[0%nat]]; pattern := []; track := None;
              heap := [trackOf basicSynthFactory None true defaults_init;
                       trackOf basicSynthFactory None true defaults_init];
              defaults := defaults_init |}).
  vm_compute. reflexivity.
Defined.

(** ** The write loop of the mixer *)

Lemma int_add_small a b :
  Int.in_range (a + b) -> Int.add a b = a + b.
Proof. apply wrap64_id. Qed.

Lemma addSamples_in_range samples :
  forall songSamples writePos i,
    0 <= writePos -> 0 <= i ->
    writePos + i + Z.of_nat (length samples) <= Z.of_nat (length songSamples) ->
    Z.of_nat (length songSamples) <= Int.max_int ->
    exists out,
      addSamples songSamples writePos i samples = Done out
      /\ length out = length songSamples
      /\ forall j, out !! j = mixed_at songSamples samples (writePos + i) j.
Proof.
  induction samples as [|x samples IH]; intros ss wp i Hwp Hi Hfit Hmax.
  - exists ss. split; [reflexivity|]. split; [reflexivity|].
    intros j. unfold mixed_at. simpl. case_bool_decide; [lia | reflexivity].
  - simpl length in Hfit. simpl.
    assert (Hr : Int.in_range (wp + i)).
    { unfold Int.in_range, Int.min_int, Int.max_int in *. lia. }
    rewrite (int_add_small _ _ Hr).
    assert (Hb : in_bounds (wp + i) ss = true).
    { unfold in_bounds. apply andb_true_iff. split; [apply Z.leb_le | apply Z.ltb_lt]; lia. }
    rewrite Hb.
    destruct (lookup_lt_is_Some_2 ss (Z.to_nat (wp + i))) as [y Hy]; [lia|].
    rewrite Hy.
    assert (Hr1 : Int.in_range (i + 1)).
    { unfold Int.in_range, Int.min_int, Int.max_int in *. lia. }
    rewrite (int_add_small _ _ Hr1).
    destruct (IH (<[Z.to_nat (wp + i) := F64.add y x]> ss) wp (i + 1))
      as (out & Hout & Hlen & Hat);
      [lia | lia | rewrite length_insert; lia | rewrite length_insert; lia |].
    exists out. split; [exact Hout|]. rewrite length_insert in Hlen.
    split; [exact Hlen|]. intros j. rewrite Hat. unfold mixed_at. simpl length.
    destruct (decide (j = Z.to_nat (wp + i))) as [->|Hne].
    + rewrite list_lookup_insert_eq by lia.
      rewrite bool_decide_eq_false_2 by lia.
      rewrite bool_decide_eq_true_2 by lia.
      rewrite Hy. simpl.
      replace (Z.to_nat (Z.of_nat (Z.to_nat (wp + i)) - (wp + i))) with 0%nat by lia.
      reflexivity.
    + rewrite list_lookup_insert_ne by congruence.
      repeat case_bool_decide; try lia; [|reflexivity].
      destruct (ss !! j) as [y'|]; [|reflexivity]. simpl.
      replace (Z.to_nat (Z.of_nat j - (wp + i)))
        with (S (Z.to_nat (Z.of_nat j - (wp + (i + 1))))) by lia.
      reflexivity.
Qed.

Lemma addSamples_overrun samples :
  forall songSamples writePos i,
    samples <> [] ->
    0 <= writePos -> 0 <= i ->
    writePos + i + Z.of_nat (length samples) <= Int.max_int ->
    Z.of_nat (length songSamples) < writePos + i + Z.of_nat (length samples) ->
    addSamples songSamples writePos i samples
    = Panicked (IndexOutOfRange (Z.max (writePos + i) (Z.of_nat (length songSamples)))
                  (length songSamples)).
Proof.
  induction samples as [|x samples IH]; intros ss wp i Hne Hwp Hi Hmax Hover;
    [contradiction|].
  simpl length in *. simpl.
  assert (Hr : Int.in_range (wp + i)).
  { unfold Int.in_range, Int.min_int, Int.max_int in *. lia. }
  rewrite (int_add_small _ _ Hr). unfold in_bounds.
  destruct (Z.ltb_spec (wp + i) (Z.of_nat (length ss))) as [Hlt|Hge].
  - replace (0 <=? wp + i) with true by (symmetry; apply Z.leb_le; lia). simpl.
    destruct (lookup_lt_is_Some_2 ss (Z.to_nat (wp + i))) as [y Hy]; [lia|].
    rewrite Hy.
    assert (Hr1 : Int.in_range (i + 1)).
    { unfold Int.in_range, Int.min_int, Int.max_int in *. lia. }
    rewrite (int_add_small _ _ Hr1).
    rewrite IH; [ | | lia | lia | lia | rewrite length_insert; lia].
    + rewrite length_insert. do 2 f_equal. lia.
    + destruct samples; [simpl in Hover; lia | discriminate].
  - rewrite andb_false_r. do 2 f_equal. lia.
Qed.

(** X11: when the window of [len(samples)] samples from [writePos] lies
    within the song buffer, the write loop ends normally: it keeps the
    length of the buffer, adds each scratch sample onto the sample at
    [writePos + i] (it does not overwrite), and leaves the samples outside
    the window as they were. *)
Theorem mix_adds_within_window (songSamples samples : list float64) (writePos : Z) :
  0 <= writePos ->
  writePos + Z.of_nat (length samples) <= Z.of_nat (length songSamples) ->
  Z.of_nat (length songSamples) <= Int.max_int ->
  exists out,
    addSamples songSamples writePos 0 samples = Done out
    /\ length out = length songSamples
    /\ forall j, out !! j = mixed_at songSamples samples writePos j.
Proof.
  intros Hwp Hfit Hmax.
  destruct (addSamples_in_range samples songSamples writePos 0)
    as (out & Hout & Hlen & Hat); [lia | lia | lia | lia |].
  exists out. split; [exact Hout|]. split; [exact Hlen|].
  intros j. rewrite Hat. by rewrite Z.add_0_r.
Qed.

(** A witness: two samples mixed at offset 1 of a buffer of four. *)
Lemma mix_adds_within_window_witness :
  exists out,
    addSamples [F64.of_Z 1; F64.of_Z 2; F64.of_Z 3; F64.of_Z 4] 1 0
      [F64.of_Z 10; F64.of_Z 20] = Done out
    /\ length out = 4%nat
    /\ forall j, out !! j
         = mixed_at [F64.of_Z 1; F64.of_Z 2; F64.of_Z 3; F64.of_Z 4]
             [F64.of_Z 10; F64.of_Z 20] 1 j.
Proof.
  apply (mix_adds_within_window
           [F64.of_Z 1; F64.of_Z 2; F64.of_Z 3; F64.of_Z 4]
           [F64.of_Z 10; F64.of_Z 20] 1);
    [lia | simpl; lia | vm_compute; discriminate].
Defined.

(** X12: when the window runs past the end of the song buffer, the write
    loop panics with an index out of range, at the first index outside
    the buffer: [writePos] itself when it lies outside, the length of the
    buffer otherwise. *)
Theorem mix_panics_past_end (songSamples samples : list float64) (writePos : Z) :
  samples <> [] ->
  0 <= writePos ->
  writePos + Z.of_nat (length samples) <= Int.max_int ->
  Z.of_nat (length songSamples) < writePos + Z.of_nat (length samples) ->
  addSamples songSamples writePos 0 samples
  = Panicked (IndexOutOfRange (Z.max writePos (Z.of_nat (length songSamples)))
                (length songSamples)).
Proof.
  intros Hne Hwp Hmax Hover.
  rewrite (addSamples_overrun samples songSamples writePos 0); try lia;
    [|exact Hne].
  by rewrite Z.add_0_r.
Qed.

(** A witness: three samples mixed at offset 1 of a buffer of two. *)
Lemma mix_panics_past_end_witness :
  addSamples [F64.of_Z 1; F64.of_Z 2] 1 0
    [F64.of_Z 10; F64.of_Z 20; F64.of_Z 30]
  = Panicked (IndexOutOfRange (Z.max 1 (Z.of_nat 2)) 2).
Proof.
  apply (mix_panics_past_end [F64.of_Z 1; F64.of_Z 2]
           [F64.of_Z 10; F64.of_Z 20; F64.of_Z 30] 1);
    [discriminate | lia | vm_compute; discriminate | simpl; lia].
Defined.

(** * parseFloat *)

Lemma substring_all s : substring 0 (String.length s) s = s.
Proof. induction s as [|c s IH]; simpl; [reflexivity | by rewrite IH]. Qed.

Lemma substring_prefix a rest :
  substring 0 (String.length a) (a ++ rest) = a.
Proof.
  induction a as [|c a IH]; simpl; [by destruct rest | by rewrite IH].
Qed.

Lemma substring_after_slash a b :
  substring (S (String.length a))
    (String.length (a ++ String "/" b) - S (String.length a))
    (a ++ String "/" b) = b.
Proof.
  induction a as [|c a IH]; simpl.
  - rewrite Nat.sub_0_r. apply substring_all.
  - exact IH.
Qed.

Lemma index_slash_cons c s :
  index 0 "/" (String c s) =
  if ascii_dec "/" c then Some 0%nat
  else match index 0 "/" s with Some n => Some (S n) | None => None end.
Proof.
  cbn -[ascii_dec]. destruct (ascii_dec "/" c); [by destruct s | reflexivity].
Qed.

Lemma index_first_slash a b :
  index 0 "/" a = None ->
  index 0 "/" (a ++ String "/" b) = Some (String.length a).
Proof.
  induction a as [|c a IH]; intros H.
  - change (index 0 "/" (String "/" b) = Some 0%nat).
    rewrite index_slash_cons. by destruct (ascii_dec "/" "/").
  - change (index 0 "/" (String c (a ++ String "/" b))
            = Some (S (String.length a))).
    rewrite index_slash_cons in *.
    destruct (ascii_dec "/" c); [discriminate|].
    destruct (index 0 "/" a) as [k|]; [discriminate|].
    by rewrite IH.
Qed.

(** X13: [parseFloat] splits its argument at the first slash only: a
    string without slash goes to [ParseFloat] whole; for [a/b] with no
    slash in [a] the result is the float64 quotient of the values of [a]
    and of all of [b], and a part that does not parse makes the whole
    fail. *)
Theorem parseFloat_splits_at_first_slash (sc : Strconv) (a b : string) :
  index 0 "/" a = None ->
  parseFloat sc a = ParseFloat sc a
  /\ parseFloat sc (a ++ String "/" b) =
     (nom ← ParseFloat sc a; denom ← ParseFloat sc b; Some (F64.div nom denom)).
Proof.
  intros H. unfold parseFloat. split; [by rewrite H|].
  rewrite (index_first_slash a b H), substring_prefix, substring_after_slash.
  reflexivity.
Qed.

(** A witness: [1/4] is a quarter, [1/4/2] fails on its denominator
    [4/2]. *)
Lemma parseFloat_splits_at_first_slash_witness :
  parseFloat strconv "1" = Some (F64.of_Z 1)
  /\ parseFloat strconv "1/4/2" = None.
Proof.
  apply (parseFloat_splits_at_first_slash strconv "1" "4/2"). reflexivity.
Defined.

(** X14: [parseFloat] has no guard for a zero denominator: when the
    denominator parses to a zero, a finite non-zero numerator gives an
    infinity and a zero numerator gives NaN, without error. *)
Theorem parseFloat_zero_denominator (sc : Strconv) (a b : string)
    (nom : float64) (sb : bool) :
  index 0 "/" a = None ->
  ParseFloat sc a = Some nom ->
  ParseFloat sc b = Some (S754_zero sb) ->
  parseFloat sc (a ++ String "/" b) =
  Some match nom with
       | S754_zero _ | S754_nan => S754_nan
       | S754_infinity sa | S754_finite sa _ _ => S754_infinity (xorb sa sb)
       end.
Proof.
  intros H Ha Hb. unfold parseFloat.
  rewrite (index_first_slash a b H), substring_prefix, substring_after_slash.
  rewrite Ha, Hb. simpl. by destruct nom.
Qed.

(** A witness: [bpm 1/0] is accepted and sets the tempo to +Inf. *)
Lemma parseFloat_zero_denominator_witness :
  parseFloat strconv "1/0" = Some (S754_infinity false).
Proof.
  apply (parseFloat_zero_denominator strconv "1" "0" (F64.of_Z 1) false);
    reflexivity.
Defined.

(** * The languages of the four expressions *)

Lemma data_pattern_complete line :
  ~ In newline (list_ascii_of_string line) ->
  drop (rune_width (list_ascii_of_string line)) (list_ascii_of_string line) <> [] ->
  is_Some (FindStringSubmatch setDataPattern line).
Proof.
  set (l := list_ascii_of_string line). intros Hnl Hrest.
  assert (Hne : l <> []) by (intros E; rewrite E in Hrest; by destruct (rune_width [])).
  eapply FindStringSubmatch_complete. unfold setDataPattern. fold l.
  eapply consumes_cat.
  - apply consumes_group. by apply consumes_dot_first.
  - eapply (consumes_group 2 (Plus dot) _ _ []).
    eapply (consumes_dots_all (length l)); [ | exact Hrest | ].
    + rewrite length_drop. lia.
    + intros Hin. apply Hnl. by apply in_drop in Hin.
Qed.

(** X15: a data line stores the text that follows its first rune under
    its first byte, in the data lines of the current track; the index
    [matches[1][0]] is always in range, and an earlier entry under the
    same byte is overwritten. *)
Theorem data_line_stores (sc : Strconv) (reg : gmap string ProcessorFactory)
    (line : string) (s : State) (p : ptr) (t : Track) :
  classify line = DataLine ->
  track s = Some p ->
  heap s !! p = Some t ->
  exists code rest,
    list_ascii_of_string line = code :: rest
    /\ processLine sc reg line s =
       Done (Next,
             {| song := song s; pattern := pattern s; track := track s;
                heap := <[p := with_data code
                                 (string_of_list_ascii
                                    (drop (rune_width (code :: rest)) (code :: rest)))
                                 t]> (heap s);
                defaults := defaults s |})
    /\ Track.data
         (with_data code
            (string_of_list_ascii (drop (rune_width (code :: rest)) (code :: rest))) t)
       !! code
       = Some (string_of_list_ascii (drop (rune_width (code :: rest)) (code :: rest))).
Proof.
  intros Hk Htr Ht.
  pose proof (processLine_cases sc reg line s) as Hc. rewrite Hk in Hc.
  destruct Hc as (m & Hm & Hc).
  destruct (data_pattern_sound line m Hm) as [Hrest ->].
  destruct (list_ascii_of_string line) as [|code rest] eqn:El.
  { exfalso. apply Hrest. by destruct (rune_width []). }
  exists code, rest. split; [reflexivity|]. split.
  - assert (Hw : (1 <= rune_width (code :: rest))%nat)
      by (by apply rune_width_pos).
    destruct (rune_width (code :: rest)) as [|w] eqn:Ew; [lia|].
    rewrite Hc. unfold setData. rewrite Htr, Ht. reflexivity.
  - simpl. apply lookup_insert_eq.
Qed.

(** A witness: the line [a1 2] after [:basic]. *)
Lemma data_line_stores_witness :
  exists code rest,
    list_ascii_of_string "a1 2" = code :: rest
    /\ processLine strconv processorFactories "a1 2"
         {| song := []; pattern := []; track := Some 0%nat;
            heap := [trackOf basicSynthFactory None true defaults_init];
            defaults := defaults_init |} =
       Done (Next,
             {| song := []; pattern := []; track := Some 0%nat;
                heap := <[0%nat := with_data code
                                 (string_of_list_ascii
                                    (drop (rune_width (code :: rest)) (code :: rest)))
                                 (trackOf basicSynthFactory None true defaults_init)]>
                          [trackOf basicSynthFactory None true defaults_init];
                defaults := defaults_init |})
    /\ Track.data
         (with_data code
            (string_of_list_ascii (drop (rune_width (code :: rest)) (code :: rest)))
            (trackOf basicSynthFactory None true defaults_init))
       !! code
       = Some (string_of_list_ascii (drop (rune_width (code :: rest)) (code :: rest))).
Proof.
  apply (data_line_stores strconv processorFactories "a1 2"
           {| song := []; pattern := []; track := Some 0%nat;
              heap := [trackOf basicSynthFactory None true defaults_init];
              defaults := defaults_init |} 0%nat); reflexivity.
Defined.

Lemma space_byte_width c rest :
  In c space_bytes -> rune_width (c :: rest) = 1%nat.
Proof.
  unfold space_bytes. simpl.
  intros [<-|[<-|[<-|[<-|[<-|[]]]]]]; reflexivity.
Qed.

(** X16: among the lines the scanner delivers (they hold no newline),
    the pattern separators are exactly the lines made of one tab, form
    feed, carriage return or space: the empty line is none, and neither
    is a longer run of blanks. *)
Theorem separator_lines (line : string) :
  ~ In newline (list_ascii_of_string line) ->
  classify line = Separator
  <-> exists c, In c separator_bytes /\ line = String c "".
Proof.
  intros Hnl. split.
  - unfold classify. repeat case_match; try discriminate. intros _.
    match goal with
    | H : MatchString emptyLinePattern line = true |- _ =>
        apply bool_decide_eq_true in H as [m Hm]
    end.
    match goal with
    | H : bool_decide (is_Some (FindStringSubmatch setDataPattern line)) = false |- _ =>
        apply bool_decide_eq_false in H; rename H into Hdata
    end.
    apply FindStringSubmatch_sound, consumes_spaces_inv in Hm
      as (run & Hl & Hne & Hrun & _).
    rewrite app_nil_r in Hl.
    destruct run as [|c rest]; [done|]. apply Forall_cons in Hrun as [Hc _].
    destruct rest as [|c2 rest].
    + exists c. split.
      * unfold space_bytes in Hc. unfold separator_bytes. simpl in *.
        destruct Hc as [<-|[<-|[<-|[<-|[<-|[]]]]]]; auto.
        exfalso. apply Hnl. rewrite Hl. by left.
      * rewrite <- (string_of_list_ascii_of_string line), Hl. reflexivity.
    + exfalso. apply Hdata. apply data_pattern_complete; [exact Hnl|].
      rewrite Hl, (space_byte_width c _ Hc). discriminate.
  - intros (c & Hc & ->). unfold separator_bytes in Hc. simpl in Hc.
    destruct Hc as [<-|[<-|[<-|[<-|[]]]]]; vm_compute; reflexivity.
Qed.

(** A witness: the line of one space. *)
Lemma separator_lines_witness :
  classify " " = Separator
  <-> exists c, In c separator_bytes /\ " "%string = String c "".
Proof.
  apply (separator_lines " "). vm_compute. intros [H|[]]. discriminate.
Defined.

(** A literal takes its own bytes and keeps the submatches. *)
Lemma consumes_lit_inv str :
  forall s cs s' cs',
    consumes (lit str) s cs s' cs' ->
    s = list_ascii_of_string str ++ s' /\ cs' = cs.
Proof.
  induction str as [|c str IH]; intros s cs s' cs' H.
  - inversion H; subst. by split.
  - change (lit (String c str)) with (Cat (Class false [c]) (lit str)) in H.
    inversion H as [| |r1 r2 s0 cs0 s1 cs1 s2 cs2 H1 H2| | | | | | |]; subst.
    apply consumes_members_inv in H1 as (c' & -> & [<-|[]] & ->).
    apply IH in H2 as [-> ->]. by split.
Qed.

Lemma take_app_own {A} (l1 l2 : list A) :
  take (length (l1 ++ l2) - length l2) (l1 ++ l2) = l1.
Proof.
  rewrite length_app, Nat.add_sub. apply take_app_length.
Qed.

Lemma consumes_cat_inv r1 r2 s cs s' cs' :
  consumes (Cat r1 r2) s cs s' cs' ->
  exists s1 cs1, consumes r1 s cs s1 cs1 /\ consumes r2 s1 cs1 s' cs'.
Proof. inversion 1; subst. eauto. Qed.

Lemma consumes_alt_inv r1 r2 s cs s' cs' :
  consumes (Alt r1 r2) s cs s' cs' ->
  consumes r1 s cs s' cs' \/ consumes r2 s cs s' cs'.
Proof. inversion 1; subst; auto. Qed.

Lemma consumes_opt_inv r s cs s' cs' :
  consumes (Opt r) s cs s' cs' ->
  consumes r s cs s' cs' \/ (s' = s /\ cs' = cs).
Proof. inversion 1; subst; auto. Qed.

Lemma consumes_group_inv i r s cs s' cs' :
  consumes (Group i r) s cs s' cs' ->
  exists cs0, consumes r s cs s' cs0
    /\ cs' = (i, take (length s - length s') s) :: cs0.
Proof. inversion 1; subst. eauto. Qed.

(** What a match of the global-setting expression looks like: one of the
    four keywords, a run of whitespace, and a value that is not empty. *)
Lemma global_pattern_sound line m :
  FindStringSubmatch setGlobalPattern line = Some m ->
  exists kw run value,
    In kw global_keywords
    /\ list_ascii_of_string line = list_ascii_of_string kw ++ run ++ value
    /\ run <> [] /\ Forall (fun c => In c space_bytes) run
    /\ value <> []
    /\ group m 1 = kw /\ group m 2 = string_of_list_ascii value.
Proof.
  intros H. apply FindStringSubmatch_sound in H.
  set (l := list_ascii_of_string line) in *. unfold setGlobalPattern in H.
  apply consumes_cat_inv in H as (s1 & cs1 & H1 & H2).
  apply consumes_cat_inv in H2 as (s2 & cs2 & H3 & H4).
  apply consumes_spaces_inv in H3 as (run & -> & Hrun & Hws & ->).
  apply consumes_group_inv in H4 as (cs3 & Hp & ->).
  apply consumes_dots_inv in Hp as [Hval ->].
  apply consumes_group_inv in H1 as (cs0 & Ha & ->).
  assert (Hkw : exists kw, In kw global_keywords
                  /\ l = list_ascii_of_string kw ++ run ++ s2 /\ cs0 = []).
  { unfold global_keywords.
    apply consumes_alt_inv in Ha as [Ha|Ha];
      [apply consumes_lit_inv in Ha as [-> ->]; eexists; simpl; eauto|].
    apply consumes_alt_inv in Ha as [Ha|Ha];
      [apply consumes_lit_inv in Ha as [-> ->]; eexists; simpl; eauto|].
    apply consumes_alt_inv in Ha as [Ha|Ha];
      [apply consumes_lit_inv in Ha as [-> ->]; eexists; simpl; eauto 6|].
    apply consumes_lit_inv in Ha as [-> ->]. eexists. simpl. eauto 7. }
  destruct Hkw as (kw & Hin & Hl & ->).
  exists kw, run, s2. repeat split; try assumption.
  - unfold group. cbn [submatch find fst snd Nat.eqb].
    rewrite Hl, take_app_own. apply string_of_list_ascii_of_string.
  - unfold group. cbn [submatch find fst snd Nat.eqb length].
    by rewrite Nat.sub_0_r, firstn_all.
Qed.

(** X17: a global-setting line is one of the four keywords, a run of
    whitespace and a non-empty value; it always reaches a case of the
    [switch]: either the value parses and the line changes the default it
    names and nothing else, or the file fails with the parse error of that
    keyword, carrying the value. *)
Theorem global_setting_line (sc : Strconv) (reg : gmap string ProcessorFactory)
    (line : string) (s : State) :
  classify line = GlobalSetting ->
  exists option run value,
    In option global_keywords
    /\ list_ascii_of_string line = list_ascii_of_string option ++ run ++ value
    /\ run <> [] /\ Forall (fun c => In c space_bytes) run /\ value <> []
    /\ match processLine sc reg line s with
       | Done (fl, s') =>
           fl = Next /\ s' = set_defaults (defaults s') s
           /\ changes_only option (defaults s) (defaults s')
       | Failed e => e = parse_error option (string_of_list_ascii value)
       | Panicked _ => False
       end.
Proof.
  intros Hk. pose proof (processLine_cases sc reg line s) as Hc.
  rewrite Hk in Hc. destruct Hc as (m & Hm & Hc).
  destruct (global_pattern_sound line m Hm)
    as (kw & run & value & Hin & Hl & Hrun & Hws & Hval & Hg1 & Hg2).
  exists kw, run, value. repeat (split; [assumption|]).
  rewrite Hc, Hg1, Hg2. unfold global_keywords in Hin. simpl in Hin.
  unfold setGlobal, parse_error, changes_only.
  destruct Hin as [<-|[<-|[<-|[<-|[]]]]]; simpl.
  - destruct (parseFloat sc _); simpl; [|reflexivity].
    repeat split; intros; congruence.
  - destruct (ParseInt sc _); simpl; [|reflexivity].
    repeat split; intros; congruence.
  - destruct (ParseInt sc _); simpl; [|reflexivity].
    repeat split; intros; congruence.
  - destruct (parseFloat sc _); simpl; [|reflexivity].
    repeat split; intros; congruence.
Qed.

(** A witness: the line [steps 8]. *)
Lemma global_setting_line_witness :
  exists option run value,
    In option global_keywords
    /\ list_ascii_of_string "steps 8" = list_ascii_of_string option ++ run ++ value
    /\ run <> [] /\ Forall (fun c => In c space_bytes) run /\ value <> []
    /\ match processLine strconv processorFactories "steps 8"
               (state_init defaults_init) with
       | Done (fl, s') =>
           fl = Next /\ s' = set_defaults (defaults s') (state_init defaults_init)
           /\ changes_only option defaults_init (defaults s')
       | Failed e => e = parse_error option (string_of_list_ascii value)
       | Panicked _ => False
       end.
Proof.
  apply (global_setting_line strconv processorFactories "steps 8"
           (state_init defaults_init)).
  reflexivity.
Defined.

Lemma rune_bytes_no_colon s :
  length (take (rune_width s) s) <> 1%nat ->
  ~ In colon (take (rune_width s) s).
Proof.
  destruct s as [|b0 [|b1 [|b2 [|b3 rest]]]]; unfold rune_width;
    repeat case_match; simpl; intros Hlen Hin; try lia;
    repeat match goal with
           | H : _ && _ = true |- _ => apply andb_true_iff in H as [? ?]
           end;
    repeat (destruct Hin as [->|Hin];
            [match goal with
             | H : context [colon] |- _ => vm_compute in H; discriminate H
             end|]);
    try contradiction.
Qed.

(** [[^:]] takes a rune that holds no colon. *)
Lemma consumes_notcolon_inv s cs s' cs' :
  consumes (Class true [colon]) s cs s' cs' ->
  exists pre, s = pre ++ s' /\ pre <> [] /\ ~ In colon pre /\ cs' = cs.
Proof.
  intros H. apply consumes_class_inv in H as (Hne & -> & -> & Hc).
  exists (take (rune_width s) s).
  split; [by rewrite take_drop|]. split; [|split; [|reflexivity]].
  - pose proof (rune_width_pos s Hne). destruct s; [done|].
    destruct (rune_width (a :: s)); [lia | discriminate].
  - destruct (decide (length (take (rune_width s) s) = 1%nat)) as [E|E];
      [|by apply rune_bytes_no_colon].
    destruct (take (rune_width s) s) as [|c [|c2 r]]; try discriminate.
    unfold class_matches in Hc. cbn [existsb xorb] in Hc.
    rewrite orb_false_r in Hc. intros [->|[]].
    vm_compute in Hc. discriminate.
Qed.

Lemma consumes_name_inv s cs s' cs' :
  consumes (Plus (Class true [colon])) s cs s' cs' ->
  exists pre, s = pre ++ s' /\ pre <> [] /\ ~ In colon pre /\ cs' = cs.
Proof.
  remember (Plus (Class true [colon])) as r eqn:Er. intros H.
  induction H as [| | | | | | |r s cs s' cs' H _
                 |r s cs s1 cs1 s' cs' H _ Hlt _ IH|]; try discriminate.
  - injection Er as ->. by apply consumes_notcolon_inv.
  - injection Er as ->.
    apply consumes_notcolon_inv in H as (pre & -> & Hne & Hnc & ->).
    destruct (IH eq_refl) as (pre2 & -> & _ & Hnc2 & ->).
    exists (pre ++ pre2). split; [by rewrite app_assoc|].
    split; [by destruct pre|]. split; [|reflexivity].
    rewrite in_app_iff. tauto.
Qed.

(** What a match of the processor expression looks like: the marker, a
    name without colon, and nothing more or a colon and arguments. *)
Lemma processor_pattern_sound line m :
  FindStringSubmatch setProcessorPattern line = Some m ->
  exists marker name args,
    In marker [colon; "+"%char] /\ ~ In colon name
    /\ list_ascii_of_string line = marker :: name ++ args_suffix args
    /\ group m 1 = String marker ""
    /\ group m 2 = string_of_list_ascii name
    /\ group m 3 = string_of_list_ascii args.
Proof.
  intros H. apply FindStringSubmatch_sound in H.
  set (l := list_ascii_of_string line) in *. unfold setProcessorPattern in H.
  apply consumes_cat_inv in H as (s1 & cs1 & H1 & H).
  apply consumes_cat_inv in H as (s2 & cs2 & H2 & H3).
  apply consumes_group_inv in H1 as (cs0 & H1 & ->).
  apply consumes_members_inv in H1 as (marker & Hl & Hmarker & ->).
  rewrite Hl in *. clear Hl.
  replace (take (length (marker :: s1) - length s1) (marker :: s1))
    with [marker] in *
    by (simpl length; replace (S (length s1) - length s1)%nat with 1%nat by lia;
        reflexivity).
  assert (Hname : exists name, ~ In colon name /\ s1 = name ++ s2
            /\ (cs2 = (2%nat, name) :: [(1%nat, [marker])] /\ name <> []
                \/ cs2 = [(1%nat, [marker])] /\ name = [])).
  { apply consumes_opt_inv in H2 as [H2|[-> ->]].
    - apply consumes_group_inv in H2 as (cs3 & H2 & ->).
      apply consumes_name_inv in H2 as (name & -> & Hne & Hnc & ->).
      exists name. rewrite take_app_own. auto.
    - exists []. auto. }
  destruct Hname as (name & Hnc & -> & Hcs2).
  assert (Hargs : exists args, s2 = args_suffix args
            /\ (m = (3%nat, args) :: cs2 /\ args <> [] \/ m = cs2 /\ args = [])).
  { apply consumes_opt_inv in H3 as [H3|[<- ->]].
    - apply consumes_cat_inv in H3 as (s3 & cs3 & Hc & Hg).
      apply (consumes_lit_inv ":") in Hc as [-> ->].
      apply consumes_group_inv in Hg as (cs4 & Hg & ->).
      apply consumes_dots_inv in Hg as [Hne ->].
      exists s3. simpl length. rewrite Nat.sub_0_r, firstn_all.
      split; [by destruct s3|]. auto.
    - exists []. auto. }
  destruct Hargs as (args & -> & Hm).
  exists marker, name, args. repeat split; try assumption;
    destruct Hm as [[-> Ha]|[-> ->]], Hcs2 as [[-> Hn]|[-> ->]];
    reflexivity.
Qed.

Lemma marker_eqb marker :
  In marker [colon; "+"%char] ->
  String.eqb (String marker "") "+" = Ascii.eqb marker "+".
Proof. intros [<-|[<-|[]]]; reflexivity. Qed.

(** X18: a processor directive is a marker [:] or [+], a name without
    colon (empty for a reuse) and, optionally, a colon and non-empty
    arguments; the branch is run with that name and those arguments, and
    the track is a clearing one unless the marker is [+]. *)
Theorem processor_directive_line (sc : Strconv)
    (reg : gmap string ProcessorFactory) (line : string) (s : State) :
  classify line = ProcessorDirective ->
  exists marker name args,
    In marker [colon; "+"%char] /\ ~ In colon name
    /\ list_ascii_of_string line = marker :: name ++ args_suffix args
    /\ directive_name line = string_of_list_ascii name
    /\ processLine sc reg line s =
       (s' ← setProcessor reg (negb (Ascii.eqb marker "+"))
               (string_of_list_ascii name) (string_of_list_ascii args) s;
        Done (Next, s')).
Proof.
  intros Hk. pose proof (processLine_cases sc reg line s) as Hc.
  rewrite Hk in Hc. destruct Hc as (m & Hm & Hc).
  destruct (processor_pattern_sound line m Hm)
    as (marker & name & args & Hmarker & Hnc & Hl & Hg1 & Hg2 & Hg3).
  exists marker, name, args. repeat (split; [assumption|]). split.
  - unfold directive_name. by rewrite Hm.
  - by rewrite Hc, Hg1, Hg2, Hg3, marker_eqb.
Qed.

(** A witness: the line [+basic:a:b]. *)
Lemma processor_directive_line_witness :
  exists marker name args,
    In marker [colon; "+"%char] /\ ~ In colon name
    /\ list_ascii_of_string "+basic:a:b" = marker :: name ++ args_suffix args
    /\ directive_name "+basic:a:b" = string_of_list_ascii name
    /\ processLine strconv processorFactories "+basic:a:b"
         (state_init defaults_init) =
       (s' ← setProcessor processorFactories (negb (Ascii.eqb marker "+"))
               (string_of_list_ascii name) (string_of_list_ascii args)
               (state_init defaults_init);
        Done (Next, s')).
Proof.
  apply (processor_directive_line strconv processorFactories "+basic:a:b"
           (state_init defaults_init)).
  reflexivity.
Defined.

Lemma rune_width_le s : (rune_width s <= length s)%nat.
Proof.
  destruct s as [|b0 [|b1 [|b2 [|b3 rest]]]]; unfold rune_width;
    repeat case_match; simpl; lia.
Qed.

(** A rune does not reach over a colon. *)
Lemma rune_width_aligned name t :
  name <> [] -> (rune_width (name ++ colon :: t) <= length name)%nat.
Proof.
  destruct name as [|b0 [|b1 [|b2 [|b3 rest]]]]; [done|..]; intros _;
    unfold rune_width; simpl app; repeat case_match; simpl length; try lia;
    simplify_eq;
    repeat match goal with
           | H : _ && _ = true |- _ => apply andb_true_iff in H as [? ?]
           end;
    match goal with
    | H : context [colon] |- _ => vm_compute in H; discriminate H
    end.
Qed.

(** [[^:]+] can take a non-empty text without colon, up to the end or to
    a colon. *)
Lemma consumes_name_all n :
  forall name tail cs,
    (length name <= n)%nat -> name <> [] -> ~ In colon name ->
    tail = [] \/ (exists t, tail = colon :: t) ->
    consumes (Plus (Class true [colon])) (name ++ tail) cs tail cs.
Proof.
  induction n as [|n IH]; intros name tail cs Hlen Hne Hnc Htail.
  { destruct name; [done | simpl in Hlen; lia]. }
  set (w := rune_width (name ++ tail)).
  assert (Hw : (1 <= w <= length name)%nat).
  { split; [apply rune_width_pos; by destruct name|]. subst w.
    destruct Htail as [->|[t ->]];
      [rewrite app_nil_r; apply rune_width_le | by apply rune_width_aligned]. }
  assert (Hstep : consumes (Class true [colon]) (name ++ tail) cs
                    (drop w name ++ tail) cs).
  { replace (drop w name ++ tail) with (drop w (name ++ tail))
      by (rewrite drop_app_le by lia; reflexivity).
    constructor; fold w; [lia|]. rewrite take_app_le by lia.
    unfold class_matches.
    destruct (take w name) as [|c [|c2 r]] eqn:Et; try reflexivity.
    cbn [existsb xorb]. rewrite orb_false_r.
    destruct (Ascii.eqb c colon) eqn:E; [|reflexivity].
    apply Ascii.eqb_eq in E. exfalso. apply Hnc.
    apply (in_take name w). rewrite Et. by left. }
  destruct (drop w name) as [|c rest] eqn:Ed.
  - by apply consumes_plus_once.
  - eapply consumes_plus_more; [exact Hstep | | ].
    + rewrite <- Ed, !length_app, length_drop. lia.
    + apply IH; [ | done | | exact Htail].
      * rewrite <- Ed, length_drop. lia.
      * intros Hin. apply Hnc. apply (in_drop name w). by rewrite Ed.
Qed.

(** A name ends at the first colon: the split of a directive into name
    and arguments is unique. *)
Lemma name_args_unique name1 :
  forall name2 args1 args2,
    ~ In colon name1 -> ~ In colon name2 ->
    name1 ++ args_suffix args1 = name2 ++ args_suffix args2 ->
    name1 = name2 /\ args1 = args2.
Proof.
  induction name1 as [|x name1 IH]; intros name2 args1 args2 H1 H2 E.
  - destruct name2 as [|y name2].
    + simpl in E. destruct args1, args2; try discriminate; [done|].
      injection E as -> ->. by split.
    + exfalso. destruct args1; simpl in E; [discriminate|].
      injection E as <- _. apply H2. by left.
  - destruct name2 as [|y name2].
    + exfalso. destruct args2; simpl in E; [discriminate|].
      injection E as -> _. apply H1. by left.
    + simpl in E. injection E as <- E.
      destruct (IH name2 args1 args2) as [-> ->]; [ | | exact E | done].
      * intros Hin. apply H1. by right.
      * intros Hin. apply H2. by right.
Qed.

(** A class that is not negated takes a member byte that starts no
    multi-byte sequence. *)
Lemma consumes_byte c members rest cs :
  byte_val c < 194 -> In c members ->
  consumes (Class false members) (c :: rest) cs rest cs.
Proof.
  intros Hc Hin.
  assert (Hw : rune_width (c :: rest) = 1%nat).
  { unfold rune_width. by rewrite (proj2 (Z.ltb_lt _ _) Hc). }
  replace rest with (drop (rune_width (c :: rest)) (c :: rest)) at 2
    by (by rewrite Hw).
  constructor; rewrite Hw; [done|]. simpl.
  apply existsb_exists. exists c. split; [exact Hin | apply Ascii.eqb_refl].
Qed.

Lemma marker_small marker : In marker [colon; "+"%char] -> byte_val marker < 194.
Proof. intros [<-|[<-|[]]]; vm_compute; reflexivity. Qed.

(** Every line of the shape marker, name, optional colon and arguments
    is matched by the processor expression. *)
Lemma processor_pattern_complete line marker name args :
  In marker [colon; "+"%char] -> ~ In colon name -> ~ In newline args ->
  list_ascii_of_string line = marker :: name ++ args_suffix args ->
  is_Some (FindStringSubmatch setProcessorPattern line).
Proof.
  intros Hmarker Hnc Hnl Hl.
  assert (Htail : args_suffix args = [] \/ exists t, args_suffix args = colon :: t).
  { destruct args; [by left | right; by eexists]. }
  pose proof (consumes_group 1 _ _ _ _ _
                (consumes_byte marker [colon; "+"%char]
                   (name ++ args_suffix args) [] (marker_small _ Hmarker) Hmarker))
    as H1.
  set (cs1 := (1%nat, _) :: []) in H1.
  assert (H2 : exists cs2,
            consumes (Opt (Group 2 (Plus (Class true [colon]))))
              (name ++ args_suffix args) cs1 (args_suffix args) cs2).
  { destruct (decide (name = [])) as [->|Hne].
    - eexists. apply consumes_opt_none.
    - eexists. apply consumes_opt_some, consumes_group.
      by apply (consumes_name_all (length name)). }
  destruct H2 as [cs2 H2].
  assert (H3 : exists cs3,
            consumes (Opt (Cat (lit ":") (Group 3 (Plus dot))))
              (args_suffix args) cs2 [] cs3).
  { destruct (decide (args = [])) as [->|Hne].
    - eexists. apply consumes_opt_none.
    - replace (args_suffix args) with (colon :: args) by (by destruct args).
      eexists. apply consumes_opt_some.
      apply (consumes_cat _ _ _ _ args cs2).
      + apply (consumes_cat _ _ _ _ args cs2); [|apply consumes_eps].
        apply consumes_byte; [vm_compute; reflexivity | by left].
      + apply consumes_group. by apply (consumes_dots_all (length args)). }
  destruct H3 as [cs3 H3].
  apply (FindStringSubmatch_complete _ _ cs3). rewrite Hl.
  unfold setProcessorPattern.
  eapply consumes_cat; [exact H1|]. eapply consumes_cat; [exact H2 | exact H3].
Qed.

Lemma first_byte_of_keyword kw rest :
  In kw global_keywords ->
  exists c tail, list_ascii_of_string kw ++ rest = c :: tail
    /\ (c = "b"%char \/ c = "s"%char).
Proof.
  unfold global_keywords. simpl.
  intros [<-|[<-|[<-|[<-|[]]]]]; simpl; eauto.
Qed.

(** A line of the shape of a processor directive takes the directive
    branch, with the name and the arguments it spells. *)
Lemma directive_line_runs (sc : Strconv)
    (reg : gmap string ProcessorFactory) (line : string) (s : State)
    (marker : ascii) (name args : bytes) :
  In marker [colon; "+"%char] -> ~ In colon name -> ~ In newline args ->
  list_ascii_of_string line = marker :: name ++ args_suffix args ->
  classify line = ProcessorDirective
  /\ directive_name line = string_of_list_ascii name
  /\ processLine sc reg line s =
     (s' ← setProcessor reg (negb (Ascii.eqb marker "+"))
             (string_of_list_ascii name) (string_of_list_ascii args) s;
      Done (Next, s')).
Proof.
  intros Hmarker Hnc Hnl Hl.
  destruct (processor_pattern_complete line marker name args Hmarker Hnc Hnl Hl)
    as [m Hm].
  assert (Hk : classify line = ProcessorDirective).
  { unfold classify.
    assert (N1 : String.eqb line ">>" = false).
    { apply String.eqb_neq. intros ->. simpl in Hl. injection Hl as <- _.
      destruct Hmarker as [E|[E|[]]]; discriminate. }
    assert (N2 : String.eqb line "<<" = false).
    { apply String.eqb_neq. intros ->. simpl in Hl. injection Hl as <- _.
      destruct Hmarker as [E|[E|[]]]; discriminate. }
    rewrite N1, N2.
    destruct (FindStringSubmatch setGlobalPattern line) as [g|] eqn:Eg.
    { exfalso. apply global_pattern_sound in Eg
        as (kw & run & value & Hin & Hg & _).
      destruct (first_byte_of_keyword kw (run ++ value) Hin)
        as (c & tail & Hc & Hbs).
      rewrite Hg, Hc in Hl. injection Hl as -> _.
      destruct Hmarker as [E|[E|[]]], Hbs as [E'|E']; rewrite E' in E;
        vm_compute in E; discriminate E. }
    rewrite bool_decide_eq_false_2 by (by intros [? ?]).
    rewrite Hm. by rewrite bool_decide_eq_true_2 by (by eexists). }
  split; [exact Hk|].
  destruct (processor_pattern_sound line m Hm)
    as (marker' & name' & args' & Hmarker' & Hnc' & Hl' & Hg1 & Hg2 & Hg3).
  rewrite Hl in Hl'. injection Hl' as <- Hrest.
  destruct (name_args_unique name name' args args' Hnc Hnc' Hrest) as [<- <-].
  split.
  - unfold directive_name. by rewrite Hm.
  - pose proof (processLine_cases sc reg line s) as Hc. rewrite Hk in Hc.
    destruct Hc as (m' & Hm' & Hc). rewrite Hm in Hm'. injection Hm' as <-.
    by rewrite Hc, Hg1, Hg2, Hg3, marker_eqb.
Qed.

(** X19: every line made of a marker [:] or [+], a name without colon
    and either nothing more or a colon and non-empty arguments (without
    newline) is a processor directive, and the branch is run with exactly
    that name and those arguments: the name ends at the first colon, the
    arguments may hold further colons. *)
Theorem processor_directive_shape (sc : Strconv)
    (reg : gmap string ProcessorFactory) (line : string) (s : State)
    (marker : ascii) (name args : bytes) :
  In marker [colon; "+"%char] -> ~ In colon name -> ~ In newline args ->
  list_ascii_of_string line = marker :: name ++ args_suffix args ->
  classify line = ProcessorDirective
  /\ directive_name line = string_of_list_ascii name
  /\ processLine sc reg line s =
     (s' ← setProcessor reg (negb (Ascii.eqb marker "+"))
             (string_of_list_ascii name) (string_of_list_ascii args) s;
      Done (Next, s')).
Proof. exact (directive_line_runs sc reg line s marker name args). Qed.

(** A witness: the line [:basic:a:b] calls the factory of [basic] with
    the arguments [a:b]. *)
Lemma processor_directive_shape_witness :
  classify ":basic:a:b" = ProcessorDirective
  /\ directive_name ":basic:a:b" = "basic"%string
  /\ processLine strconv processorFactories ":basic:a:b"
       (state_init defaults_init) =
     (s' ← setProcessor processorFactories (negb (Ascii.eqb colon "+"))
             "basic" "a:b" (state_init defaults_init);
      Done (Next, s')).
Proof.
  apply (processor_directive_shape strconv processorFactories ":basic:a:b"
           (state_init defaults_init) colon
           (list_ascii_of_string "basic") (list_ascii_of_string "a:b")).
  - by left.
  - vm_compute. intuition discriminate.
  - vm_compute. intuition discriminate.
  - reflexivity.
Defined.

(** ** The greedy path of the matcher *)

Lemma plus_loop_S step k fuel s cs :
  plus_loop step k (S fuel) s cs =
  step s cs (fun s' cs' =>
    if (length s' <? length s)%nat then
      match plus_loop step k fuel s' cs' with
      | Some res => Some res
      | None => k s' cs'
      end
    else k s' cs').
Proof. reflexivity. Qed.

Lemma rmatch_class negated members s cs K :
  rmatch (Class negated members) s cs K =
  match rune_width s with
  | O => None
  | S n => if class_matches negated members (take (S n) s)
           then K (drop (S n) s) cs else None
  end.
Proof. reflexivity. Qed.

Lemma rmatch_space_byte c rest cs K :
  In c space_bytes -> rmatch space (c :: rest) cs K = K rest cs.
Proof.
  intros Hc. unfold space. rewrite rmatch_class, (space_byte_width c rest Hc).
  cbn [firstn skipn class_matches xorb].
  replace (existsb (Ascii.eqb c) _) with true; [reflexivity|].
  symmetry. apply existsb_exists. exists c. split; [exact Hc | apply Ascii.eqb_refl].
Qed.

Lemma rmatch_space_none value cs K :
  match value with [] => True | v0 :: _ => ~ In v0 space_bytes end ->
  rmatch space value cs K = None.
Proof.
  intros H. unfold space. rewrite rmatch_class.
  destruct (rune_width value) as [|w] eqn:Ew; [reflexivity|].
  destruct value as [|v0 vs]; [discriminate|]. unfold class_matches.
  destruct (take (S w) (v0 :: vs)) as [|c [|c2 r]] eqn:Et; try reflexivity.
  simpl in Et. injection Et as <- _. cbn [xorb].
  destruct (existsb (Ascii.eqb v0) _) eqn:E; [|reflexivity].
  apply existsb_exists in E as (x & Hin & Hx). apply Ascii.eqb_eq in Hx as <-.
  contradiction.
Qed.

(** [\s+] followed by something that needs a byte which is no
    whitespace: the run is taken whole. *)
Lemma plus_space_exact run :
  forall value cs k fuel,
    run <> [] -> Forall (fun c => In c space_bytes) run ->
    match value with [] => True | v0 :: _ => ~ In v0 space_bytes end ->
    is_Some (k value cs) ->
    (length (run ++ value) < fuel)%nat ->
    plus_loop (rmatch space) k fuel (run ++ value) cs = k value cs.
Proof.
  induction run as [|c run IH]; intros value cs k fuel Hne Hws Hval Hk Hfuel;
    [done|].
  apply Forall_cons in Hws as [Hc Hws].
  destruct fuel as [|fuel]; [simpl in Hfuel; lia|].
  change ((c :: run) ++ value) with (c :: run ++ value) in *.
  rewrite plus_loop_S, (rmatch_space_byte c _ _ _ Hc).
  replace (length (run ++ value) <? length (c :: run ++ value))%nat
    with true by (symmetry; apply Nat.ltb_lt; simpl; lia).
  destruct run as [|c2 run'].
  - change ([] ++ value) with value in *.
    destruct fuel as [|fuel]; [simpl in Hfuel; lia|].
    rewrite plus_loop_S, rmatch_space_none by exact Hval. reflexivity.
  - rewrite IH; [ | done | exact Hws | exact Hval | exact Hk | simpl in *; lia].
    by destruct Hk as [res ->].
Qed.

(** [.+] followed by the end of the text: a text without newline is
    taken whole. *)
Lemma plus_dot_exact n :
  forall s cs k fuel,
    (length s <= n)%nat -> s <> [] -> ~ In newline s ->
    is_Some (k [] cs) -> (length s < fuel)%nat ->
    plus_loop (rmatch dot) k fuel s cs = k [] cs.
Proof.
  induction n as [|n IH]; intros s cs k fuel Hlen Hne Hnl Hk Hfuel.
  { destruct s; [done | simpl in Hlen; lia]. }
  destruct fuel as [|fuel]; [lia|].
  pose proof (consumes_dot_first s cs Hne Hnl) as Hd.
  apply consumes_class_inv in Hd as (_ & _ & _ & Hc).
  pose proof (rune_width_pos s Hne) as Hw.
  rewrite plus_loop_S. unfold dot at 1. rewrite rmatch_class. fold dot.
  destruct (rune_width s) as [|w] eqn:Ew; [lia|]. rewrite Hc.
  assert (Hlt : (length (drop (S w) s) < length s)%nat).
  { rewrite length_drop. assert (length s <> 0%nat) by (by destruct s). lia. }
  rewrite (proj2 (Nat.ltb_lt _ _) Hlt).
  destruct (drop (S w) s) as [|c rest] eqn:Ed.
  - destruct fuel; [by destruct Hk as [res ->]|].
    rewrite plus_loop_S. unfold dot at 1. rewrite rmatch_class.
    by destruct Hk as [res ->].
  - rewrite IH; [by destruct Hk as [res ->] | | done | | exact Hk | ].
    + rewrite <- Ed, length_drop. lia.
    + intros Hin. apply Hnl. apply (in_drop s (S w)). by rewrite Ed.
    + lia.
Qed.

Lemma rmatch_cat r1 r2 s cs k :
  rmatch (Cat r1 r2) s cs k = rmatch r1 s cs (fun s' cs' => rmatch r2 s' cs' k).
Proof. reflexivity. Qed.

Lemma rmatch_group i r s cs k :
  rmatch (Group i r) s cs k =
  rmatch r s cs (fun s' cs' => k s' ((i, take (length s - length s') s) :: cs')).
Proof. reflexivity. Qed.

Lemma rmatch_alt r1 r2 s cs k :
  rmatch (Alt r1 r2) s cs k =
  match rmatch r1 s cs k with
  | Some res => Some res
  | None => rmatch r2 s cs k
  end.
Proof. reflexivity. Qed.

(** Whitespace and value after the keyword: the whitespace is taken
    whole and the value is all that follows. *)
Lemma global_tail_exact run value cs :
  run <> [] -> Forall (fun c => In c space_bytes) run ->
  value <> [] -> ~ In newline value ->
  match value with [] => True | v0 :: _ => ~ In v0 space_bytes end ->
  rmatch (Cat (Plus space) (Group 2 (Plus dot))) (run ++ value) cs at_end
  = Some ((2%nat, value) :: cs).
Proof.
  intros Hrun Hws Hval Hnl Hv0.
  assert (Hk : rmatch (Group 2 (Plus dot)) value cs at_end
               = Some ((2%nat, value) :: cs)).
  { rewrite rmatch_group, rmatch_plus.
    rewrite (plus_dot_exact (length value));
      [ | lia | done | done | by eexists | lia].
    simpl. by rewrite Nat.sub_0_r, firstn_all. }
  rewrite rmatch_cat, rmatch_plus.
  rewrite plus_space_exact;
    [exact Hk | done | done | done | rewrite Hk; by eexists | lia].
Qed.

Lemma global_match_exact kw run value :
  In kw global_keywords ->
  run <> [] -> Forall (fun c => In c space_bytes) run ->
  value <> [] -> ~ In newline value ->
  match value with [] => True | v0 :: _ => ~ In v0 space_bytes end ->
  rmatch setGlobalPattern (list_ascii_of_string kw ++ run ++ value) [] at_end
  = Some [(2%nat, value); (1%nat, list_ascii_of_string kw)].
Proof.
  intros Hkw Hrun Hws Hval Hnl Hv0.
  pose proof (fun cs => global_tail_exact run value cs Hrun Hws Hval Hnl Hv0) as Ht.
  unfold setGlobalPattern. rewrite rmatch_cat, rmatch_group.
  unfold global_keywords in Hkw. simpl in Hkw.
  destruct Hkw as [<-|[<-|[<-|[<-|[]]]]].
  - rewrite rmatch_alt.
    replace (rmatch (lit "bpm") _ _ _)
      with (rmatch (Cat (Plus space) (Group 2 (Plus dot))) (run ++ value)
              [(1%nat, take (length (list_ascii_of_string "bpm" ++ run ++ value)
                             - length (run ++ value))
                         (list_ascii_of_string "bpm" ++ run ++ value))] at_end)
      by reflexivity.
    by rewrite take_app_own, Ht.
  - rewrite rmatch_alt.
    replace (rmatch (lit "bpm") _ _ _) with (@None captures) by reflexivity.
    rewrite rmatch_alt.
    replace (rmatch (lit "sr") _ _ _)
      with (rmatch (Cat (Plus space) (Group 2 (Plus dot))) (run ++ value)
              [(1%nat, take (length (list_ascii_of_string "sr" ++ run ++ value)
                             - length (run ++ value))
                         (list_ascii_of_string "sr" ++ run ++ value))] at_end)
      by reflexivity.
    by rewrite take_app_own, Ht.
  - rewrite rmatch_alt.
    replace (rmatch (lit "bpm") _ _ _) with (@None captures) by reflexivity.
    rewrite rmatch_alt.
    replace (rmatch (lit "sr") _ _ _) with (@None captures) by reflexivity.
    rewrite rmatch_alt.
    replace (rmatch (lit "steps") _ _ _)
      with (rmatch (Cat (Plus space) (Group 2 (Plus dot))) (run ++ value)
              [(1%nat, take (length (list_ascii_of_string "steps" ++ run ++ value)
                             - length (run ++ value))
                         (list_ascii_of_string "steps" ++ run ++ value))] at_end)
      by reflexivity.
    by rewrite take_app_own, Ht.
  - rewrite rmatch_alt.
    replace (rmatch (lit "bpm") _ _ _) with (@None captures) by reflexivity.
    rewrite rmatch_alt.
    replace (rmatch (lit "sr") _ _ _) with (@None captures) by reflexivity.
    rewrite rmatch_alt.
    replace (rmatch (lit "steps") _ _ _) with (@None captures).
    2:{ destruct run as [|c run']; [done|]. apply Forall_cons in Hws as [Hc _].
        unfold space_bytes in Hc. simpl in Hc.
        destruct Hc as [<-|[<-|[<-|[<-|[<-|[]]]]]]; reflexivity. }
    replace (rmatch (lit "step") _ _ _)
      with (rmatch (Cat (Plus space) (Group 2 (Plus dot))) (run ++ value)
              [(1%nat, take (length (list_ascii_of_string "step" ++ run ++ value)
                             - length (run ++ value))
                         (list_ascii_of_string "step" ++ run ++ value))] at_end)
      by reflexivity.
    by rewrite take_app_own, Ht.
Qed.

(** X20: a line made of one of the keywords [bpm], [sr], [steps],
    [step], a run of whitespace and a value that does not begin with
    whitespace is a global setting of that keyword with exactly that
    value: all the whitespace is skipped, [steps] is not taken for [step],
    and the value reaches the parser with its inner and trailing blanks. *)
Theorem global_setting_shape (sc : Strconv) (reg : gmap string ProcessorFactory)
    (line : string) (s : State) (kw : string) (run : bytes) (v0 : ascii)
    (vs : bytes) :
  In kw global_keywords ->
  run <> [] -> Forall (fun c => In c space_bytes) run ->
  ~ In v0 space_bytes -> ~ In newline (v0 :: vs) ->
  list_ascii_of_string line = list_ascii_of_string kw ++ run ++ v0 :: vs ->
  classify line = GlobalSetting
  /\ processLine sc reg line s =
     (d ← setGlobal sc kw (string_of_list_ascii (v0 :: vs)) (defaults s);
      Done (Next, set_defaults d s)).
Proof.
  intros Hkw Hrun Hws Hv0 Hnl Hl.
  assert (Hm : FindStringSubmatch setGlobalPattern line
               = Some [(2%nat, v0 :: vs); (1%nat, list_ascii_of_string kw)]).
  { unfold FindStringSubmatch. rewrite Hl.
    by apply (global_match_exact kw run (v0 :: vs)). }
  destruct (first_byte_of_keyword kw (run ++ v0 :: vs) Hkw) as (c & tail & Hc & Hbs).
  assert (N1 : String.eqb line ">>" = false).
  { apply String.eqb_neq. intros ->. rewrite Hc in Hl. simpl in Hl.
    injection Hl as <- _. destruct Hbs; discriminate. }
  assert (N2 : String.eqb line "<<" = false).
  { apply String.eqb_neq. intros ->. rewrite Hc in Hl. simpl in Hl.
    injection Hl as <- _. destruct Hbs; discriminate. }
  split.
  - unfold classify. rewrite N1, N2, Hm.
    by rewrite bool_decide_eq_true_2 by (by eexists).
  - unfold processLine. rewrite N1, N2, Hm. unfold group.
    cbn [submatch find fst snd Nat.eqb].
    by rewrite string_of_list_ascii_of_string.
Qed.

(** A witness: [steps], a tab and a space, and [16 x]. *)
Lemma global_setting_shape_witness :
  classify (String.append "steps" (String (ascii_of_nat 9) " 16 x")) = GlobalSetting
  /\ processLine strconv processorFactories
       (String.append "steps" (String (ascii_of_nat 9) " 16 x"))
       (state_init defaults_init) =
     (d ← setGlobal strconv "steps" (string_of_list_ascii (list_ascii_of_string "16 x"))
            (defaults (state_init defaults_init));
      Done (Next, set_defaults d (state_init defaults_init))).
Proof.
  apply (global_setting_shape strconv processorFactories
           (String.append "steps" (String (ascii_of_nat 9) " 16 x"))
           (state_init defaults_init) "steps" [ascii_of_nat 9; " "%char]
           "1"%char (list_ascii_of_string "6 x")).
  - right. right. left. reflexivity.
  - discriminate.
  - constructor; [left; reflexivity|]. constructor; [|constructor].
    do 4 right. left. reflexivity.
  - vm_compute. intuition discriminate.
  - vm_compute. intuition discriminate.
  - reflexivity.
Defined.

(** * The track loop *)

Section TrackLoop.

Variable h : list Track.
Variable sr_now : Z.

Lemma renderTracks_app before after :
  forall samples frames,
    renderTracks h sr_now (before ++ after) samples frames =
    ('(samples1, frames1) ← renderTracks h sr_now before samples frames;
     renderTracks h sr_now after samples1 frames1).
Proof.
  induction before as [|p before IH]; intros samples frames; simpl; [reflexivity|].
  destruct (h !! p) as [t|]; [|reflexivity].
  destruct (TrackProcess t _) as [samples1| |]; simpl; [apply IH | reflexivity..].
Qed.

Lemma Clear_by_length (a b : SampleBuffer) :
  length a = length b -> Clear a = Clear b.
Proof.
  revert b. induction a as [|x a IH]; intros [|y b] H; try discriminate;
    [reflexivity|].
  simpl. f_equal. apply IH. by injection H.
Qed.

End TrackLoop.

(** X21: a clearing track erases what the tracks before it have put into
    the scratch buffer: the loop goes on as if it had started at that
    track with the buffer it was given; of the earlier tracks only the
    running maximum of the frame counts is kept. *)
Theorem clearing_track_erases (h : list Track) (sr_now : Z)
    (before after : Pattern) (p : ptr) (t : Track)
    (samples samples1 : SampleBuffer) (frames frames1 : Z) :
  renderTracks h sr_now before samples frames = Done (samples1, frames1) ->
  h !! p = Some t ->
  Track.clear t = true ->
  renderTracks h sr_now (before ++ p :: after) samples frames
  = renderTracks h sr_now (p :: after) samples frames1.
Proof.
  intros Hb Ht Hc. rewrite renderTracks_app, Hb. simpl. rewrite Ht, Hc.
  apply renderTracks_result in Hb as [Hlen _].
  by rewrite (Clear_by_length samples1 samples Hlen).
Qed.

(** A witness: an accumulating track, then a clearing one, on a buffer
    of two samples. *)
Lemma clearing_track_erases_witness :
  renderTracks mix_tracks 48000 ([0%nat] ++ 1%nat :: [2%nat])
    [F64.of_Z 7; F64.of_Z 7] 0
  = renderTracks mix_tracks 48000 (1%nat :: [2%nat]) [F64.of_Z 7; F64.of_Z 7] 0.
Proof.
  eapply (clearing_track_erases mix_tracks 48000 [0%nat] [2%nat] 1%nat).
  - vm_compute. reflexivity.
  - reflexivity.
  - reflexivity.
Defined.

(** * Distinct slots *)

Section Distinct.

Variable sc : Strconv.
Variable reg : gmap string ProcessorFactory.

Lemma distinct_slots_kept line s fl s' :
  ~ is_reuse line ->
  allocated s -> distinct_slots s ->
  processLine sc reg line s = Done (fl, s') ->
  distinct_slots s'.
Proof.
  intros Hnr (Hso & Hpa & Htr) [Hnd Hcur] H.
  pose proof (processLine_cases sc reg line s) as Hc.
  destruct (classify line) eqn:Hk.
  - rewrite Hc in H. injection H as <- <-. split; [constructor | discriminate].
  - rewrite Hc in H. injection H as <- <-. by split.
  - destruct Hc as (m & _ & Hc). rewrite Hc in H.
    destruct (setGlobal sc _ _ _) as [d| |]; try discriminate.
    simpl in H. injection H as <- <-. by split.
  - destruct Hc as (m & Hm & Hc). rewrite Hc in H.
    destruct (setProcessor _ _ _ _ _) as [s1| |] eqn:Ep; try discriminate.
    simpl in H. injection H as <- <-.
    apply setProcessor_cases in Ep
      as [(Hname & _)|(_ & f & proc & _ & _ & ->)].
    { exfalso. apply Hnr. split; [exact Hk|].
      unfold directive_name. by rewrite Hm. }
    unfold distinct_slots. simpl.
    assert (Hall : Forall (fun q => (q < length (heap s))%nat)
                     (concat (song s) ++ pattern s)).
    { apply Forall_app. split; [|exact Hpa]. by apply Forall_concat. }
    assert (Hfresh : forall l, Forall (fun q => (q < length (heap s))%nat) l ->
                       ~ In (length (heap s)) l).
    { intros l Hl Hin. rewrite Forall_forall in Hl.
      apply list_elem_of_In, Hl in Hin. lia. }
    destruct (track s) as [q|] eqn:Eq.
    + rewrite app_assoc. split.
      * apply NoDup_app. split; [exact Hnd|]. split; [|apply NoDup_singleton].
        intros x Hx Hx'. apply list_elem_of_singleton in Hx' as ->.
        apply (Hcur q eq_refl). by apply list_elem_of_In.
      * intros p' [= <-]. apply Hfresh. apply Forall_app. split; [exact Hall|].
        apply Forall_singleton. by apply Htr.
    + split; [exact Hnd|]. intros p' [= <-]. by apply Hfresh.
  - destruct Hc as (m & _ & Hc). rewrite Hc in H.
    destruct (setData _ _ _) as [s1| |] eqn:Ed; try discriminate.
    simpl in H. injection H as <- <-.
    apply setData_cases in Ed as (q & u & _ & _ & ->). by split.
  - rewrite Hc in H. injection H as <- <-. unfold closePattern.
    destruct (pattern s) as [|q ps] eqn:E.
    { unfold distinct_slots. rewrite E. by split. }
    unfold distinct_slots. simpl. split; [|discriminate].
    by rewrite concat_app, app_nil_r; simpl; rewrite app_nil_r.
  - rewrite Hc in H. injection H as <- <-. by split.
Qed.

End Distinct.

(** X22: in a file without reuse directives every slot of every pattern
    of the built song is a track of its own: no track appears twice. *)
Theorem slots_distinct_without_reuse (sc : Strconv)
    (reg : gmap string ProcessorFactory) (lines : list string) (d : Defaults)
    (s : State) :
  Forall (fun l => ~ is_reuse l) lines ->
  buildSong sc reg lines d = Done s ->
  NoDup (concat (song s)).
Proof.
  intros Hlines Hb. unfold buildSong in Hb.
  destruct (scanLines sc reg lines (state_init d)) as [s1| |] eqn:Hscan;
    try discriminate.
  simpl in Hb. injection Hb as <-.
  assert (Hinv : allocated s1 /\ distinct_slots s1).
  { refine (scanLines_inv sc reg (fun x => allocated x /\ distinct_slots x)
              (fun l => ~ is_reuse l) _ lines _ s1 Hlines _ Hscan).
    - intros line s0 fl s' Hl [Ha Hd] Hp. split.
      + by eapply allocated_kept.
      + by eapply distinct_slots_kept.
    - split; [repeat split; simpl; [constructor | constructor | discriminate]|].
      split; [constructor | discriminate]. }
  destruct Hinv as [_ [Hnd _]]. unfold closePattern.
  destruct (pattern s1) as [|q ps] eqn:E.
  - by rewrite app_nil_r in Hnd.
  - simpl. by rewrite concat_app; simpl; rewrite app_nil_r.
Qed.

(** A witness: three named directives and a separator. *)
Lemma slots_distinct_without_reuse_witness :
  NoDup (concat (song {| song := [[0%nat; 1%nat]]; pattern := []; track := None;
                         heap := [trackOf basicSynthFactory None true defaults_init;
                                  trackOf basicSynthFactory None false defaults_init;
                                  trackOf basicSynthFactory None true defaults_init];
                         defaults := defaults_init |})).
Proof.
  apply (slots_distinct_without_reuse strconv processorFactories
           [":basic"; "+basic"; ":basic"; " "]%string defaults_init).
  - repeat (apply Forall_cons; split;
            [intros [H1 H2];
             first [vm_compute in H1; discriminate H1
                   |vm_compute in H2; discriminate H2]|]).
    apply Forall_nil_2.
  - vm_compute. reflexivity.
Defined.

(** * Song reset *)

Section DirectiveBlocks.

Variable sc : Strconv.
Variable reg : gmap string ProcessorFactory.

(** A well-formed named directive allocates its track. *)
Lemma named_directive_step b t s :
  binds reg (defaults s) b t ->
  processLine sc reg (directive_line b) s = Done (Next, bindTrack s t).
Proof.
  intros (Hname & Hnc & Hnl & f & proc & Hf & Hp & ->).
  destruct (directive_line_runs sc reg (directive_line b) s
              (if b_clear b then colon else "+"%char) (b_name b) (b_args b))
    as (_ & _ & ->).
  - destruct (b_clear b); [by left | right; by left].
  - exact Hnc.
  - exact Hnl.
  - unfold directive_line. by rewrite list_ascii_of_string_of_list_ascii.
  - assert (Hclear : negb (Ascii.eqb (if b_clear b then colon else "+"%char) "+")
                     = b_clear b) by (by destruct (b_clear b)).
    rewrite Hclear. unfold setProcessor.
    assert (Hne : String.eqb (string_of_list_ascii (b_name b)) "" = false).
    { destruct (b_name b); [contradiction | reflexivity]. }
    rewrite Hne, Hf, Hp. reflexivity.
Qed.

(** A block of well-formed named directives allocates its tracks one
    after the other. *)
Lemma directive_block bs :
  forall ts s rest,
    Forall2 (binds reg (defaults s)) bs ts ->
    scanLines sc reg (map directive_line bs ++ rest) s
    = scanLines sc reg rest (fold_left bindTrack ts s).
Proof.
  induction bs as [|b bs IH]; intros ts s rest H.
  - apply Forall2_nil_inv_l in H as ->. reflexivity.
  - apply Forall2_cons_inv_l in H as (t & ts' & Hb & Hbs & ->).
    cbn [map app scanLines fold_left].
    rewrite (named_directive_step b t s Hb). by apply IH.
Qed.

(** Separator lines close the open pattern, once. *)
Lemma scan_separators seps :
  forall s,
    Forall (fun l => classify l = Separator) seps ->
    exists s', scanLines sc reg seps s = Done s'
               /\ closePattern s' = closePattern s.
Proof.
  induction seps as [|l seps IH]; intros s H.
  - by exists s.
  - apply Forall_cons in H as [Hl H]. simpl.
    pose proof (processLine_cases sc reg l s) as Hc. rewrite Hl in Hc.
    rewrite Hc. destruct (IH (closePattern s) H) as (s' & Hs & Hcl).
    exists s'. split; [exact Hs|]. rewrite Hcl.
    unfold closePattern at 2 3. destruct (pattern s) eqn:E; [|reflexivity].
    unfold closePattern. by rewrite E.
Qed.

End DirectiveBlocks.

(** The state a block of tracks leaves when it starts with no pattern
    open and no track under the cursor: all tracks but the last are in
    the pattern, the last is under the cursor. *)
Lemma fold_bindTrack ts :
  forall tlast s,
    pattern s = [] -> track s = None ->
    fold_left bindTrack (ts ++ [tlast]) s
    = {| song := song s;
         pattern := seq (length (heap s)) (length ts);
         track := Some (length (heap s) + length ts)%nat;
         heap := heap s ++ ts ++ [tlast];
         defaults := defaults s |}.
Proof.
  induction ts as [|t ts IH] using rev_ind; intros tlast s Hp Ht.
  - simpl. unfold bindTrack. rewrite Hp, Ht, Nat.add_0_r. reflexivity.
  - rewrite fold_left_app. rewrite (IH t s Hp Ht). simpl.
    unfold bindTrack. simpl. rewrite !length_app. simpl.
    rewrite seq_app. simpl. f_equal; try (f_equal; lia).
    by rewrite <- !app_assoc.
Qed.

(** The tracks a pattern of consecutive addresses points to. *)
Lemma deref_block (pre ts post : list Track) :
  deref (pre ++ ts ++ post) [seq (length pre) (length ts)] = [map Some ts].
Proof.
  unfold deref. simpl. f_equal. apply list_eq. intros i.
  rewrite !list_lookup_fmap.
  destruct (decide (i < length ts)%nat) as [Hi|Hi].
  - rewrite lookup_seq_lt by exact Hi. simpl.
    rewrite lookup_app_r by lia. rewrite lookup_app_l by lia.
    replace (length pre + i - length pre)%nat with i by lia.
    by destruct (lookup_lt_is_Some_2 ts i Hi) as [x ->].
  - rewrite lookup_seq_ge by lia. by rewrite lookup_ge_None_2 by lia.
Qed.

Lemma deref_displaced (pre h : list Track) (s : Song) :
  deref (pre ++ h) (map (map (Nat.add (length pre))) s) = deref h s.
Proof.
  unfold deref. rewrite map_map. apply map_ext. intros pat.
  rewrite map_map. apply map_ext. intros p. apply lookup_displaced.
Qed.

(** C8: the line [>>] empties the song, drops the open pattern and the
    track cursor, and leaves the defaults (and the tracks allocated so
    far, which nothing refers to any more) as they are.  Hence, for a
    file made of a first part (without [<<]), the line [>>] and a second
    part: the song built is the song the second part alone builds under
    the defaults the first part has left, with its tracks allocated after
    those of the first part, and the render and the result of
    [processFile] are those of the second part alone.  In particular,
    when the second part is a block of well-formed named directives
    followed by separators, the song is the single pattern of the tracks
    of that block (all but the last, which stays open), whatever the
    first part has built. *)
Theorem song_reset_discards (sc : Strconv) (reg : gmap string ProcessorFactory)
    (first : list string) (d : Defaults) (s1 : State) :
  Forall (fun l => l <> "<<"%string) first ->
  scanLines sc reg first (state_init d) = Done s1 ->
  scanLines sc reg (first ++ [">>"%string]) (state_init d)
  = Done {| song := []; pattern := []; track := None;
            heap := heap s1; defaults := defaults s1 |}
  /\ (forall second s2,
        buildSong sc reg second (defaults s1) = Done s2 ->
        exists s',
          buildSong sc reg (first ++ ">>"%string :: second) d = Done s'
          /\ shifted (heap s1) s2 s'
          /\ deref (heap s') (song s') = deref (heap s2) (song s2)
          /\ renderSong (heap s') (sr (defaults s')) (song s')
             = renderSong (heap s2) (sr (defaults s2)) (song s2))
  /\ (forall second,
        processFile sc reg (first ++ ">>"%string :: second) d
        = processFile sc reg second (defaults s1))
  /\ (forall bs ts tlast seps,
        ts <> [] ->
        Forall2 (binds reg (defaults s1)) bs (ts ++ [tlast]) ->
        Forall (fun l => classify l = Separator) seps ->
        buildSong sc reg (first ++ ">>"%string :: map directive_line bs ++ seps) d
        = Done {| song := [seq (length (heap s1)) (length ts)];
                  pattern := []; track := None;
                  heap := heap s1 ++ ts ++ [tlast];
                  defaults := defaults s1 |}
        /\ deref (heap s1 ++ ts ++ [tlast]) [seq (length (heap s1)) (length ts)]
           = [map Some ts]
        /\ renderSong (heap s1 ++ ts ++ [tlast]) (sr (defaults s1))
             [seq (length (heap s1)) (length ts)]
           = renderSong (ts ++ [tlast]) (sr (defaults s1)) [seq 0 (length ts)]).
Proof.
  intros Hno Hfirst.
  assert (Hreset : forall rest,
            scanLines sc reg (first ++ ">>"%string :: rest) (state_init d)
            = scanLines sc reg rest (reset s1)).
  { intros rest. by rewrite (scanLines_app sc reg first _ _ s1 Hno Hfirst). }
  assert (Hsh : shifted (heap s1) (state_init (defaults s1)) (reset s1)).
  { constructor; simpl; try reflexivity. by rewrite app_nil_r. }
  split; [|split; [|split]].
  - by rewrite Hreset.
  - intros second s2 Hb. unfold buildSong in *. rewrite Hreset.
    pose proof (shifted_scanLines sc reg (heap s1) second _ _ Hsh) as H.
    destruct (scanLines sc reg second (state_init (defaults s1))) as [a| |];
      try discriminate.
    simpl in Hb. injection Hb as <-.
    destruct (scanLines sc reg second (reset s1)) as [b| |]; simpl in H;
      try contradiction.
    apply shifted_closePattern in H. exists (closePattern b).
    split; [reflexivity|]. split; [exact H|].
    destruct H as [Hso _ _ Hh Hd]. rewrite Hso, Hh, Hd. split.
    + apply deref_displaced.
    + unfold renderSong. apply renderPatterns_displaced.
  - intros second. unfold processFile, buildSong. rewrite Hreset.
    pose proof (shifted_scanLines sc reg (heap s1) second _ _ Hsh) as H.
    destruct (scanLines sc reg second (state_init (defaults s1))) as [a| |],
             (scanLines sc reg second (reset s1)) as [b| |]; simpl in *;
      try contradiction; try congruence.
    apply shifted_closePattern in H. destruct H as [Hso _ _ Hh Hd].
    rewrite Hso, Hh, Hd. unfold renderSong.
    by rewrite renderPatterns_displaced.
  - intros bs ts tlast seps Hts Hbs Hseps. split; [|split].
    + unfold buildSong. rewrite Hreset.
      rewrite (directive_block sc reg bs (ts ++ [tlast]) (reset s1) seps Hbs).
      rewrite (fold_bindTrack ts tlast (reset s1) eq_refl eq_refl).
      match goal with
      | |- context [scanLines sc reg seps ?x] =>
          destruct (scan_separators sc reg seps x Hseps) as (s' & Hs' & Hcl)
      end.
      rewrite Hs'. simpl. rewrite Hcl. unfold closePattern. simpl.
      destruct ts as [|t ts']; [contradiction|]. reflexivity.
    + apply deref_block.
    + unfold renderSong.
      rewrite <- (renderPatterns_displaced (heap s1) (ts ++ [tlast])
                    (sr (defaults s1)) [seq 0 (length ts)] NewSlice 0).
      simpl. by rewrite fmap_add_seq, Nat.add_0_r.
Qed.

(** A witness of the theorem above: [reset_first] builds a pattern of
    four frames, and after [>>] the two directives of [reset_second] and a
    separator build the song of the single track of six frames. *)
Lemma song_reset_discards_witness :
  buildSong strconv silent_registry
    (reset_first ++ ">>"%string :: map directive_line reset_second ++ [" "%string])
    defaults_init
  = Done {| song := [[2%nat]]; pattern := []; track := None;
            heap := [four_frames; four_frames] ++ [six_frames]
                    ++ [trackOf (factoryOf silent) (Some silent) false reset_defaults];
            defaults := reset_defaults |}
  /\ deref ([four_frames; four_frames] ++ [six_frames]
            ++ [trackOf (factoryOf silent) (Some silent) false reset_defaults])
       [[2%nat]]
     = [[Some six_frames]]
  /\ renderSong ([four_frames; four_frames] ++ [six_frames]
                 ++ [trackOf (factoryOf silent) (Some silent) false reset_defaults])
       2 [[2%nat]]
     = renderSong ([six_frames]
                   ++ [trackOf (factoryOf silent) (Some silent) false reset_defaults])
         2 [[0%nat]].
Proof.
  refine (proj2 (proj2 (proj2
    (song_reset_discards strconv silent_registry reset_first defaults_init
       {| song := [[0%nat]]; pattern := []; track := None;
          heap := [four_frames; four_frames]; defaults := reset_defaults |} _ _)))
    reset_second [six_frames]
    (trackOf (factoryOf silent) (Some silent) false reset_defaults)
    [" "%string] _ _ _).
  - repeat constructor; discriminate.
  - vm_compute. reflexivity.
  - discriminate.
  - repeat constructor; simpl; try discriminate;
      try (intros H; vm_compute in H; intuition discriminate);
      eexists _, _; (split; [reflexivity|]); split; reflexivity.
  - repeat constructor.
Defined.

(** The render of that file moves the write offset by the 6 frames of
    the second part only; the pattern of the first part would have moved
    it by 4 frames more. *)
Example reset_render_offsets :
  (exists s,
     buildSong strconv silent_registry
       (reset_first ++ ">>"%string :: map directive_line reset_second ++ [" "%string])
       defaults_init = Done s
     /\ renderSong (heap s) (sr (defaults s)) (song s) = Done (NewSlice, 12))
  /\ (exists s,
        buildSong strconv silent_registry
          (reset_first ++ map directive_line reset_second ++ [" "%string])
          defaults_init = Done s
        /\ renderSong (heap s) (sr (defaults s)) (song s) = Done (NewSlice, 20)).
Proof.
  split; eexists; (split; [vm_compute; reflexivity|]); reflexivity.
Qed.

(** * The mixing loop *)



(** * Snapshots *)

(** X23: the tempo, step length and step count a track has captured are
    altered by no later line (global settings, data lines, named
    directives, separators and the reset line included) other than a reuse
    directive met while the track is under the cursor. *)
Theorem snapshot_kept_unless_rebound (sc : Strconv)
    (reg : gmap string ProcessorFactory) (lines : list string) (s s' : State)
    (p : ptr) (t : Track) :
  ~ rebound sc reg p lines s ->
  scanLines sc reg lines s = Done s' ->
  heap s !! p = Some t ->
  exists t', heap s' !! p = Some t'
    /\ Track.bpm t' = Track.bpm t /\ Track.step t' = Track.step t
    /\ Track.steps t' = Track.steps t.
Proof. apply scanLines_snapshot. Qed.

(** A witness: a track bound at the initial defaults keeps them through
    a tempo change, a data line, a second track, a reuse of that second
    track, a separator and the reset line. *)
Lemma snapshot_kept_unless_rebound_witness :
  exists t',
    [Track.mk basicSynthFactory None true {[ "a"%char := "1"%string ]}
       (F64.of_Z 120) step_init 16;
     trackOf basicSynthFactory None false
       {| bpm := F64.of_Z 90; sr := 48000; steps := 16; step := step_init |}]
    !! 0%nat = Some t'
    /\ Track.bpm t' = Track.bpm (trackOf basicSynthFactory None true defaults_init)
    /\ Track.step t' = Track.step (trackOf basicSynthFactory None true defaults_init)
    /\ Track.steps t' = Track.steps (trackOf basicSynthFactory None true defaults_init).
Proof.
  apply (snapshot_kept_unless_rebound strconv processorFactories
           ["bpm 90"; "a1"; "+basic"; ":"; " "; ">>"]%string
           {| song := []; pattern := []; track := Some 0%nat;
              heap := [trackOf basicSynthFactory None true defaults_init];
              defaults := defaults_init |}
           {| song := []; pattern := []; track := None;
              heap := [Track.mk basicSynthFactory None true
                         {[ "a"%char := "1"%string ]} (F64.of_Z 120) step_init 16;
                       trackOf basicSynthFactory None false
                         {| bpm := F64.of_Z 90; sr := 48000; steps := 16;
                            step := step_init |}];
              defaults := {| bpm := F64.of_Z 90; sr := 48000; steps := 16;
                             step := step_init |} |}
           0%nat).
  - intros H. vm_compute in H. intuition discriminate.
  - vm_compute. reflexivity.
  - reflexivity.
Defined.
